(** * ProcessBench: evaluation of a TRL-trained process reward model

    A shallow embedding of [code/run_eval_prm_trl.py].  The tokenizer and the
    token-classification model are external collaborators and appear as
    section variables; everything the script itself does (appending token
    rows, recording score positions, right padding, the first-zero scan, the
    gather across processes, the count check and the accuracy arithmetic on
    IEEE binary64 values) is written out. *)

From Stdlib Require Import ZArith Lia Bool Ascii String List Sorted Permutation.
From Stdlib Require Import Floats.SpecFloat.
From stdpp Require Import base tactics option list strings gmap.

Local Open Scope Z_scope.

(** ** Python exceptions and the error monad *)

Inductive exn : Set :=
| ValueError    (* max() of an empty sequence *)
| RuntimeError  (* torch.cat on a zero-dimensional tensor *)
| IndexError    (* tensor index out of range *)
| KeyError.     (* dereferencing an object that is not in the store *)

Inductive result (A : Type) : Type :=
| Ok (a : A)
| Raise (e : exn).
Arguments Ok {A} a.
Arguments Raise {A} e.

Definition bind {A B} (r : result A) (k : A -> result B) : result B :=
  match r with
  | Ok a => k a
  | Raise e => Raise e
  end.

Notation "'let*' x ':=' r 'in' k" := (bind r (fun x => k))
  (at level 10, x pattern, r at level 100, k at level 200).

Fixpoint mapM {A B} (f : A -> result B) (l : list A) : result (list B) :=
  match l with
  | [] => Ok []
  | x :: l' =>
      let* y := f x in
      let* ys := mapM f l' in
      Ok (y :: ys)
  end.

Definition is_ok {A} (r : result A) : Prop :=
  match r with Ok _ => True | Raise _ => False end.

(** ** The step judge: [find_first_zero] *)

(** [tensor == 0] on a one-dimensional tensor of class ids. *)
Definition eq_zero (tensor : list Z) : list bool :=
  map (fun x => x =? 0) tensor.

(** [mask.nonzero()]: the indices of the true entries, in ascending order.
    [nonzero_from i] is the same for a mask whose first index is [i]. *)
Fixpoint nonzero_from (i : Z) (mask : list bool) : list Z :=
  match mask with
  | [] => []
  | b :: mask' =>
      if b then i :: nonzero_from (i + 1) mask' else nonzero_from (i + 1) mask'
  end.

Definition nonzero (mask : list bool) : list Z := nonzero_from 0 mask.

(** [zeros[0].item() if zeros.numel() > 0 else -1] *)
Definition find_first_zero (tensor : list Z) : Z :=
  let zeros := nonzero (eq_zero tensor) in
  match zeros with
  | z :: _ => z
  | [] => -1
  end.

(** ** Examples, the encoder and the packer: [collate_fn] *)

Definition newline : string := String "010"%char EmptyString.

(** A row of the dataset.  [prediction] and [match_] are the two keys the
    scoring loop adds to the copied row; they are absent ([None]) in rows
    coming from the dataset. *)
Record Example : Type := mkExample {
  problem : string;
  steps : list string;
  label : Z;
  prediction : option Z;
  match_ : option bool
}.

(** The dictionary returned by [collate_fn]. *)
Record Batch : Type := mkBatch {
  input_ids : list (list Z);
  labels : list Z;
  score_ids : list (list Z)
}.

(** A tensor with at most one dimension, as [squeeze()] can return one. *)
Inductive tensor : Type :=
| Scalar (v : Z)        (* zero-dimensional *)
| Vector (l : list Z).  (* one-dimensional *)

(** [input_idx.squeeze()] on a tensor of shape [1, L]: every dimension of
    size one is removed, so a single token becomes a zero-dimensional
    tensor. *)
Definition squeeze (input_idx : list Z) : tensor :=
  match input_idx with
  | [v] => Scalar v
  | _ => Vector input_idx
  end.

(** [torch.cat([a, b])] along dimension 0: zero-dimensional tensors cannot
    be concatenated. *)
Definition cat (a b : tensor) : result (list Z) :=
  match a, b with
  | Vector x, Vector y => Ok (x ++ y)
  | _, _ => Raise RuntimeError
  end.

(** [max(lens)] on a list of sizes. *)
Definition py_max (lens : list nat) : result nat :=
  match lens with
  | [] => Raise ValueError
  | n :: lens' => Ok (foldl Nat.max n lens')
  end.

Section Encoder.
(** [tokenizer(text, return_tensors='pt')['input_ids']] has shape [1, L];
    the model keeps its single row. *)
Variable tokenizer : string -> list Z.
Variable pad_token_id : Z.

(** One pass of the inner loop (lines 25-28): tokenize [j + '\n'], append
    it to the running row and record the index of its last token. *)
Definition encode_step (acc : list Z * list Z) (j : string)
  : list Z * list Z :=
  let '(input_idx, score) := acc in
  let completion := j +:+ newline in
  let completion_idx := tokenizer completion in
  let input_idx := input_idx ++ completion_idx in
  (input_idx, score ++ [Z.of_nat (length input_idx) - 1]).

(** The body of the outer loop (lines 21-30) for one example: the token
    row and its score positions. *)
Definition encode (separator : string) (i : Example) : list Z * list Z :=
  let text := problem i +:+ separator in
  let input_idx := tokenizer text in
  foldl encode_step (input_idx, []) (steps i).

(** Lines 35-41 for one row. *)
Definition pad_row (max_len : nat) (input_idx : list Z) : result (list Z) :=
  cat (squeeze input_idx)
      (Vector (replicate (max_len - length input_idx) pad_token_id)).

Definition collate_fn (batch : list Example) (separator : string)
  : result Batch :=
  let encoded := map (encode separator) batch in
  let input_ids := map fst encoded in
  let score_ids := map snd encoded in
  let labels := map label batch in
  let* max_len := py_max (map (fun i => length i) input_ids) in
  let* input_ids := mapM (pad_row max_len) input_ids in
  Ok (mkBatch input_ids labels score_ids).
End Encoder.

(** ** The scoring loop over the object store *)

(** Python objects live in a store; a list such as [batch_] holds
    references.  Only the example dictionaries are mutated by the script,
    so they are the objects of the store. *)
Abbreviation loc := positive (only parsing).
Abbreviation store := (gmap positive Example) (only parsing).

Definition set_prediction (p : Z) (e : Example) : Example :=
  mkExample (problem e) (steps e) (label e) (Some p) (match_ e).

Definition set_match (b : bool) (e : Example) : Example :=
  mkExample (problem e) (steps e) (label e) (prediction e) (Some b).

(** The row as the dataset delivered it: the two added keys removed. *)
Definition raw (e : Example) : Example :=
  mkExample (problem e) (steps e) (label e) None None.

(** Reading through a reference. *)
Definition deref (s : store) (l : loc) : result Example :=
  match s !! l with
  | Some e => Ok e
  | None => Raise KeyError
  end.

(** [obj[key] = v] on the dictionary behind [l]. *)
Definition setitem (s : store) (l : loc) (f : Example -> Example)
  : result store :=
  match s !! l with
  | Some e => Ok (<[l := f e]> s)
  | None => Raise KeyError
  end.

(** [l[i]] on a Python list. *)
Definition getitem {A} (l : list A) (i : nat) : result A :=
  match l !! i with
  | Some a => Ok a
  | None => Raise IndexError
  end.

(** [deepcopy] of a list of dictionaries: every distinct dictionary is
    copied once into a newly allocated object; [memo] maps the objects
    already copied to their copies, as [copy.deepcopy] does. *)
Fixpoint deepcopy_from (memo : gmap positive positive) (s : store)
    (l : list loc) : result (store * list loc) :=
  match l with
  | [] => Ok (s, [])
  | x :: l' =>
      match memo !! x with
      | Some x' =>
          let* r := deepcopy_from memo s l' in
          Ok (r.1, x' :: r.2)
      | None =>
          let* e := deref s x in
          let x' := fresh (dom s) in
          let* r := deepcopy_from (<[x := x']> memo) (<[x' := e]> s) l' in
          Ok (r.1, x' :: r.2)
      end
  end.

Definition deepcopy (s : store) (l : list loc) : result (store * list loc) :=
  deepcopy_from ∅ s l.

(** Indexing a dimension of size [n] with a Python integer. *)
Definition py_index (n : nat) (p : Z) : result nat :=
  if (0 <=? p) && (p <? Z.of_nat n) then Ok (Z.to_nat p)
  else if (- Z.of_nat n <=? p) && (p <? 0) then Ok (Z.to_nat (p + Z.of_nat n))
  else Raise IndexError.

Section Scoring.
Variable tokenizer : string -> list Z.
Variable pad_token_id : Z.
Variable separator : string.

(** The model followed by the argmax over classes:
    [classify input_ids i c] is
    [torch.argmax(model(input_ids).logits[i, c], dim=-1)]. *)
Variable classify : list (list Z) -> nat -> nat -> Z.

(** [torch.argmax(logits[i, score_id], dim=-1)]: one class id per
    score position; [logits] has one row per row of [input_ids], and its
    second dimension has the size of the padded rows. *)
Definition argmax_at (input_ids : list (list Z)) (i : nat)
    (score_id : list Z) : result (list Z) :=
  let* row := getitem input_ids i in
  let max_len := length row in
  mapM (fun p => let* c := py_index max_len p in
                 Ok (classify input_ids i c)) score_id.

(** Lines 132-136 for one [i, score_id]. *)
Definition score_example (input_ids : list (list Z)) (labels : list Z)
    (new_batch : list loc) (s : store) (i : nat) (score_id : list Z)
  : result store :=
  let* label := getitem labels i in
  let* pred := argmax_at input_ids i score_id in
  let prediction_step := find_first_zero pred in
  let* l := getitem new_batch i in
  let* s := setitem s l (set_prediction prediction_step) in
  let* l := getitem new_batch i in
  setitem s l (set_match (prediction_step =? label)).

(** [for i, score_id in enumerate(score_ids)], from index [i] on. *)
Fixpoint score_loop (input_ids : list (list Z)) (labels : list Z)
    (new_batch : list loc) (s : store) (i : nat)
    (score_ids : list (list Z)) : result store :=
  match score_ids with
  | [] => Ok s
  | score_id :: rest =>
      let* s := score_example input_ids labels new_batch s i score_id in
      score_loop input_ids labels new_batch s (S i) rest
  end.

(** The body of the loop over the dataloader (lines 120-138): the store
    after the batch and the extended [res_data]. *)
Definition process_batch (s : store) (res_data : list loc)
    (batch_ : list loc) : result (store * list loc) :=
  let* copied := deepcopy s batch_ in
  let s := copied.1 in
  let new_batch := copied.2 in
  let* rows := mapM (deref s) batch_ in
  let* batch := collate_fn tokenizer pad_token_id rows separator in
  let* s := score_loop (input_ids batch) (labels batch) new_batch s O
              (score_ids batch) in
  Ok (s, res_data ++ new_batch).
End Scoring.

(** ** Sharding and the gather across processes *)

(** What the script reads from [Accelerator()]. *)
Record Accelerator : Type := mkAccelerator {
  num_processes : nat;
  process_index : nat;
  distributed_type : string
}.

Definition is_main_process (accelerator : Accelerator) : bool :=
  (process_index accelerator =? 0)%nat.

(** [math.ceil(a / b)] for sizes. *)
Definition ceil_div (a b : nat) : nat := ((a + b - 1) / b)%nat.

(** [l[start:stop:step]] for non-negative bounds and a positive step. *)
Definition py_slice {A} (start stop step : nat) (l : list A) : list A :=
  omap (fun k => l !! (start + k * step)%nat)
       (seq 0 (ceil_div (Nat.min stop (length l) - start) step)).

(** The index list of [torch.utils.data.DistributedSampler] with
    [shuffle=False] and its default [drop_last=False]: the indices of the
    dataset, padded with their own beginning (repeated if need be) up to
    [total_size]. *)
Definition padded_indices (n total_size : nat) : list nat :=
  let indices := seq 0 n in
  let padding_size := (total_size - length indices)%nat in
  if (padding_size <=? length indices)%nat
  then indices ++ take padding_size indices
  else indices ++
       take padding_size
         (concat (replicate (ceil_div padding_size (length indices)) indices)).

(** The indices the sampler yields for one rank: [total_size] is the
    smallest multiple of [num_replicas] that covers the dataset, and every
    rank takes one index out of [num_replicas] from the padded list. *)
Definition distributed_sampler (n num_replicas rank : nat) : list nat :=
  let num_samples := ceil_div n num_replicas in
  let total_size := (num_samples * num_replicas)%nat in
  let indices := padded_indices n total_size in
  py_slice rank total_size num_replicas indices.

(** Lines 101-108: the sampler of the dataloader; without a sampler the
    dataloader walks the whole dataset in order. *)
Definition sampler (accelerator : Accelerator) (n : nat) : list nat :=
  if String.eqb (distributed_type accelerator) "MULTI_GPU"
  then distributed_sampler n (num_processes accelerator)
         (process_index accelerator)
  else seq 0 n.

(** [gather_objects(data, accelerator)].  [world] is what
    [all_gather_object] delivers: the [data] of every process, by rank.
    Python's [None] is [None]. *)
Definition gather_objects {A} (world : list (list A)) (data : list A)
    (accelerator : Accelerator) : option (list A) :=
  let world_size := num_processes accelerator in
  if (world_size =? 1)%nat then Some data
  else
    let all_data := world in
    if is_main_process accelerator
    then Some (foldl (fun result process_data => result ++ process_data)
                 [] all_data)
    else None.

(** ** The loop of one process over its dataloader (lines 109-138) *)

Fixpoint foldM {A B} (f : A -> B -> result A) (a : A) (l : list B)
  : result A :=
  match l with
  | [] => Ok a
  | x :: l' => let* a' := f a x in foldM f a' l'
  end.

(** The dataloader cuts the sampled indices into batches of [batch_size];
    with [drop_last=False] the last batch may be shorter.  [fuel] bounds
    the number of batches. *)
Fixpoint batches_fuel (fuel batch_size : nat) (indices : list nat)
  : list (list nat) :=
  match fuel with
  | O => []
  | S fuel' =>
      match indices with
      | [] => []
      | _ => take batch_size indices
             :: batches_fuel fuel' batch_size (drop batch_size indices)
      end
  end.

Definition batches (batch_size : nat) (indices : list nat) : list (list nat) :=
  batches_fuel (length indices) batch_size indices.

Definition bs : nat := 24.

(** [dataset[i]]: the row is delivered as a new dictionary. *)
Definition fetch (dataset : list Example)
    (acc : gmap positive Example * list positive) (i : nat)
  : result (gmap positive Example * list positive) :=
  let* e := getitem dataset i in
  let l := fresh (dom acc.1) in
  Ok (<[l := e]> acc.1, acc.2 ++ [l]).

Section Worker.
Variable tokenizer : string -> list Z.
Variable pad_token_id : Z.
Variable separator : string.
Variable classify : list (list Z) -> nat -> nat -> Z.

(** One batch of the dataloader: the rows are fetched, then scored. *)
Definition worker_step (dataset : list Example)
    (acc : gmap positive Example * list positive) (batch_indices : list nat)
  : result (gmap positive Example * list positive) :=
  let* loaded := foldM (fetch dataset) (acc.1, []) batch_indices in
  process_batch tokenizer pad_token_id separator classify loaded.1 acc.2
    loaded.2.

(** The loop of one process and the rows it hands to the gather (the
    gather pickles [res_data], so [data] holds rows, not references). *)
Definition run_worker (dataset : list Example) (accelerator : Accelerator)
  : result (list Example) :=
  let indices := sampler accelerator (length dataset) in
  let* final := foldM (worker_step dataset) (∅, []) (batches bs indices) in
  mapM (deref final.1) final.2.
End Worker.

(** ** Accuracy arithmetic on binary64 *)

Definition prec : Z := 53.
Definition emax : Z := 1024.

Definition fadd : spec_float -> spec_float -> spec_float := SFadd prec emax.
Definition fmul : spec_float -> spec_float -> spec_float := SFmul prec emax.
Definition fdiv : spec_float -> spec_float -> spec_float := SFdiv prec emax.

(** Conversion of a Python integer to a float. *)
Definition float_of_Z (z : Z) : spec_float :=
  binary_normalize prec emax z 0 false.

(** [np.mean] of a list of booleans: the float64 sum of the entries over
    their number; the empty list gives 0/0. *)
Definition np_mean (l : list bool) : spec_float :=
  fdiv (float_of_Z (Z.of_nat (length (filter (fun b => b = true) l))))
       (float_of_Z (Z.of_nat (length l))).

(** [np.mean(...) * 100] *)
Definition accuracy (matches : list bool) : spec_float :=
  fmul (np_mean matches) (float_of_Z 100).

(** [2 * acc1 * acc2 / (acc1 + acc2)], evaluated left to right. *)
Definition f1_score (acc1 acc2 : spec_float) : spec_float :=
  fdiv (fmul (fmul (float_of_Z 2) acc1) acc2) (fadd acc1 acc2).

Definition is_nan (x : spec_float) : bool :=
  match x with S754_nan => true | _ => false end.

(** Normal binary64 numbers below the largest binade; zeros, infinities
    and NaN qualify. *)
Definition doubles_exactly (x : spec_float) : bool :=
  match x with
  | S754_finite _ m e =>
      (Zpos (digits2_pos m) =? prec) && (emin prec emax <=? e)
      && (e <? emax - prec)
  | _ => true
  end.

(** Binary64 values of magnitude below 2^1023: a finite value must be a
    valid binary64 number (normal or subnormal) whose exponent is not the
    largest one.  Zeros, infinities and NaN qualify. *)
Definition binary64_below_top (x : spec_float) : bool :=
  match x with
  | S754_finite _ m e => bounded prec emax m e && (e <? emax - prec)
  | _ => true
  end.

(** Whether every accuracy over at most [bound] rows is such a value. *)
Definition accuracies_below_top (bound : nat) : bool :=
  forallb
    (fun n =>
       forallb
         (fun k =>
            binary64_below_top
              (accuracy (replicate k true ++ replicate (n - k) false)))
         (seq 0 (S n)))
    (seq 0 (S bound)).

(** ** The metrics aggregator (lines 143-164) *)

Inductive event : Type :=
| PrintErrorMismatch (config : string) (n : nat) (expected : Z)
| PrintCorrectMismatch (config : string) (n : nat) (expected : Z)
| WriteFile (path : string) (lines : list Example)
| PrintReport (config : string) (acc1 acc2 f1 : spec_float).

Definition is_warning (ev : event) : bool :=
  match ev with
  | PrintErrorMismatch _ _ _ | PrintCorrectMismatch _ _ _ => true
  | _ => false
  end.

(** [e['match']] *)
Definition get_match (e : Example) : result bool :=
  match match_ e with
  | Some b => Ok b
  | None => Raise KeyError
  end.

(** The main-process block for one configuration: the events it emits, in
    order, and the new [all_f1_scores] (or the exception that stopped it). *)
Definition report_config (save_dir config : string) (num : Z * Z)
    (gathered_data : list Example) (all_f1_scores : list spec_float)
  : list event * result (list spec_float) :=
  let data1 := filter (fun e => label e ≠ -1) gathered_data in
  let data2 := filter (fun e => label e = -1) gathered_data in
  let out :=
    (if bool_decide (Z.of_nat (length data1) ≠ num.1)
     then [PrintErrorMismatch config (length data1) num.1] else [])
    ++ (if bool_decide (Z.of_nat (length data2) ≠ num.2)
        then [PrintCorrectMismatch config (length data2) num.2] else [])
    ++ [WriteFile (save_dir +:+ "/" +:+ config +:+ "_error.jsonl") data1;
        WriteFile (save_dir +:+ "/" +:+ config +:+ "_correct.jsonl") data2] in
  match mapM get_match data1 with
  | Raise e => (out, Raise e)
  | Ok m1 =>
      let acc1 := accuracy m1 in
      match mapM get_match data2 with
      | Raise e => (out, Raise e)
      | Ok m2 =>
          let acc2 := accuracy m2 in
          let f1 := f1_score acc1 acc2 in
          (out ++ [PrintReport config acc1 acc2 f1],
           Ok (all_f1_scores ++ [f1]))
      end
  end.

(** ** The loop over the configurations and the final average *)

(** [np.mean(all_f1_scores)] on float64 values: numpy adds fewer than
    eight values one after the other, and the sum is divided by their
    number; no value gives 0/0. *)
Definition np_mean_floats (l : list spec_float) : spec_float :=
  fdiv (foldl fadd (S754_zero false) l) (float_of_Z (Z.of_nat (length l))).

(** The configurations of [main], in the order of the dictionary. *)
Definition configs : list (string * (Z * Z)) :=
  [("gsm8k", (207, 193)); ("math", (594, 406));
   ("olympiadbench", (661, 339)); ("omnimath", (759, 241))].

(** [for config, num in configs.items()] as the main process runs it.
    [gathered config] is what scoring and gathering the configuration
    deliver, or the exception they raise; an exception ends the loop. *)
Fixpoint report_configs (save_dir : string)
    (gathered : string -> result (list Example))
    (todo : list (string * (Z * Z))) (all_f1_scores : list spec_float)
  : list event * result (list spec_float) :=
  match todo with
  | [] => ([], Ok all_f1_scores)
  | (config, num) :: rest =>
      match gathered config with
      | Raise e => ([], Raise e)
      | Ok gathered_data =>
          let block :=
            report_config save_dir config num gathered_data all_f1_scores in
          match block.2 with
          | Raise e => (block.1, Raise e)
          | Ok all_f1_scores' =>
              let later :=
                report_configs save_dir gathered rest all_f1_scores' in
              (block.1 ++ later.1, later.2)
          end
      end
  end.

(** [main] on the main process: the events of all configurations and the
    average the last line prints. *)
Definition main_report (save_dir : string)
    (gathered : string -> result (list Example))
    (todo : list (string * (Z * Z))) : list event * result spec_float :=
  let run := report_configs save_dir gathered todo [] in
  match run.2 with
  | Ok all_f1_scores => (run.1, Ok (np_mean_floats all_f1_scores))
  | Raise e => (run.1, Raise e)
  end.

(** ** Fixtures for the executable examples *)

(** A byte-level tokenizer: one token per character. *)
Definition char_tokenizer (s : string) : list Z :=
  map (fun c => Z.of_nat (nat_of_ascii c)) (list_ascii_of_string s).

(** A classifier that calls a token incorrect when its id is even. *)
Definition parity_classify (ids : list (list Z)) (i c : nat) : Z :=
  match ids !! i with
  | Some row => match row !! c with
                | Some t => t mod 2
                | None => 1
                end
  | None => 1
  end.

Definition example_two_steps : Example :=
  mkExample "ab" ["x"; "yz"] 1 None None.

Definition example_no_steps : Example :=
  mkExample "abcdefgh" [] (-1) None None.

(** A byte-level tokenizer with one merge, as the vocabularies of
    GPT-style tokenizers have them: a full stop followed by a newline is a
    single token. *)
Definition merge_tokenizer (s : string) : list Z :=
  if String.eqb s ("." +:+ newline) then [624] else char_tokenizer s.

Definition example_full_stop : Example :=
  mkExample "." [] (-1) None None.

Definition store_two : gmap positive Example :=
  <[1%positive := example_two_steps]> (<[2%positive := example_no_steps]> ∅).

(** Two gathered rows whose predictions both miss the label. *)
Definition row_error_missed : Example :=
  mkExample "p" ["s"] 0 (Some (-1)) (Some false).

Definition row_correct_flagged : Example :=
  mkExample "q" ["s"] (-1) (Some 0) (Some false).

(** Two gathered rows whose predictions both meet the label. *)
Definition row_error_found : Example :=
  mkExample "p" ["s"] 0 (Some 0) (Some true).

Definition row_correct_passed : Example :=
  mkExample "q" ["s"] (-1) (Some (-1)) (Some true).

(** Four raw rows of a dataset, and what the processes of a run hold
    after their loops (the empty list for a process that raised). *)
Definition four_rows : list Example :=
  [mkExample "a" ["s"] (-1) None None; mkExample "b" ["s"] 0 None None;
   mkExample "c" ["s"] 0 None None; mkExample "d" ["s"] (-1) None None].

Definition three_rows : list Example := take 3 four_rows.

Definition completed (r : result (list Example)) : list Example :=
  match r with
  | Ok data => data
  | Raise _ => []
  end.

Definition world_of (dataset : list Example) (w : nat) (dtype : string)
  : list (list Example) :=
  map (fun r => completed (run_worker char_tokenizer 0 newline parity_classify
                             dataset (mkAccelerator w r dtype)))
    (seq 0 w).

(** What a process holds after its loop over the dataloader, as far as the
    gather is concerned: one row per sampled index, in order, each carrying
    the dataset's keys of that index. *)
Definition scored_shard (dataset : list Example) (accelerator : Accelerator)
    (data : list Example) : Prop :=
  map raw data
  = omap (fun i => raw <$> dataset !! i)
      (sampler accelerator (length dataset)).

(** ** Reference functions used in the statements *)

(** The index of the last token of each step when the steps contribute
    [lens] tokens to a row that already holds [base] tokens. *)
Fixpoint step_ends (base : nat) (lens : list nat) : list Z :=
  match lens with
  | [] => []
  | n :: lens' => (Z.of_nat (base + n) - 1) :: step_ends (base + n) lens'
  end.

(** The keys the dataset delivered hold the same values in both rows. *)
Definition same_row (e' e : Example) : Prop :=
  problem e' = problem e /\ steps e' = steps e /\ label e' = label e.

(** A step index, or the sentinel. *)
Definition step_index_or_sentinel (p : Z) (n : nat) : Prop :=
  p = -1 \/ 0 <= p < Z.of_nat n.

(** The row [e] carries a judgment for [score_id] and [label]: a
    prediction that is -1 or counts a score position, and its comparison
    with the label. *)
Definition judged (score_id : list Z) (lab : Z) (e : Example) : Prop :=
  exists p : Z,
    prediction e = Some p
    /\ step_index_or_sentinel p (length score_id)
    /\ match_ e = Some (p =? lab).

(** The row the scoring loop leaves for the example [e] when it predicts
    [p] (lines 135-136): the keys of [e], the prediction and its comparison
    with the label. *)
Definition scored (e : Example) (p : Z) : Example :=
  mkExample (problem e) (steps e) (label e) (Some p) (Some (p =? label e)).

(** Two events that differ at most in the order of the lines of a written
    file. *)
Definition alike (ev ev' : event) : Prop :=
  match ev, ev' with
  | WriteFile path lines, WriteFile path' lines' =>
      path = path' /\ lines ≡ₚ lines'
  | _, _ => ev = ev'
  end.

(** The memo of a running [deepcopy]: every copy is an object allocated
    after [s0] was taken, holds what its original holds, and belongs to one
    original only. *)
Definition memo_inv (s0 s : gmap positive Example)
    (memo : gmap positive positive) : Prop :=
  (forall x x', memo !! x = Some x' ->
     (x' ∉ dom s0) /\ (exists e, s !! x = Some e /\ s !! x' = Some e))
  /\ (forall x y x', memo !! x = Some x' -> memo !! y = Some x' -> x = y).

(** The invariant of the scoring loop before index [k]: objects outside
    [new_batch] are as in [s1]; the objects of [new_batch] keep the keys of
    the dataset; the rows written so far are judged. *)
Definition loop_inv (s1 : gmap positive Example) (new_batch : list positive)
    (all_score_ids : list (list Z)) (all_labels : list Z)
    (k : nat) (s : gmap positive Example) : Prop :=
  (forall l, l ∉ new_batch -> s !! l = s1 !! l)
  /\ (forall l e1, l ∈ new_batch -> s1 !! l = Some e1 ->
        exists e, s !! l = Some e /\ same_row e e1)
  /\ (forall j l, (j < k)%nat -> new_batch !! j = Some l ->
        exists e score_id lab,
          s !! l = Some e /\ all_score_ids !! j = Some score_id
          /\ all_labels !! j = Some lab /\ judged score_id lab e).

(** * Properties *)

(** ** The step judge *)

Lemma nonzero_from_head i mask :
  match nonzero_from i mask with
  | [] => Forall (fun b => b = false) mask
  | z :: _ =>
      exists k : nat, z = i + Z.of_nat k /\ mask !! k = Some true
                      /\ Forall (fun b => b = false) (take k mask)
  end.
Proof.
  revert i. induction mask as [|b mask IH]; intros i; simpl.
  - constructor.
  - destruct b.
    + exists O. split; [lia|]. split; [reflexivity|constructor].
    + specialize (IH (i + 1)).
      destruct (nonzero_from (i + 1) mask) as [|z zs].
      * constructor; [reflexivity|exact IH].
      * destruct IH as (k & Hz & Hk & Hpre).
        exists (S k). split; [lia|]. split; [exact Hk|].
        simpl. constructor; [reflexivity|exact Hpre].
  Qed.

(** Every outcome of the scan: no zero at all and the sentinel, or the
    index of a zero that no zero precedes. *)
Lemma find_first_zero_cases (tensor : list Z) :
  (find_first_zero tensor = -1 /\ Forall (fun x => x <> 0) tensor)
  \/ (exists k : nat,
         find_first_zero tensor = Z.of_nat k
         /\ tensor !! k = Some 0
         /\ Forall (fun x => x <> 0) (take k tensor)).
Proof.
  unfold find_first_zero, nonzero.
  pose proof (nonzero_from_head 0 (eq_zero tensor)) as H.
  destruct (nonzero_from 0 (eq_zero tensor)) as [|z zs].
  - left. split; [reflexivity|].
    unfold eq_zero in H. rewrite Forall_fmap in H.
    eapply Forall_impl; [exact H|]. intros x Hx. simpl in Hx. lia.
  - right. destruct H as (k & Hz & Hk & Hpre). exists k.
    split; [lia|]. unfold eq_zero in Hk, Hpre.
    rewrite list_lookup_fmap in Hk.
    destruct (tensor !! k) as [x|] eqn:Hx; [|discriminate].
    simpl in Hk. split.
    + f_equal. injection Hk as Hk. lia.
    + rewrite <- fmap_take, Forall_fmap in Hpre.
      eapply Forall_impl; [exact Hpre|]. intros y Hy. simpl in Hy. lia.
Qed.

(** C3. [find_first_zero] returns the index of the first class id equal to
    0 (a zero that no zero precedes) and -1 when no class id is 0; on
    [1,1,0,0] it returns 2. *)
Theorem find_first_zero_first_match :
  (forall tensor : list Z,
      (find_first_zero tensor = -1 /\ Forall (fun x => x <> 0) tensor)
      \/ (exists k : nat,
             find_first_zero tensor = Z.of_nat k
             /\ tensor !! k = Some 0
             /\ Forall (fun x => x <> 0) (take k tensor)))
  /\ find_first_zero [1; 1; 0; 0] = 2.
Proof.
  split.
  - exact find_first_zero_cases.
  - reflexivity.
Qed.

(** ** The encoder *)

Section EncoderFacts.
Variable tokenizer : string -> list Z.

Let step_tokens (j : string) : list Z := tokenizer (j +:+ newline).

Lemma foldl_encode_step (sts : list string) (input_idx score : list Z) :
  foldl (encode_step tokenizer) (input_idx, score) sts
  = (input_idx ++ concat (map step_tokens sts),
     score ++ step_ends (length input_idx)
                (map (fun j => length (step_tokens j)) sts)).
Proof.
  revert input_idx score.
  induction sts as [|j sts IH]; intros input_idx score; simpl.
  - now rewrite !app_nil_r.
  - rewrite IH. rewrite length_app. fold (step_tokens j).
    now rewrite <- !app_assoc.
Qed.

Lemma encode_unfold (separator : string) (i : Example) :
  encode tokenizer separator i
  = (tokenizer (problem i +:+ separator) ++ concat (map step_tokens (steps i)),
     step_ends (length (tokenizer (problem i +:+ separator)))
       (map (fun j => length (step_tokens j)) (steps i))).
Proof. unfold encode. now rewrite foldl_encode_step. Qed.
End EncoderFacts.

Lemma step_ends_length base lens : length (step_ends base lens) = length lens.
Proof.
  revert base. induction lens as [|n lens IH]; intros base; simpl;
    [reflexivity | now rewrite IH].
Qed.

Lemma step_ends_lookup base lens k n :
  lens !! k = Some n ->
  step_ends base lens !! k
  = Some (Z.of_nat (base + sum_list (take (S k) lens)) - 1).
Proof.
  revert base k. induction lens as [|m lens IH]; intros base k Hk.
  - discriminate.
  - destruct k as [|k]; simpl in *.
    + injection Hk as ->. do 2 f_equal. rewrite ?take_0. simpl. lia.
    + rewrite (IH (base + m)%nat k Hk). do 2 f_equal. simpl. lia.
Qed.

Lemma step_ends_lower_bound base lens :
  Forall (fun p => Z.of_nat base - 1 <= p) (step_ends base lens).
Proof.
  revert base. induction lens as [|n lens IH]; intros base; simpl.
  - constructor.
  - constructor; [lia|].
    eapply Forall_impl; [apply IH|]. intros p Hp. simpl in Hp. lia.
Qed.

Lemma step_ends_upper_bound base lens :
  Forall (fun p => p < Z.of_nat (base + sum_list lens)) (step_ends base lens).
Proof.
  revert base. induction lens as [|n lens IH]; intros base; simpl.
  - constructor.
  - constructor; [lia|].
    eapply Forall_impl; [apply IH|]. intros p Hp. simpl in Hp. lia.
Qed.

Lemma step_ends_nonneg base lens :
  Forall (fun n => (1 <= n)%nat) lens ->
  Forall (fun p => Z.of_nat base <= p) (step_ends base lens).
Proof.
  intros H. revert base. induction H as [|n lens Hn _ IH]; intros base; simpl.
  - constructor.
  - constructor; [lia|].
    eapply Forall_impl; [apply IH|]. intros p Hp. simpl in Hp. lia.
Qed.

Lemma step_ends_sorted base lens :
  Forall (fun n => (1 <= n)%nat) lens ->
  StronglySorted Z.lt (step_ends base lens).
Proof.
  intros H. revert base.
  induction H as [|n lens Hn Hlens IH]; intros base; simpl.
  - constructor.
  - constructor; [apply IH|].
    eapply Forall_impl; [apply (step_ends_nonneg _ _ Hlens)|].
    intros p Hp. simpl in Hp. lia.
Qed.

Lemma length_concat_sum {A} (ls : list (list A)) :
  length (concat ls) = sum_list (map (fun l => length l) ls).
Proof.
  induction ls as [|l ls IH]; simpl; [reflexivity|].
  now rewrite length_app, IH.
Qed.

Lemma concat_take_drop {A} (ls : list (list A)) n :
  concat ls = concat (take n ls) ++ concat (drop n ls).
Proof. now rewrite <- concat_app, take_drop. Qed.

(** C1. The encoder tokenizes [problem + separator] and then appends the
    tokens of [step + newline] for every step in order; provided every
    step contributes at least one token, there is one score position per
    step, the positions increase strictly, and the position of a step is
    the index of the last token that step contributed. *)
Theorem encode_score_positions (tokenizer : string -> list Z)
    (separator : string) (i : Example) :
  Forall (fun j => tokenizer (j +:+ newline) <> []) (steps i) ->
  let prompt := tokenizer (problem i +:+ separator) in
  let step_tokens := fun j => tokenizer (j +:+ newline) in
  let input_idx := (encode tokenizer separator i).1 in
  let score := (encode tokenizer separator i).2 in
  input_idx = prompt ++ concat (map step_tokens (steps i))
  /\ length score = length (steps i)
  /\ StronglySorted Z.lt score
  /\ forall (k : nat) (j : string),
       steps i !! k = Some j ->
       exists p : nat,
         score !! k = Some (Z.of_nat p)
         /\ take (S p) input_idx
            = prompt ++ concat (map step_tokens (take (S k) (steps i)))
         /\ input_idx !! p = last (step_tokens j).
Proof.
  intros Hne prompt step_tokens input_idx score.
  subst input_idx score. rewrite encode_unfold. simpl.
  fold prompt. fold step_tokens.
  set (lens := map (fun j => length (step_tokens j)) (steps i)).
  assert (Hlens : Forall (fun n => (1 <= n)%nat) lens).
  { subst lens. rewrite Forall_fmap. eapply Forall_impl; [exact Hne|].
    intros j Hj. simpl. fold (step_tokens j).
    destruct (step_tokens j) eqn:E; [now elim Hj|simpl; lia]. }
  split; [reflexivity|]. split.
  { rewrite step_ends_length. subst lens. now rewrite length_map. }
  split; [now apply step_ends_sorted|].
  intros k j Hk.
  assert (Hlk : lens !! k = Some (length (step_tokens j))).
  { subst lens. rewrite list_lookup_fmap, Hk. reflexivity. }
  assert (Hj : (1 <= length (step_tokens j))%nat).
  { rewrite Forall_forall in Hlens. apply Hlens.
    eapply list_elem_of_lookup_2. exact Hlk. }
  pose proof (take_S_r _ _ _ Hk) as Htk.
  pose proof (take_S_r _ _ _ Hlk) as Htl.
  set (pre := prompt ++ concat (map step_tokens (take k (steps i)))).
  assert (Hsum : sum_list (take (S k) lens)
                 = (length (concat (map step_tokens (take k (steps i))))
                    + length (step_tokens j))%nat).
  { rewrite Htl, sum_list_with_app. simpl. rewrite length_concat_sum.
    subst lens. rewrite <- fmap_take, map_map, Nat.add_0_r. reflexivity. }
  exists (length pre + length (step_tokens j) - 1)%nat.
  assert (Hsplit : prompt ++ concat (map step_tokens (steps i))
                   = (pre ++ step_tokens j)
                     ++ concat (map step_tokens (drop (S k) (steps i)))).
  { rewrite (concat_take_drop (map step_tokens (steps i)) (S k)).
    rewrite <- !fmap_take, <- !fmap_drop. rewrite Htk.
    rewrite fmap_app, concat_app. simpl. rewrite app_nil_r.
    subst pre. now rewrite <- !app_assoc. }
  split; [|split].
  - rewrite (step_ends_lookup _ _ _ _ Hlk). f_equal. rewrite Hsum.
    subst pre. rewrite length_app. lia.
  - rewrite Hsplit. rewrite take_app_length'.
    + rewrite Htk, fmap_app, concat_app. simpl. rewrite app_nil_r.
      subst pre. now rewrite <- app_assoc.
    + rewrite length_app. lia.
  - rewrite Hsplit. rewrite lookup_app_l by (rewrite length_app; lia).
    rewrite lookup_app_r by lia. rewrite last_lookup. f_equal. lia.
Qed.

Lemma encode_score_positions_witness :
  Forall (fun j => char_tokenizer (j +:+ newline) <> [])
    (steps example_two_steps)
  /\ (encode char_tokenizer newline example_two_steps).2 = [4; 7]
  /\ StronglySorted Z.lt (encode char_tokenizer newline example_two_steps).2.
Proof.
  assert (H : Forall (fun j => char_tokenizer (j +:+ newline) <> [])
                (steps example_two_steps)).
  { repeat constructor; discriminate. }
  split; [exact H|]. split; [reflexivity|].
  exact (proj1 (proj2 (proj2
    (encode_score_positions char_tokenizer newline example_two_steps H)))).
Defined.

(** ** The error monad *)

Lemma bind_ok_inv {A B} (r : result A) (k : A -> result B) (b : B) :
  bind r k = Ok b -> exists a, r = Ok a /\ k a = Ok b.
Proof. destruct r as [a|e]; simpl; [eauto | discriminate]. Qed.

Ltac inv_bind H :=
  let a := fresh "a" in
  let Ha := fresh "Ha" in
  apply bind_ok_inv in H; destruct H as (a & Ha & H).

Lemma mapM_ok_inv {A B} (f : A -> result B) (l : list A) (ys : list B) :
  mapM f l = Ok ys -> Forall2 (fun x y => f x = Ok y) l ys.
Proof.
  revert ys. induction l as [|x l IH]; intros ys H; simpl in H.
  - injection H as <-. constructor.
  - inv_bind H. inv_bind H. injection H as <-.
    constructor; [assumption | now apply IH].
Qed.

(** ** The packer *)

Lemma py_max_inv (lens : list nat) (m : nat) :
  py_max lens = Ok m ->
  m ∈ lens /\ Forall (fun n => (n <= m)%nat) lens.
Proof.
  destruct lens as [|n lens]; simpl; [discriminate|].
  intros H. injection H as <-. revert n.
  induction lens as [|k lens IH]; intros n; simpl.
  - split; [left | repeat constructor].
  - destruct (IH (Nat.max n k)) as [Hin Hall].
    apply Forall_cons in Hall as [Hhd Hall]. split.
    + apply elem_of_cons in Hin as [Heq|Hin].
      * rewrite Heq. destruct (Nat.max_spec n k) as [[_ ->]|[_ ->]].
        -- right; left.
        -- left.
      * right; right. exact Hin.
    + constructor; [lia|]. constructor; [lia | exact Hall].
Qed.

Lemma pad_row_inv (pad_token_id : Z) (max_len : nat) (row padded : list Z) :
  pad_row pad_token_id max_len row = Ok padded ->
  length row <> 1%nat
  /\ padded = row ++ replicate (max_len - length row) pad_token_id.
Proof.
  unfold pad_row, squeeze, cat.
  destruct row as [|v [|w row]]; simpl; intros H; try discriminate;
    injection H as <-; split; (lia || reflexivity).
Qed.

Lemma pad_row_ok (pad_token_id : Z) (max_len : nat) (row : list Z) :
  length row <> 1%nat ->
  pad_row pad_token_id max_len row
  = Ok (row ++ replicate (max_len - length row) pad_token_id).
Proof.
  unfold pad_row, squeeze, cat.
  destruct row as [|v [|w row]]; simpl; intros H; (reflexivity || lia).
Qed.

Lemma pad_row_single_token (pad_token_id : Z) (max_len : nat) (v : Z) :
  pad_row pad_token_id max_len [v] = Raise RuntimeError.
Proof. reflexivity. Qed.

Lemma mapM_pad_rows (pad_token_id : Z) (max_len : nat) (rows : list (list Z)) :
  Forall (fun r => length r <> 1%nat) rows ->
  mapM (pad_row pad_token_id max_len) rows
  = Ok (map (fun r => r ++ replicate (max_len - length r) pad_token_id) rows).
Proof.
  induction 1 as [|r rows Hr _ IH]; simpl; [reflexivity|].
  now rewrite (pad_row_ok _ _ _ Hr), IH.
Qed.

Section PackerFacts.
Variable tokenizer : string -> list Z.
Variable pad_token_id : Z.
Variable separator : string.

Let row (e : Example) : list Z := (encode tokenizer separator e).1.
Let positions (e : Example) : list Z := (encode tokenizer separator e).2.

(** Every recorded position lies in the row it was recorded for, or is
    -1 when the row was still empty. *)
Lemma encode_positions_in_row (e : Example) :
  Forall (fun p => -1 <= p < Z.of_nat (length (row e))) (positions e).
Proof.
  subst row positions. simpl. rewrite encode_unfold. simpl.
  rewrite length_app, length_concat_sum, map_map.
  set (base := length (tokenizer (problem e +:+ separator))).
  set (lens := map _ (steps e)).
  pose proof (step_ends_lower_bound base lens) as Hlo.
  pose proof (step_ends_upper_bound base lens) as Hhi.
  rewrite Forall_forall in Hlo, Hhi. apply Forall_forall.
  intros p Hp. specialize (Hlo p Hp). specialize (Hhi p Hp). simpl in *. lia.
Qed.

Lemma encode_positions_length (e : Example) :
  length (positions e) = length (steps e).
Proof.
  subst positions. simpl. rewrite encode_unfold. simpl.
  now rewrite step_ends_length, length_map.
Qed.

(** What a successful call returns. *)
Lemma collate_fn_inv (batch : list Example) (b : Batch) :
  collate_fn tokenizer pad_token_id batch separator = Ok b ->
  exists max_len : nat,
    max_len ∈ map (fun e => length (row e)) batch
    /\ Forall (fun e => (length (row e) <= max_len)%nat
                        /\ length (row e) <> 1%nat) batch
    /\ input_ids b
       = map (fun e => row e
                       ++ replicate (max_len - length (row e)) pad_token_id)
           batch
    /\ labels b = map label batch
    /\ score_ids b = map positions batch.
Proof.
  unfold collate_fn. intros H.
  apply bind_ok_inv in H as (max_len & Hmax & H).
  apply bind_ok_inv in H as (rows & Hrows & H).
  injection H as <-. simpl.
  apply py_max_inv in Hmax as [Hin Hall].
  repeat rewrite map_map in Hin. repeat rewrite map_map in Hall.
  repeat rewrite map_map in Hrows.
  apply mapM_ok_inv in Hrows.
  exists max_len. split; [exact Hin|].
  rewrite Forall_fmap in Hall. rewrite map_map.
  split; [|split; [|split; reflexivity]].
  - clear Hin. revert rows Hrows.
    induction Hall as [|e batch He _ IH]; intros rows Hrows; [constructor|].
    simpl in Hrows. apply Forall2_cons_inv_l in Hrows
      as (r & rows' & Hr & Hrows' & ->).
    apply pad_row_inv in Hr as [Hr _].
    constructor; [split; [exact He | exact Hr] | eapply IH; exact Hrows'].
  - clear Hin Hall. revert rows Hrows.
    induction batch as [|e batch IH]; intros rows Hrows; simpl in Hrows.
    + apply Forall2_nil_inv_l in Hrows. now subst.
    + apply Forall2_cons_inv_l in Hrows as (r & rows' & Hr & Hrows' & ->).
      apply pad_row_inv in Hr as [_ ->]. simpl. f_equal. now apply IH.
Qed.

(** When a call succeeds. *)
Lemma collate_fn_ok (batch : list Example) :
  batch <> [] ->
  Forall (fun e => length (row e) <> 1%nat) batch ->
  is_ok (collate_fn tokenizer pad_token_id batch separator).
Proof.
  intros Hne Hall. unfold collate_fn.
  destruct batch as [|e0 batch]; [now elim Hne|].
  cbn [map py_max bind].
  rewrite mapM_pad_rows; [exact I|].
  change (Forall (fun r : list Z => length r <> 1%nat)
            (map fst (map (encode tokenizer separator) (e0 :: batch)))).
  rewrite map_map, Forall_fmap. exact Hall.
Qed.
End PackerFacts.

Lemma pad_row_cases (pad_token_id : Z) (max_len : nat) (r : list Z) :
  (length r = 1%nat /\ pad_row pad_token_id max_len r = Raise RuntimeError)
  \/ (length r <> 1%nat
      /\ pad_row pad_token_id max_len r
         = Ok (r ++ replicate (max_len - length r) pad_token_id)).
Proof.
  destruct (decide (length r = 1%nat)) as [H|H].
  - left. split; [exact H|].
    destruct r as [|v [|w r]]; simpl in H; try lia. reflexivity.
  - right. split; [exact H | now apply pad_row_ok].
Qed.

Lemma mapM_pad_rows_raise (pad_token_id : Z) (max_len : nat)
    (rows : list (list Z)) :
  Exists (fun r => length r = 1%nat) rows ->
  mapM (pad_row pad_token_id max_len) rows = Raise RuntimeError.
Proof.
  induction rows as [|r rows IH]; intros H.
  - inversion H.
  - simpl.
    destruct (pad_row_cases pad_token_id max_len r) as [[_ ->]|[Hr ->]];
      [reflexivity|].
    apply Exists_cons in H as [H|H]; [contradiction|].
    simpl. now rewrite (IH H).
Qed.

(** What the packer returns when it returns: every row is right-padded
    with the pad token to the length of the longest row, labels and score
    positions pass through, and every non-negative score position is below
    that length and names the same token in the padded row as in the row
    before padding. *)
Lemma collate_fn_right_pads (tokenizer : string -> list Z) (pad_token_id : Z)
    (separator : string) (batch : list Example) (b : Batch) :
  collate_fn tokenizer pad_token_id batch separator = Ok b ->
  exists max_len : nat,
    max_len ∈ map (fun e => length (encode tokenizer separator e).1) batch
    /\ labels b = map label batch
    /\ score_ids b = map (fun e => (encode tokenizer separator e).2) batch
    /\ Forall2
         (fun e padded =>
            padded = (encode tokenizer separator e).1
                     ++ replicate (max_len
                                   - length (encode tokenizer separator e).1)
                          pad_token_id
            /\ length padded = max_len
            /\ Forall (fun p =>
                         p < Z.of_nat max_len
                         /\ (0 <= p ->
                             is_Some ((encode tokenizer separator e).1
                                        !! Z.to_nat p)
                             /\ padded !! Z.to_nat p
                                = (encode tokenizer separator e).1
                                    !! Z.to_nat p))
                 (encode tokenizer separator e).2)
         batch (input_ids b).
Proof.
  intros H. apply collate_fn_inv in H
    as (max_len & Hin & Hall & Hids & Hlabels & Hscore).
  exists max_len. split; [exact Hin|]. split; [exact Hlabels|].
  split; [exact Hscore|]. rewrite Hids. apply Forall2_fmap_r.
  apply Forall_Forall2_diag. eapply Forall_impl; [exact Hall|].
  intros e [Hle _]. simpl in Hle. split; [reflexivity|]. split.
  - rewrite length_app, length_replicate. lia.
  - pose proof (encode_positions_in_row tokenizer separator e) as Hpos.
    eapply Forall_impl; [exact Hpos|]. intros p Hp. simpl in Hp.
    split; [lia|]. intros Hp0.
    assert (Hlt : (Z.to_nat p < length (encode tokenizer separator e).1)%nat)
      by lia.
    split; [now apply lookup_lt_is_Some_2|].
    now rewrite lookup_app_l.
Qed.

(** C2, evaluated where the packer goes wrong.  A row of exactly one token
    (an example without steps whose problem and separator make one token)
    is squeezed to a zero-dimensional tensor, so the concatenation with its
    padding raises instead of padding the row: a batch that contains such a
    row is never packed. *)
Theorem collate_fn_single_token_raises (tokenizer : string -> list Z)
    (pad_token_id : Z) (separator : string) (batch : list Example)
    (e : Example) :
  e ∈ batch ->
  length (encode tokenizer separator e).1 = 1%nat ->
  collate_fn tokenizer pad_token_id batch separator = Raise RuntimeError.
Proof.
  intros Hin Hlen. unfold collate_fn.
  destruct batch as [|e0 batch]; [now apply elem_of_nil in Hin|].
  cbn [map py_max bind].
  rewrite mapM_pad_rows_raise; [reflexivity|].
  change (Exists (fun r : list Z => length r = 1%nat)
            (map fst (map (encode tokenizer separator) (e0 :: batch)))).
  rewrite map_map. apply Exists_exists. exists (encode tokenizer separator e).1.
  split; [|exact Hlen].
  apply list_elem_of_fmap. exists e. split; [reflexivity | exact Hin].
Qed.

Lemma collate_fn_single_token_raises_witness :
  example_full_stop ∈ [example_two_steps; example_full_stop]
  /\ (encode merge_tokenizer newline example_full_stop).1 = [624]
  /\ collate_fn merge_tokenizer 0 [example_two_steps; example_full_stop]
       newline
     = Raise RuntimeError
  /\ collate_fn merge_tokenizer 0 [example_full_stop] newline
     = Raise RuntimeError.
Proof.
  assert (Hin : example_full_stop ∈ [example_two_steps; example_full_stop])
    by (right; left).
  split; [exact Hin|]. split; [reflexivity|]. split; [|reflexivity].
  exact (collate_fn_single_token_raises merge_tokenizer 0 newline
           [example_two_steps; example_full_stop] example_full_stop Hin
           eq_refl).
Defined.

(** ** The object store: [deepcopy] *)

Lemma memo_inv_empty (s : gmap positive Example) : memo_inv s s ∅.
Proof. split; intros *; rewrite lookup_empty; discriminate. Qed.

Lemma memo_inv_insert (s0 s : gmap positive Example)
    (memo : gmap positive positive) (x : positive) (e : Example) :
  s0 ⊆ s -> memo_inv s0 s memo -> s !! x = Some e ->
  memo_inv s0 (<[fresh (dom s) := e]> s) (<[x := fresh (dom s)]> memo).
Proof.
  intros Hs0 [Hcopy Hinj] Hx.
  pose proof (is_fresh (dom s)) as Hfresh.
  set (x' := fresh (dom s)) in *.
  assert (Hxx' : x <> x').
  { intros ->. apply Hfresh. eapply elem_of_dom_2. exact Hx. }
  assert (Himg : forall y y', memo !! y = Some y' -> y <> x' /\ y' <> x').
  { intros y y' Hy. destruct (Hcopy _ _ Hy) as (_ & e0 & Hy1 & Hy2).
    split; intros ->; apply Hfresh; eapply elem_of_dom_2; eassumption. }
  split.
  - intros y y' Hy. destruct (decide (x = y)) as [<-|Hne].
    + rewrite lookup_insert_eq in Hy. injection Hy as <-. split.
      * intros Hin. apply Hfresh. revert Hin. apply subseteq_dom in Hs0.
        apply Hs0.
      * exists e. rewrite lookup_insert_ne by (intros E; now symmetry in E).
        rewrite lookup_insert_eq. split; [exact Hx | reflexivity].
    + rewrite lookup_insert_ne in Hy by exact Hne.
      destruct (Hcopy _ _ Hy) as (Hnot & e0 & Hy1 & Hy2).
      destruct (Himg _ _ Hy) as [Hyx Hy'x].
      split; [exact Hnot|]. exists e0.
      rewrite !lookup_insert_ne by (intros E; now symmetry in E).
      split; assumption.
  - intros y1 y2 z H1 H2.
    destruct (decide (x = y1)) as [<-|Hne1];
      destruct (decide (x = y2)) as [<-|Hne2]; [reflexivity| | |].
    + rewrite lookup_insert_eq in H1. injection H1 as <-.
      rewrite lookup_insert_ne in H2 by exact Hne2.
      now destruct (Himg _ _ H2).
    + rewrite lookup_insert_eq in H2. injection H2 as <-.
      rewrite lookup_insert_ne in H1 by exact Hne1.
      now destruct (Himg _ _ H1).
    + rewrite lookup_insert_ne in H1 by exact Hne1.
      rewrite lookup_insert_ne in H2 by exact Hne2.
      eapply Hinj; eassumption.
Qed.

Lemma memo_inv_weaken (s0 s s' : gmap positive Example)
    (memo : gmap positive positive) :
  s ⊆ s' -> memo_inv s0 s memo -> memo_inv s0 s' memo.
Proof.
  intros Hsub [Hcopy Hinj]. split; [|exact Hinj].
  intros x x' Hx. destruct (Hcopy _ _ Hx) as (Hnot & e & H1 & H2).
  split; [exact Hnot|]. exists e.
  split; eapply lookup_weaken; eassumption.
Qed.

Lemma deepcopy_from_spec (s0 : gmap positive Example) (l : list positive) :
  forall (memo : gmap positive positive) (s s' : gmap positive Example)
         (c : list positive),
    deepcopy_from memo s l = Ok (s', c) ->
    s0 ⊆ s -> memo_inv s0 s memo ->
    exists memo',
      memo ⊆ memo' /\ s ⊆ s' /\ memo_inv s0 s' memo'
      /\ Forall2 (fun x x' => memo' !! x = Some x') l c.
Proof.
  induction l as [|x l IH]; intros memo s s' c H Hs0 Hinv; simpl in H.
  - injection H as <- <-. exists memo. split; [reflexivity|].
    split; [reflexivity|]. split; [exact Hinv | constructor].
  - destruct (memo !! x) as [x'|] eqn:Hm.
    + inv_bind H. destruct a as [s1 c1]. injection H as <- <-. simpl.
      destruct (IH _ _ _ _ Ha Hs0 Hinv) as (memo' & Hmemo & Hsub & Hinv' & Hall).
      exists memo'. split; [exact Hmemo|]. split; [exact Hsub|].
      split; [exact Hinv'|]. constructor; [|exact Hall].
      eapply lookup_weaken; eassumption.
    + inv_bind H. unfold deref in Ha.
      destruct (s !! x) as [e|] eqn:Hx; [|discriminate]. injection Ha as <-.
      inv_bind H. destruct a as [s1 c1]. injection H as <- <-. simpl.
      pose proof (is_fresh (dom s)) as Hfresh.
      assert (Hnone : s !! fresh (dom s) = None)
        by now apply not_elem_of_dom_1.
      assert (Hs : s ⊆ <[fresh (dom s) := e]> s) by now apply insert_subseteq.
      destruct (IH _ _ _ _ Ha) as (memo' & Hmemo & Hsub & Hinv' & Hall).
      * etransitivity; eassumption.
      * now apply memo_inv_insert.
      * exists memo'. split.
        { etransitivity; [|exact Hmemo]. now apply insert_subseteq. }
        split; [etransitivity; eassumption|].
        split; [exact Hinv'|]. constructor; [|exact Hall].
        eapply lookup_weaken; [|exact Hmemo]. apply lookup_insert_eq.
Qed.

(** What [deepcopy] returns: the store only grows; the copies are new
    objects holding what their originals hold; two entries of the copy are
    the same object only if their originals are. *)
Lemma deepcopy_spec (s s' : gmap positive Example) (l c : list positive) :
  deepcopy s l = Ok (s', c) ->
  s ⊆ s'
  /\ Forall2 (fun x x' => (x' ∉ dom s)
                /\ exists e, s' !! x = Some e /\ s' !! x' = Some e) l c
  /\ (forall i j x', c !! i = Some x' -> c !! j = Some x' -> l !! i = l !! j).
Proof.
  unfold deepcopy. intros H.
  destruct (deepcopy_from_spec s l _ _ _ _ H) as (memo & _ & Hsub & Hinv & Hall);
    [reflexivity | apply memo_inv_empty |].
  destruct Hinv as [Hcopy Hinj].
  split; [exact Hsub|]. split.
  - eapply Forall2_impl; [exact Hall|]. intros x x' Hx. simpl in Hx.
    exact (Hcopy _ _ Hx).
  - intros i j x' Hi Hj.
    destruct (Forall2_lookup_r _ _ _ _ _ Hall Hi) as (xi & Hli & Hmi).
    destruct (Forall2_lookup_r _ _ _ _ _ Hall Hj) as (xj & Hlj & Hmj).
    rewrite Hli, Hlj. f_equal. eapply Hinj; eassumption.
Qed.

(** ** The scoring loop *)

Lemma find_first_zero_range (tensor : list Z) :
  step_index_or_sentinel (find_first_zero tensor) (length tensor).
Proof.
  destruct (find_first_zero_cases tensor) as [[-> _]|(k & -> & Hk & _)].
  - now left.
  - right. apply lookup_lt_Some in Hk. lia.
Qed.

Lemma same_row_refl (e : Example) : same_row e e.
Proof. now repeat split. Qed.

Lemma same_row_trans (e1 e2 e3 : Example) :
  same_row e1 e2 -> same_row e2 e3 -> same_row e1 e3.
Proof.
  intros (H1 & H2 & H3) (H4 & H5 & H6). repeat split; congruence.
Qed.

Section ScoringFacts.
Variable tokenizer : string -> list Z.
Variable pad_token_id : Z.
Variable separator : string.
Variable classify : list (list Z) -> nat -> nat -> Z.

Lemma argmax_at_length (ids : list (list Z)) (i : nat)
    (score_id pred : list Z) :
  argmax_at classify ids i score_id = Ok pred ->
  length pred = length score_id.
Proof.
  unfold argmax_at. intros H. apply bind_ok_inv in H as (row & _ & H).
  apply mapM_ok_inv in H. symmetry. eapply Forall2_length. exact H.
Qed.

Lemma score_example_inv (ids : list (list Z)) (labels : list Z)
    (new_batch : list positive) (s s' : gmap positive Example) (i : nat)
    (score_id : list Z) :
  score_example classify ids labels new_batch s i score_id = Ok s' ->
  exists (lab : Z) (pred : list Z) (l : positive) (e : Example),
    labels !! i = Some lab
    /\ argmax_at classify ids i score_id = Ok pred
    /\ new_batch !! i = Some l
    /\ s !! l = Some e
    /\ s' = <[l := set_match (find_first_zero pred =? lab)
                     (set_prediction (find_first_zero pred) e)]> s.
Proof.
  unfold score_example, getitem, setitem. intros H.
  destruct (labels !! i) as [lab|] eqn:Hlab; [|discriminate]. simpl in H.
  apply bind_ok_inv in H as (pred & Hpred & H).
  destruct (new_batch !! i) as [l|] eqn:Hl; [|discriminate]. simpl in H.
  destruct (s !! l) as [e|] eqn:He; [|discriminate]. simpl in H.
  rewrite lookup_insert_eq in H. injection H as <-.
  exists lab, pred, l, e. rewrite insert_insert_eq. repeat split; assumption.
Qed.

Lemma score_example_judged (score_id pred : list Z) (lab : Z) (e : Example) :
  length pred = length score_id ->
  judged score_id lab
    (set_match (find_first_zero pred =? lab)
       (set_prediction (find_first_zero pred) e)).
Proof.
  intros Hlen. exists (find_first_zero pred).
  split; [reflexivity|]. split; [|reflexivity].
  rewrite <- Hlen. apply find_first_zero_range.
Qed.

Lemma score_loop_spec (s1 : gmap positive Example) (ids : list (list Z))
    (labels : list Z) (new_batch : list positive)
    (all_score_ids : list (list Z)) :
  (forall j k l, new_batch !! j = Some l -> new_batch !! k = Some l ->
     all_score_ids !! j = all_score_ids !! k /\ labels !! j = labels !! k) ->
  forall (rest : list (list Z)) (i : nat) (s s' : gmap positive Example),
    score_loop classify ids labels new_batch s i rest = Ok s' ->
    drop i all_score_ids = rest ->
    loop_inv s1 new_batch all_score_ids labels i s ->
    loop_inv s1 new_batch all_score_ids labels (length all_score_ids) s'.
Proof.
  intros Halias rest.
  induction rest as [|score_id rest IH]; intros i s s' H Hdrop Hinv;
    simpl in H.
  - injection H as <-. destruct Hinv as (I1 & I2 & I3).
    split; [exact I1|]. split; [exact I2|].
    intros j l Hj Hl. apply I3; [|exact Hl].
    destruct (decide (j < i)%nat) as [Hlt|Hge]; [exact Hlt|].
    assert (Hnone : drop i all_score_ids !! (j - i)%nat = None)
      by now rewrite Hdrop.
    rewrite lookup_drop in Hnone. apply lookup_ge_None in Hnone. lia.
  - apply bind_ok_inv in H as (s2 & Hstep & H).
    apply (IH (S i) s2 s' H).
    + rewrite <- (Nat.add_1_r i), <- drop_drop, Hdrop. reflexivity.
    + apply score_example_inv in Hstep
        as (lab & pred & l & e & Hlab & Hpred & Hl & He & ->).
      assert (Hsid : all_score_ids !! i = Some score_id).
      { rewrite <- (Nat.add_0_r i), <- lookup_drop, Hdrop. reflexivity. }
      pose proof (argmax_at_length _ _ _ _ Hpred) as Hlen.
      destruct Hinv as (I1 & I2 & I3). split; [|split].
      * intros l0 Hl0. rewrite lookup_insert_ne; [now apply I1|].
        intros ->. apply Hl0. eapply list_elem_of_lookup_2. exact Hl.
      * intros l0 e1 Hl0 He1. destruct (decide (l = l0)) as [<-|Hne].
        -- rewrite lookup_insert_eq. eexists. split; [reflexivity|].
           destruct (I2 _ _ Hl0 He1) as (e' & He' & Hsame).
           rewrite He in He'. injection He' as <-.
           eapply same_row_trans; [|exact Hsame]. now repeat split.
        -- rewrite lookup_insert_ne by exact Hne. now apply I2.
      * intros j l0 Hj Hl0. destruct (decide (l = l0)) as [<-|Hne].
        -- rewrite lookup_insert_eq.
           destruct (Halias _ _ _ Hl0 Hl) as [Hs Hb].
           eexists _, score_id, lab. split; [reflexivity|].
           split; [now rewrite Hs|]. split; [now rewrite Hb|].
           now apply score_example_judged.
        -- rewrite lookup_insert_ne by exact Hne. apply I3; [|exact Hl0].
           destruct (decide (j = i)) as [->|Hji]; [|lia].
           rewrite Hl in Hl0. now injection Hl0.
Qed.
End ScoringFacts.

Lemma deref_rows_lookup (s : gmap positive Example) (l : list positive)
    (rows : list Example) :
  mapM (deref s) l = Ok rows ->
  forall (j : nat) (x : positive),
    l !! j = Some x -> exists e, s !! x = Some e /\ rows !! j = Some e.
Proof.
  intros H. apply mapM_ok_inv in H. intros j x Hj.
  destruct (Forall2_lookup_l _ _ _ _ _ H Hj) as (e & He & Hd).
  exists e. split; [|exact He].
  unfold deref in Hd. destruct (s !! x); [now injection Hd as -> | discriminate].
Qed.

Section BatchFacts.
Variable tokenizer : string -> list Z.
Variable pad_token_id : Z.
Variable separator : string.
Variable classify : list (list Z) -> nat -> nat -> Z.

(** What a processed batch leaves behind: [res_data] grows by the copy
    of the batch; every object that existed before is untouched; the
    copy of each raw example is a new object that keeps the raw keys
    and carries a judgment for the score positions of that example. *)
Lemma process_batch_spec (s s' : gmap positive Example)
    (res_data res_data' batch_ : list positive) :
  process_batch tokenizer pad_token_id separator classify s res_data batch_
  = Ok (s', res_data') ->
  exists new_batch : list positive,
    res_data' = res_data ++ new_batch
    /\ (forall l e, s !! l = Some e -> s' !! l = Some e)
    /\ Forall2
         (fun x x' =>
            (x' ∉ dom s)
            /\ forall e, s !! x = Some e ->
                 exists e', s' !! x' = Some e' /\ same_row e' e
                   /\ judged (encode tokenizer separator e).2 (label e) e')
         batch_ new_batch.
Proof.
  unfold process_batch. intros H.
  apply bind_ok_inv in H as ([s1 nb] & Hcopy & H). simpl in H.
  apply bind_ok_inv in H as (rows & Hrows & H).
  apply bind_ok_inv in H as (b & Hb & H).
  apply bind_ok_inv in H as (s2 & Hloop & H).
  injection H as <- <-.
  apply deepcopy_spec in Hcopy as (Hsub & Hnew & Halias).
  apply collate_fn_inv in Hb as (max_len & _ & _ & _ & Hlabels & Hscore).
  pose proof (deref_rows_lookup _ _ _ Hrows) as Hrow.
  assert (Hlen : length rows = length batch_).
  { apply mapM_ok_inv in Hrows. symmetry. eapply Forall2_length. exact Hrows. }
  assert (Hinv : loop_inv s1 nb (score_ids b) (labels b)
                   (length (score_ids b)) s2).
  { eapply score_loop_spec; [|exact Hloop|reflexivity|].
    - intros j k l Hj Hk. pose proof (Halias _ _ _ Hj Hk) as Hjk.
      destruct (Forall2_lookup_r _ _ _ _ _ Hnew Hj) as (xj & Hxj & _).
      destruct (Forall2_lookup_r _ _ _ _ _ Hnew Hk) as (xk & Hxk & _).
      rewrite Hxj, Hxk in Hjk. injection Hjk as <-.
      destruct (Hrow _ _ Hxj) as (ej & Hej & Hrj).
      destruct (Hrow _ _ Hxk) as (ek & Hek & Hrk).
      rewrite Hej in Hek. injection Hek as <-.
      rewrite Hscore, Hlabels, !list_lookup_fmap, Hrj, Hrk. now split.
    - split; [reflexivity|]. split.
      + intros l e1 _ He1. exists e1. split; [exact He1|apply same_row_refl].
      + intros j l Hj. lia. }
  destruct Hinv as (I1 & I2 & I3).
  exists nb. split; [reflexivity|]. split.
  - intros l e He. rewrite I1; [eapply lookup_weaken; eassumption|].
    intros Hin. apply list_elem_of_lookup in Hin as (j & Hj).
    destruct (Forall2_lookup_r _ _ _ _ _ Hnew Hj) as (x & _ & Hx & _).
    apply Hx. eapply elem_of_dom_2. exact He.
  - apply Forall2_same_length_lookup.
    split; [eapply Forall2_length; exact Hnew|].
    intros i x x' Hx Hx'.
    destruct (Forall2_lookup_lr _ _ _ _ _ _ Hnew Hx Hx')
      as (Hfresh & e0 & He0 & He0').
    split; [exact Hfresh|]. intros e He.
    assert (e0 = e) as ->.
    { pose proof (lookup_weaken _ _ _ _ He Hsub) as He1.
      rewrite He0 in He1. now injection He1. }
    destruct (Hrow _ _ Hx) as (er & Her & Hri).
    rewrite He0 in Her. injection Her as <-.
    destruct (I3 i x') as (e' & sid & lab & He' & Hsid & Hlab & Hj);
      [|exact Hx'|].
    { rewrite Hscore, length_map, Hlen. eapply lookup_lt_Some. exact Hx. }
    rewrite Hscore, list_lookup_fmap, Hri in Hsid. injection Hsid as <-.
    rewrite Hlabels, list_lookup_fmap, Hri in Hlab. injection Hlab as <-.
    exists e'. split; [exact He'|]. split; [|exact Hj].
    destruct (I2 x' e) as (e'' & He'' & Hsame);
      [eapply list_elem_of_lookup_2; exact Hx' | exact He0' |].
    rewrite He' in He''. now injection He'' as <-.
Qed.
End BatchFacts.

(** C9. The scoring loop writes only into the objects [deepcopy] created:
    after a batch is scored, every object that existed before holds exactly
    what it held, in particular every raw example of the batch under
    iteration; the rows appended to [res_data] are objects that did not
    exist before, one per example of the batch. *)
Theorem scoring_leaves_raw_batch_unchanged (tokenizer : string -> list Z)
    (pad_token_id : Z) (separator : string)
    (classify : list (list Z) -> nat -> nat -> Z)
    (s s' : gmap positive Example) (res_data res_data' batch_ : list positive) :
  process_batch tokenizer pad_token_id separator classify s res_data batch_
  = Ok (s', res_data') ->
  (forall l e, s !! l = Some e -> s' !! l = Some e)
  /\ (forall l e, l ∈ batch_ -> s !! l = Some e -> s' !! l = Some e)
  /\ exists new_batch : list positive,
       res_data' = res_data ++ new_batch
       /\ length new_batch = length batch_
       /\ Forall (fun x' => x' ∉ dom s) new_batch.
Proof.
  intros H.
  apply process_batch_spec in H as (nb & -> & Hframe & Hall).
  split; [exact Hframe|]. split; [intros l e _; apply Hframe|].
  exists nb. split; [reflexivity|].
  split; [symmetry; eapply Forall2_length; exact Hall|].
  apply Forall_forall. intros x' Hx'.
  apply list_elem_of_lookup in Hx' as (i & Hi).
  now destruct (Forall2_lookup_r _ _ _ _ _ Hall Hi) as (x & _ & Hx & _).
Qed.

Lemma scoring_leaves_raw_batch_unchanged_witness :
  exists s' res_data',
    process_batch char_tokenizer 0 newline parity_classify store_two []
      [1%positive; 2%positive] = Ok (s', res_data')
    /\ s' !! 1%positive = Some example_two_steps
    /\ s' !! 2%positive = Some example_no_steps.
Proof.
  destruct (process_batch char_tokenizer 0 newline parity_classify store_two []
              [1%positive; 2%positive]) as [[s' res_data']|err] eqn:H.
  - exists s', res_data'. split; [reflexivity|].
    destruct (scoring_leaves_raw_batch_unchanged _ _ _ _ _ _ _ _ _ H)
      as (Hframe & _).
    split; apply Hframe; reflexivity.
  - vm_compute in H. discriminate H.
Defined.

(** The judged copy of the [i]-th example of a batch. *)
Lemma process_batch_judged (tokenizer : string -> list Z)
    (pad_token_id : Z) (separator : string)
    (classify : list (list Z) -> nat -> nat -> Z)
    (s s' : gmap positive Example) (res_data res_data' batch_ : list positive)
    (i : nat) (x : positive) (e : Example) :
  process_batch tokenizer pad_token_id separator classify s res_data batch_
  = Ok (s', res_data') ->
  batch_ !! i = Some x ->
  s !! x = Some e ->
  exists (x' : positive) (e' : Example),
    res_data' !! (length res_data + i)%nat = Some x'
    /\ s' !! x' = Some e'
    /\ same_row e' e
    /\ judged (encode tokenizer separator e).2 (label e) e'.
Proof.
  intros H Hi He.
  apply process_batch_spec in H as (nb & -> & _ & Hall).
  destruct (Forall2_lookup_l _ _ _ _ _ Hall Hi) as (x' & Hx' & _ & Hj).
  destruct (Hj e He) as (e' & He' & Hsame & Hjudged).
  exists x', e'. split.
  - rewrite lookup_app_r by lia.
    now replace (length res_data + i - length res_data)%nat with i by lia.
  - split; [exact He'|]. split; [exact Hsame | exact Hjudged].
Qed.

(** C4. An example without steps gets no score position; the pass of the
    scoring loop for it raises nothing and stores [prediction = -1] with
    the match against its label, whatever the model returns and whatever
    the label is; so in every scored batch the row stored for it has
    [prediction = -1]. *)
Theorem empty_steps_predict_no_error (tokenizer : string -> list Z)
    (pad_token_id : Z) (separator : string)
    (classify : list (list Z) -> nat -> nat -> Z) (e : Example) :
  steps e = [] ->
  (encode tokenizer separator e).2 = []
  /\ (forall (ids : list (list Z)) (labels : list Z)
             (new_batch : list positive) (s : gmap positive Example)
             (i : nat) (row : list Z) (lab : Z) (l : positive)
             (e0 : Example),
        ids !! i = Some row ->
        labels !! i = Some lab ->
        new_batch !! i = Some l ->
        s !! l = Some e0 ->
        score_example classify ids labels new_batch s i
          (encode tokenizer separator e).2
        = Ok (<[l := set_match (-1 =? lab) (set_prediction (-1) e0)]> s))
  /\ (forall (s s' : gmap positive Example)
             (res_data res_data' batch_ : list positive)
             (i : nat) (x : positive),
        process_batch tokenizer pad_token_id separator classify s res_data
          batch_ = Ok (s', res_data') ->
        batch_ !! i = Some x ->
        s !! x = Some e ->
        exists (x' : positive) (e' : Example),
          res_data' !! (length res_data + i)%nat = Some x'
          /\ s' !! x' = Some e'
          /\ prediction e' = Some (-1)
          /\ match_ e' = Some (-1 =? label e)).
Proof.
  intros Hsteps.
  assert (Hpos : (encode tokenizer separator e).2 = []).
  { rewrite encode_unfold. simpl. now rewrite Hsteps. }
  split; [exact Hpos|]. split.
  - intros ids labels new_batch s i row lab l e0 Hrow Hlab Hl He0.
    rewrite Hpos.
    unfold score_example, argmax_at, getitem, setitem.
    rewrite Hrow, Hlab, Hl. simpl.
    rewrite He0. simpl. rewrite lookup_insert_eq. simpl.
    now rewrite insert_insert_eq.
  - intros s s' res_data res_data' batch_ i x H Hi He.
    destruct (process_batch_judged _ _ _ _ _ _ _ _ _ _ _ _ H Hi He)
      as (x' & e' & Hx' & He' & _ & p & Hp & Hrange & Hm).
    rewrite Hpos in Hrange. simpl in Hrange.
    assert (p = -1) as -> by (destruct Hrange; lia).
    exists x', e'. repeat split; assumption.
Qed.

Lemma empty_steps_predict_no_error_witness :
  steps example_no_steps = []
  /\ exists s' res_data',
       process_batch char_tokenizer 0 newline parity_classify store_two []
         [1%positive; 2%positive] = Ok (s', res_data')
       /\ exists x' e',
            res_data' !! 1%nat = Some x' /\ s' !! x' = Some e'
            /\ prediction e' = Some (-1) /\ match_ e' = Some true.
Proof.
  split; [reflexivity|].
  destruct (process_batch char_tokenizer 0 newline parity_classify store_two []
              [1%positive; 2%positive]) as [[s' res_data']|err] eqn:H.
  - exists s', res_data'. split; [reflexivity|].
    destruct (empty_steps_predict_no_error char_tokenizer 0 newline
                parity_classify example_no_steps eq_refl)
      as (_ & _ & Hrun).
    destruct (Hrun _ _ _ _ _ 1%nat 2%positive H eq_refl eq_refl)
      as (x' & e' & Hx' & He' & Hp & Hm).
    exists x', e'. repeat split; assumption.
  - vm_compute in H. discriminate H.
Defined.

(** C10. The stored [prediction] of a processed example is -1 or a valid
    step index: [find_first_zero] on a tensor of length [n] returns -1 or
    an index below [n], the prediction tensor has one entry per score
    position, and there is one score position per step. *)
Theorem prediction_is_step_index_or_sentinel (tokenizer : string -> list Z)
    (pad_token_id : Z) (separator : string)
    (classify : list (list Z) -> nat -> nat -> Z)
    (s s' : gmap positive Example) (res_data res_data' batch_ : list positive)
    (i : nat) (x : positive) (e : Example) :
  process_batch tokenizer pad_token_id separator classify s res_data batch_
  = Ok (s', res_data') ->
  batch_ !! i = Some x ->
  s !! x = Some e ->
  (forall tensor : list Z,
      find_first_zero tensor = -1
      \/ 0 <= find_first_zero tensor < Z.of_nat (length tensor))
  /\ (forall (ids : list (list Z)) (k : nat) (pred : list Z),
        argmax_at classify ids k (encode tokenizer separator e).2 = Ok pred ->
        length pred = length (steps e))
  /\ exists (x' : positive) (e' : Example) (p : Z),
       res_data' !! (length res_data + i)%nat = Some x'
       /\ s' !! x' = Some e'
       /\ steps e' = steps e
       /\ prediction e' = Some p
       /\ (p = -1 \/ 0 <= p < Z.of_nat (length (steps e'))).
Proof.
  intros H Hi He.
  pose proof (encode_positions_length tokenizer separator e) as Hlen.
  simpl in Hlen.
  split; [exact find_first_zero_range|]. split.
  - intros ids k pred Hpred. apply argmax_at_length in Hpred. congruence.
  - destruct (process_batch_judged _ _ _ _ _ _ _ _ _ _ _ _ H Hi He)
      as (x' & e' & Hx' & He' & (_ & Hsteps & _) & p & Hp & Hrange & _).
    exists x', e', p. rewrite Hsteps.
    rewrite Hlen in Hrange. repeat split; assumption.
Qed.

Lemma prediction_is_step_index_or_sentinel_witness :
  exists s' res_data',
    process_batch char_tokenizer 0 newline parity_classify store_two []
      [1%positive; 2%positive] = Ok (s', res_data')
    /\ exists x' e' p,
         res_data' !! 0%nat = Some x' /\ s' !! x' = Some e'
         /\ prediction e' = Some p /\ (p = -1 \/ 0 <= p < 2).
Proof.
  destruct (process_batch char_tokenizer 0 newline parity_classify store_two []
              [1%positive; 2%positive]) as [[s' res_data']|err] eqn:H.
  - exists s', res_data'. split; [reflexivity|].
    destruct (prediction_is_step_index_or_sentinel _ _ _ _ _ _ _ _ _
                0%nat 1%positive example_two_steps H eq_refl eq_refl)
      as (_ & _ & x' & e' & p & Hx' & He' & Hsteps & Hp & Hrange).
    exists x', e', p. rewrite Hsteps in Hrange.
    repeat split; assumption.
  - vm_compute in H. discriminate H.
Defined.

(** ** When a batch is scored without an exception *)

Lemma mapM_is_ok {A B} (f : A -> result B) (l : list A) :
  Forall (fun x => is_ok (f x)) l -> is_ok (mapM f l).
Proof.
  induction 1 as [|x l Hx _ IH]; simpl; [exact I|].
  destruct (f x); [|contradiction]. simpl.
  destruct (mapM f l); [exact I | contradiction].
Qed.

Lemma is_ok_inv {A} (r : result A) : is_ok r -> exists a, r = Ok a.
Proof. destruct r; [eauto | contradiction]. Qed.

Lemma deepcopy_from_ok (l : list positive) :
  forall (memo : gmap positive positive) (s : gmap positive Example),
    Forall (fun x => is_Some (s !! x)) l -> is_ok (deepcopy_from memo s l).
Proof.
  induction l as [|x l IH]; intros memo s Hall; simpl; [exact I|].
  apply Forall_cons in Hall as [[e Hx] Hall].
  destruct (memo !! x) as [x'|].
  - destruct (is_ok_inv _ (IH memo s Hall)) as (r & ->). exact I.
  - unfold deref. rewrite Hx. simpl.
    set (x' := fresh (dom s)).
    assert (Hall' : Forall (fun y => is_Some (<[x' := e]> s !! y)) l).
    { eapply Forall_impl; [exact Hall|]. intros y [ey Hy]. simpl.
      destruct (decide (x' = y)) as [<-|Hne].
      - rewrite lookup_insert_eq. eauto.
      - rewrite lookup_insert_ne by exact Hne. eauto. }
    destruct (is_ok_inv _ (IH (<[x := x']> memo) _ Hall')) as (r & ->).
    exact I.
Qed.

Lemma py_index_ok (n : nat) (p : Z) :
  - Z.of_nat n <= p < Z.of_nat n -> is_ok (py_index n p).
Proof.
  intros Hp. unfold py_index.
  destruct (Z.leb_spec 0 p); destruct (Z.ltb_spec p (Z.of_nat n)); simpl;
    try exact I; try lia.
  destruct (Z.leb_spec (- Z.of_nat n) p); destruct (Z.ltb_spec p 0); simpl;
    try exact I; lia.
Qed.

Section TotalityFacts.
Variable classify : list (list Z) -> nat -> nat -> Z.

Lemma argmax_at_ok (ids : list (list Z)) (i : nat) (row : list Z)
    (score_id : list Z) :
  ids !! i = Some row ->
  Forall (fun p => - Z.of_nat (length row) <= p < Z.of_nat (length row))
    score_id ->
  is_ok (argmax_at classify ids i score_id).
Proof.
  intros Hrow Hall. unfold argmax_at, getitem. rewrite Hrow. simpl.
  apply mapM_is_ok. eapply Forall_impl; [exact Hall|].
  intros p Hp. simpl in Hp.
  destruct (is_ok_inv _ (py_index_ok _ _ Hp)) as (c & ->). exact I.
Qed.

Lemma score_loop_ok (ids : list (list Z)) (labels : list Z)
    (new_batch : list positive) :
  forall (rest : list (list Z)) (i : nat) (s : gmap positive Example),
    Forall (fun l => is_Some (s !! l)) new_batch ->
    (forall j score_id, rest !! j = Some score_id ->
       is_Some (labels !! (i + j)%nat)
       /\ is_Some (new_batch !! (i + j)%nat)
       /\ is_ok (argmax_at classify ids (i + j)%nat score_id)) ->
    is_ok (score_loop classify ids labels new_batch s i rest).
Proof.
  induction rest as [|score_id rest IH]; intros i s Hdom Hall; simpl;
    [exact I|].
  destruct (Hall O score_id eq_refl) as ([lab Hlab] & [l Hl] & Hpred).
  rewrite Nat.add_0_r in Hlab, Hl, Hpred.
  destruct (is_ok_inv _ Hpred) as (pred & Hpred').
  assert (Hsl : is_Some (s !! l)).
  { rewrite Forall_forall in Hdom. apply Hdom.
    eapply list_elem_of_lookup_2. exact Hl. }
  destruct Hsl as [e He].
  unfold score_example, getitem, setitem.
  rewrite Hlab, Hpred', Hl. simpl. rewrite He. simpl.
  rewrite lookup_insert_eq. simpl. rewrite insert_insert_eq.
  apply IH.
  - eapply Forall_impl; [exact Hdom|]. intros l0 [e0 He0]. simpl.
    destruct (decide (l = l0)) as [<-|Hne].
    + rewrite lookup_insert_eq. eauto.
    + rewrite lookup_insert_ne by exact Hne. eauto.
  - intros j sid Hj. specialize (Hall (S j) sid Hj).
    now rewrite Nat.add_succ_r in Hall.
Qed.
End TotalityFacts.

(** A non-empty batch of live references whose rows all have at least two
    tokens is scored without an exception. *)
Lemma process_batch_ok (tokenizer : string -> list Z) (pad_token_id : Z)
    (separator : string) (classify : list (list Z) -> nat -> nat -> Z)
    (s : gmap positive Example) (res_data batch_ : list positive) :
  batch_ <> [] ->
  Forall (fun x => exists e, s !! x = Some e
                     /\ (2 <= length (encode tokenizer separator e).1)%nat)
    batch_ ->
  is_ok (process_batch tokenizer pad_token_id separator classify s res_data
           batch_).
Proof.
  intros Hne Hall. unfold process_batch.
  assert (Hlive : Forall (fun x => is_Some (s !! x)) batch_).
  { eapply Forall_impl; [exact Hall|]. intros x (e & He & _). eauto. }
  destruct (is_ok_inv _ (deepcopy_from_ok batch_ ∅ s Hlive))
    as ([s1 nb] & Hcopy).
  unfold deepcopy. rewrite Hcopy. cbn [bind fst snd].
  apply deepcopy_spec in Hcopy as (Hsub & Hnew & _).
  assert (Hrows_ok : is_ok (mapM (deref s1) batch_)).
  { apply mapM_is_ok. eapply Forall_impl; [exact Hlive|].
    intros x [e He]. simpl. unfold deref.
    now rewrite (lookup_weaken _ _ _ _ He Hsub). }
  destruct (is_ok_inv _ Hrows_ok) as (rows & Hrows). rewrite Hrows.
  cbn [bind].
  pose proof (deref_rows_lookup _ _ _ Hrows) as Hrow.
  assert (Hlen : length batch_ = length rows).
  { apply mapM_ok_inv in Hrows. eapply Forall2_length. exact Hrows. }
  assert (Hlong : Forall (fun e =>
            (2 <= length (encode tokenizer separator e).1)%nat) rows).
  { apply Forall_forall. intros e He.
    apply list_elem_of_lookup in He as (j & Hj).
    destruct (lookup_lt_is_Some_2 batch_ j) as [x Hx].
    { rewrite Hlen. eapply lookup_lt_Some. exact Hj. }
    destruct (Hrow _ _ Hx) as (e1 & He1 & Hj1).
    rewrite Hj in Hj1. injection Hj1 as <-.
    rewrite Forall_forall in Hall.
    destruct (Hall x) as (e2 & He2 & Hlen2);
      [eapply list_elem_of_lookup_2; exact Hx|].
    rewrite (lookup_weaken _ _ _ _ He2 Hsub) in He1. now injection He1 as <-. }
  assert (Hb_ok : is_ok (collate_fn tokenizer pad_token_id rows separator)).
  { apply collate_fn_ok.
    - intros ->. destruct batch_; [now elim Hne | discriminate Hlen].
    - eapply Forall_impl; [exact Hlong|]. intros e He. simpl in *. lia. }
  destruct (is_ok_inv _ Hb_ok) as (b & Hb). rewrite Hb. cbn [bind].
  apply collate_fn_inv in Hb as (max_len & _ & Hmax & Hids & Hlabels & Hscore).
  assert (Hloop : is_ok (score_loop classify (input_ids b) (labels b) nb s1 O
                           (score_ids b))).
  { apply score_loop_ok.
    - apply Forall_forall. intros x' Hx'.
      apply list_elem_of_lookup in Hx' as (j & Hj).
      destruct (Forall2_lookup_r _ _ _ _ _ Hnew Hj) as (x & _ & _ & e & _ & He).
      eauto.
    - intros j sid Hj. rewrite Nat.add_0_l.
      rewrite Hscore, list_lookup_fmap in Hj.
      destruct (rows !! j) as [e|] eqn:He; [|discriminate].
      injection Hj as <-. split; [|split].
      + rewrite Hlabels, list_lookup_fmap, He. eauto.
      + apply lookup_lt_is_Some_2.
        rewrite <- (Forall2_length _ _ _ Hnew), Hlen.
        eapply lookup_lt_Some. exact He.
      + eapply argmax_at_ok.
        * rewrite Hids, list_lookup_fmap, He. reflexivity.
        * rewrite Forall_forall in Hmax, Hlong.
          assert (Hin : e ∈ rows) by (eapply list_elem_of_lookup_2; exact He).
          destruct (Hmax e Hin) as [Hle _]. specialize (Hlong e Hin).
          rewrite length_app, length_replicate.
          pose proof (encode_positions_in_row tokenizer separator e) as Hpos.
          eapply Forall_impl; [exact Hpos|]. intros p Hp. simpl in *. lia. }
  destruct (is_ok_inv _ Hloop) as (s2 & ->). exact I.
Qed.


(** ** Accuracy arithmetic *)

Lemma fadd_comm (x y : spec_float) : fadd x y = fadd y x.
Proof.
  unfold fadd, SFadd.
  destruct x as [sx|sx| |sx mx ex], y as [sy|sy| |sy my ey];
    try reflexivity; try (destruct sx, sy; reflexivity).
  rewrite (Z.min_comm ey ex). f_equal. apply Z.add_comm.
Qed.

Lemma float_of_Z_2 : float_of_Z 2 = S754_finite false 4503599627370496 (-51).
Proof. reflexivity. Qed.

Lemma digits2_pos_iter_xO (m n : positive) :
  digits2_pos (Pos.iter xO m n) = (digits2_pos m + n)%positive.
Proof.
  induction n as [|n IH] using Pos.peano_ind.
  - simpl. now rewrite Pos.add_1_r.
  - rewrite Pos.iter_succ. simpl. rewrite IH. now rewrite Pos.add_succ_r.
Qed.

Lemma fmul_two_exact (s : bool) (m : positive) (e : Z) :
  doubles_exactly (S754_finite s m e) = true ->
  fmul (float_of_Z 2) (S754_finite s m e) = S754_finite s m (e + 1).
Proof.
  unfold doubles_exactly. intros H.
  apply andb_prop in H as [H He2]. apply andb_prop in H as [Hd He1].
  apply Z.eqb_eq in Hd. apply Z.leb_le in He1. apply Z.ltb_lt in He2.
  unfold prec, emax in *.
  change (emin 53 1024) with (-1074) in He1.
  injection Hd as Hd.
  rewrite float_of_Z_2. unfold fmul, SFmul.
  change (xorb false s) with s.
  unfold binary_round_aux, shr_fexp.
  change (4503599627370496 * m)%positive with (Pos.iter xO m 52).
  unfold Zdigits2 at 1. rewrite digits2_pos_iter_xO, Hd.
  change (Z.pos (53 + 52)) with 105.
  replace (fexp prec emax (105 + (-51 + e)) - (-51 + e)) with 52
    by (unfold fexp, emin, prec, emax; lia).
  cbv beta iota delta [shr shr_record_of_loc].
  change (SpecFloat.iter_pos shr_1 52
            {| shr_m := Z.pos (Pos.iter xO m 52); shr_r := false;
               shr_s := false |})
    with {| shr_m := Z.pos m; shr_r := false; shr_s := false |}.
  cbv beta iota delta [shr_m loc_of_shr_record round_nearest_even Zdigits2].
  rewrite Hd.
  replace (fexp prec emax (53 + (-51 + e + 52)) - (-51 + e + 52)) with 0
    by (unfold fexp, emin, prec, emax; lia).
  cbv beta iota.
  unfold prec, emax.
  destruct (Z.leb_spec (-51 + e + 52) (1024 - 53)); [|lia].
  f_equal. lia.
Qed.

Lemma iter_pos_iter {A} (f : A -> A) (p : positive) (x : A) :
  SpecFloat.iter_pos f p x = Pos.iter f x p.
Proof.
  revert x. induction p as [p IH|p IH|]; intros x; simpl.
  - rewrite !IH. now rewrite <- !Pos.iter_swap.
  - now rewrite !IH.
  - reflexivity.
Qed.

Lemma iter_pos_succ {A} (f : A -> A) (p : positive) (x : A) :
  SpecFloat.iter_pos f (Pos.succ p) x = SpecFloat.iter_pos f p (f x).
Proof. rewrite !iter_pos_iter. now rewrite Pos.iter_succ_r. Qed.

Lemma shr_fexp_double (M : positive) (E : Z) :
  E + 1 <= fexp prec emax (Z.pos (digits2_pos M) + (E + 1)) ->
  shr_fexp prec emax (Z.pos M~0) E loc_Exact
  = shr_fexp prec emax (Z.pos M) (E + 1) loc_Exact.
Proof.
  intros H. unfold shr_fexp. cbn [Zdigits2 digits2_pos shr_record_of_loc].
  replace (Z.pos (Pos.succ (digits2_pos M)) + E)
    with (Z.pos (digits2_pos M) + (E + 1)) by lia.
  set (t := fexp prec emax (Z.pos (digits2_pos M) + (E + 1))) in *.
  destruct (t - (E + 1)) as [|q|q] eqn:Hq; try lia.
  - replace (t - E) with 1 by lia. reflexivity.
  - replace (t - E) with (Z.pos (Pos.succ q)) by lia.
    unfold shr. rewrite iter_pos_succ. simpl. f_equal. lia.
Qed.

Lemma binary_round_aux_double (s : bool) (M : positive) (E : Z) :
  E + 1 <= fexp prec emax (Z.pos (digits2_pos M) + (E + 1)) ->
  binary_round_aux prec emax s (Z.pos M~0) E loc_Exact
  = binary_round_aux prec emax s (Z.pos M) (E + 1) loc_Exact.
Proof.
  intros H. unfold binary_round_aux. now rewrite (shr_fexp_double M E H).
Qed.

Lemma digits2_pos_size (m : positive) : digits2_pos m = Pos.size m.
Proof. induction m as [m IH|m IH|]; simpl; now rewrite ?IH. Qed.

Lemma digits2_pos_mul_ge (a b : positive) :
  (digits2_pos b <= digits2_pos (a * b))%positive.
Proof.
  rewrite !digits2_pos_size.
  destruct (Pos.leb_spec (Pos.size b) (Pos.size (a * b))) as [H|H];
    [exact H|].
  exfalso.
  pose proof (Pos.size_gt (a * b)) as Hgt.
  pose proof (Pos.size_le b) as Hle.
  apply Pos2Z.pos_lt_pos in Hgt. apply Pos2Z.pos_le_pos in Hle.
  rewrite Pos2Z.inj_pow in Hgt, Hle.
  assert (Hpow : 2 ^ (Z.pos (Pos.size (a * b)) + 1) <= 2 ^ Z.pos (Pos.size b))
    by (apply Z.pow_le_mono_r; lia).
  rewrite Z.pow_add_r in Hpow by lia.
  assert (Hab : Z.pos b <= Z.pos (a * b)) by nia.
  change (Z.pos b~0) with (2 * Z.pos b) in Hle. lia.
Qed.

(** Doubling a binary64 number below the largest binade is exact: the
    exponent grows by one, or the mantissa of a subnormal doubles. *)
Lemma fmul_two_finite (s : bool) (m : positive) (e : Z) :
  binary64_below_top (S754_finite s m e) = true ->
  fmul (float_of_Z 2) (S754_finite s m e)
  = if (Z.pos (digits2_pos m) =? prec)
    then S754_finite s m (e + 1)
    else S754_finite s m~0 e.
Proof.
  unfold binary64_below_top, bounded, canonical_mantissa. intros H.
  apply andb_prop in H as [H He2]. apply andb_prop in H as [Hc He3].
  apply Z.eqb_eq in Hc. apply Z.ltb_lt in He2.
  unfold fexp, emin, prec, emax in *.
  destruct (Z.eqb_spec (Z.pos (digits2_pos m)) 53) as [Hd|Hd].
  - apply fmul_two_exact. unfold doubles_exactly, prec, emax, emin.
    rewrite Hd. simpl Z.eqb. cbn [andb].
    apply andb_true_intro. split; [apply Z.leb_le; lia | apply Z.ltb_lt; lia].
  - assert (He : e = -1074) by lia.
    assert (Hlt : Z.pos (digits2_pos m) < 53) by lia.
    subst e. clear Hc He2 He3 Hd.
    rewrite float_of_Z_2. unfold fmul, SFmul.
    change (xorb false s) with s.
    unfold binary_round_aux, shr_fexp.
    change (4503599627370496 * m)%positive with (Pos.iter xO m 52).
    unfold Zdigits2 at 1. rewrite digits2_pos_iter_xO.
    replace (fexp prec emax (Z.pos (digits2_pos m + 52) + (-51 + -1074))
             - (-51 + -1074)) with 51
      by (unfold fexp, emin, prec, emax; lia).
    cbv beta iota delta [shr shr_record_of_loc].
    change (SpecFloat.iter_pos shr_1 51
              {| shr_m := Z.pos (Pos.iter xO m 52); shr_r := false;
                 shr_s := false |})
      with {| shr_m := Z.pos m~0; shr_r := false; shr_s := false |}.
    cbv beta iota delta [shr_m loc_of_shr_record round_nearest_even Zdigits2].
    cbn [digits2_pos].
    replace (fexp prec emax
               (Z.pos (Pos.succ (digits2_pos m)) + (-51 + -1074 + 51))
             - (-51 + -1074 + 51)) with 0
      by (unfold fexp, emin, prec, emax; lia).
    cbv beta iota. reflexivity.
Qed.

Lemma fmul_two_below_top (x : spec_float) :
  binary64_below_top x = true ->
  fmul (float_of_Z 2) x
  = match x with
    | S754_finite s m e =>
        if (Z.pos (digits2_pos m) =? prec)
        then S754_finite s m (e + 1)
        else S754_finite s m~0 e
    | _ => x
    end.
Proof.
  destruct x as [s|s| |s m e]; intros H; try reflexivity.
  now apply fmul_two_finite.
Qed.

Lemma round_after_double (s : bool) (m1 m2 : positive) (e1 e2 : Z) :
  Z.pos (digits2_pos m2) = prec ->
  binary_round_aux prec emax s (Z.pos (m1~0 * m2)) (e1 + e2) loc_Exact
  = binary_round_aux prec emax s (Z.pos (m2 * m1)) (e2 + 1 + e1) loc_Exact.
Proof.
  intros Hd. change (m1~0 * m2)%positive with (m1 * m2)~0%positive.
  rewrite binary_round_aux_double.
  - rewrite (Pos.mul_comm m1 m2). f_equal. lia.
  - pose proof (digits2_pos_mul_ge m1 m2) as Hge.
    unfold fexp, prec in *. lia.
Qed.

Lemma fmul_double_swap_below_top (a b : spec_float) :
  binary64_below_top a = true -> binary64_below_top b = true ->
  fmul (fmul (float_of_Z 2) a) b = fmul (fmul (float_of_Z 2) b) a.
Proof.
  intros Ha Hb.
  rewrite (fmul_two_below_top a Ha), (fmul_two_below_top b Hb).
  destruct a as [sa|sa| |sa ma ea], b as [sb|sb| |sb mb eb];
    try reflexivity;
    try (unfold fmul, SFmul; now rewrite (xorb_comm sa sb));
    try (match goal with
         | |- context [Z.pos (digits2_pos ?m) =? prec] =>
             destruct (Z.pos (digits2_pos m) =? prec)
         end;
         unfold fmul, SFmul; now rewrite (xorb_comm sa sb));
    try (match goal with
         | |- context [Z.pos (digits2_pos ?m) =? prec] =>
             destruct (Z.pos (digits2_pos m) =? prec)
         end; reflexivity).
  destruct (Z.eqb_spec (Z.pos (digits2_pos ma)) prec) as [Hda|Hda];
    destruct (Z.eqb_spec (Z.pos (digits2_pos mb)) prec) as [Hdb|Hdb];
    unfold fmul, SFmul; rewrite (xorb_comm sa sb).
  - rewrite (Pos.mul_comm ma mb). f_equal. lia.
  - symmetry. now apply round_after_double.
  - now apply round_after_double.
  - change (ma~0 * mb)%positive with (ma * mb)~0%positive.
    change (mb~0 * ma)%positive with (mb * ma)~0%positive.
    rewrite (Pos.mul_comm ma mb). f_equal. lia.
Qed.

Lemma SFeqb_refl (x : spec_float) : is_nan x = false -> SFeqb x x = true.
Proof.
  unfold SFeqb, SFcompare.
  destruct x as [s|s| |s m e]; intros H; try discriminate H.
  - reflexivity.
  - now destruct s.
  - rewrite Z.compare_refl, Pos.compare_cont_refl. now destruct s.
Qed.

(** C7. The F1 computation is symmetric in its two accuracy inputs.  It is
    proved on binary64 for all values of magnitude below 2^1023 (and for
    infinities and NaN), which covers every accuracy: [np.mean(...) * 100]
    is NaN for an empty subset and lies between 0 and 100 otherwise.  The
    two results are the same value, and Python's [==] holds between them
    whenever that value is not NaN. *)
Theorem f1_score_symmetric (a b : spec_float) :
  binary64_below_top a = true -> binary64_below_top b = true ->
  f1_score a b = f1_score b a
  /\ (is_nan (f1_score a b) = false ->
      SFeqb (f1_score a b) (f1_score b a) = true).
Proof.
  intros Ha Hb.
  assert (H : f1_score a b = f1_score b a).
  { unfold f1_score.
    now rewrite (fmul_double_swap_below_top a b Ha Hb), (fadd_comm a b). }
  split; [exact H|]. intros Hnan. rewrite <- H. now apply SFeqb_refl.
Qed.

(** The accuracies of all subsets of at most 64 rows are such values. *)
Lemma small_accuracies_below_top : accuracies_below_top 64 = true.
Proof. vm_compute. reflexivity. Qed.

Lemma f1_score_symmetric_witness :
  binary64_below_top (accuracy [true; false; true]) = true
  /\ binary64_below_top (accuracy [true; false]) = true
  /\ f1_score (accuracy [true; false; true]) (accuracy [true; false])
     = f1_score (accuracy [true; false]) (accuracy [true; false; true]).
Proof.
  split; [reflexivity|]. split; [reflexivity|].
  exact (proj1 (f1_score_symmetric (accuracy [true; false; true])
                  (accuracy [true; false]) eq_refl eq_refl)).
Defined.

Lemma report_config_appends (save_dir config : string) (num : Z * Z)
    (gathered_data : list Example) (all_f1_scores all_f1_scores' : list spec_float)
    (out : list event) :
  report_config save_dir config num gathered_data all_f1_scores
  = (out, Ok all_f1_scores') ->
  exists acc1 acc2 : spec_float,
    all_f1_scores' = all_f1_scores ++ [f1_score acc1 acc2]
    /\ last out = Some (PrintReport config acc1 acc2 (f1_score acc1 acc2)).
Proof.
  unfold report_config.
  destruct (mapM get_match (filter _ gathered_data)) as [m1|err1];
    [|intros H; discriminate H].
  destruct (mapM get_match (filter _ gathered_data)) as [m2|err2];
    [|intros H; discriminate H].
  intros H. injection H as <- <-.
  exists (accuracy m1), (accuracy m2). split; [reflexivity|].
  now rewrite last_snoc.
Qed.

(** C6, as the code has it.  The F1 value is NaN when both accuracies are
    0 (0/0), and that NaN is what the report prints and what is appended to
    [all_f1_scores]; when one accuracy is 0 and the other is a positive
    accuracy the F1 value is 0.0, not NaN. *)
Theorem f1_score_zero_accuracy (m : positive) (e : Z) :
  binary64_below_top (S754_finite false m e) = true ->
  f1_score (S754_zero false) (S754_zero false) = S754_nan
  /\ f1_score (S754_zero false) (S754_finite false m e) = S754_zero false
  /\ f1_score (S754_finite false m e) (S754_zero false) = S754_zero false
  /\ report_config "outputs" "gsm8k" (1, 1)
       [row_error_missed; row_correct_flagged] []
     = ([WriteFile "outputs/gsm8k_error.jsonl" [row_error_missed];
         WriteFile "outputs/gsm8k_correct.jsonl" [row_correct_flagged];
         PrintReport "gsm8k" (S754_zero false) (S754_zero false) S754_nan],
        Ok [S754_nan])
  /\ forall save_dir config num gathered_data all_f1_scores out all_f1_scores',
       report_config save_dir config num gathered_data all_f1_scores
       = (out, Ok all_f1_scores') ->
       exists acc1 acc2 : spec_float,
         all_f1_scores' = all_f1_scores ++ [f1_score acc1 acc2]
         /\ last out = Some (PrintReport config acc1 acc2 (f1_score acc1 acc2)).
Proof.
  intros Hb. split; [reflexivity|]. split; [reflexivity|]. split.
  - unfold f1_score. rewrite (fmul_two_finite _ _ _ Hb).
    destruct (Z.pos (digits2_pos m) =? prec); reflexivity.
  - split; [reflexivity|]. intros *. apply report_config_appends.
Qed.

Lemma f1_score_zero_accuracy_witness :
  binary64_below_top (float_of_Z 50) = true
  /\ f1_score (float_of_Z 0) (float_of_Z 50) = S754_zero false
  /\ f1_score (float_of_Z 50) (float_of_Z 0) = S754_zero false.
Proof.
  split; [reflexivity|].
  destruct (f1_score_zero_accuracy 7036874417766400 (-47) eq_refl)
    as (_ & H1 & H2 & _).
  split; [exact H1 | exact H2].
Defined.

(** C6, the scenario of the specification: with [acc_error = 0.0] and
    [acc_correct = 50.0] the F1 computation yields 0.0, which is not NaN;
    the same holds when the two accuracies come from match lists. *)
Lemma f1_score_zero_fifty_is_zero :
  f1_score (float_of_Z 0) (float_of_Z 50) = S754_zero false
  /\ is_nan (f1_score (float_of_Z 0) (float_of_Z 50)) = false
  /\ accuracy [false; false] = float_of_Z 0
  /\ accuracy [true; false] = float_of_Z 50
  /\ is_nan (f1_score (accuracy [false; false]) (accuracy [true; false]))
     = false.
Proof. repeat split; reflexivity. Qed.

(** ** The count check *)

(** The match lists of rows that all carry a match. *)
Lemma mapM_get_match_total (l : list Example) :
  Forall (fun e => is_Some (match_ e)) l ->
  mapM get_match l = Ok (omap match_ l).
Proof.
  induction 1 as [|e l [b Hb] _ IH]; [reflexivity|].
  change (omap match_ (e :: l))
    with (match match_ e with
          | Some y => y :: omap match_ l
          | None => omap match_ l
          end).
  simpl. unfold get_match at 1. rewrite Hb. simpl. now rewrite IH.
Qed.

Lemma Forall_filter_keeps {A} (P Q : A -> Prop) `{forall x, Decision (Q x)}
    (l : list A) :
  Forall P l -> Forall P (filter Q l).
Proof.
  rewrite !Forall_forall. intros Hall x Hx.
  apply list_elem_of_filter in Hx as [_ Hx]. now apply Hall.
Qed.

(** C8. The count check only adds warnings.  Whatever the expected counts
    [num], the events of the block are the mismatch warnings followed by
    exactly the events of the run whose expected counts match, and the
    resulting [all_f1_scores] (or exception) is the same; the matching run
    emits no warning; there is a warning exactly when a count disagrees;
    both result files are written in every case; and when the gathered
    rows carry their matches, as the rows of the scoring loop do, the
    block goes on after the files, whatever [num] is: it computes the
    accuracy of the error rows, the accuracy of the correct rows and their
    F1, prints the report with these three values as its last event, and
    appends that F1 to [all_f1_scores]. *)
Theorem count_mismatch_only_warns (save_dir config : string) (num : Z * Z)
    (gathered_data : list Example) (all_f1_scores : list spec_float) :
  let data1 := filter (fun e => label e ≠ -1) gathered_data in
  let data2 := filter (fun e => label e = -1) gathered_data in
  let matching := (Z.of_nat (length data1), Z.of_nat (length data2)) in
  let warnings :=
    (if bool_decide (Z.of_nat (length data1) ≠ num.1)
     then [PrintErrorMismatch config (length data1) num.1] else [])
    ++ (if bool_decide (Z.of_nat (length data2) ≠ num.2)
        then [PrintCorrectMismatch config (length data2) num.2] else []) in
  let run := report_config save_dir config num gathered_data all_f1_scores in
  let run_matching :=
    report_config save_dir config matching gathered_data all_f1_scores in
  let acc1 := accuracy (omap match_ data1) in
  let acc2 := accuracy (omap match_ data2) in
  let f1 := f1_score acc1 acc2 in
  run = (warnings ++ run_matching.1, run_matching.2)
  /\ Forall (fun ev => is_warning ev = false) run_matching.1
  /\ Forall (fun ev => is_warning ev = true) warnings
  /\ WriteFile (save_dir +:+ "/" +:+ config +:+ "_error.jsonl") data1 ∈ run.1
  /\ WriteFile (save_dir +:+ "/" +:+ config +:+ "_correct.jsonl") data2 ∈ run.1
  /\ (warnings = [] <-> num = matching)
  /\ (Forall (fun e => is_Some (match_ e)) gathered_data ->
      run
      = (warnings
         ++ [WriteFile (save_dir +:+ "/" +:+ config +:+ "_error.jsonl") data1;
             WriteFile (save_dir +:+ "/" +:+ config +:+ "_correct.jsonl")
               data2;
             PrintReport config acc1 acc2 f1],
         Ok (all_f1_scores ++ [f1]))
      /\ run_matching
         = ([WriteFile (save_dir +:+ "/" +:+ config +:+ "_error.jsonl") data1;
             WriteFile (save_dir +:+ "/" +:+ config +:+ "_correct.jsonl")
               data2;
             PrintReport config acc1 acc2 f1],
            Ok (all_f1_scores ++ [f1]))).
Proof.
  intros data1 data2 matching warnings run run_matching acc1 acc2 f1.
  assert (E1 : bool_decide (Z.of_nat (length data1) ≠ Z.of_nat (length data1))
               = false) by (apply bool_decide_eq_false_2; intros H; now apply H).
  assert (E2 : bool_decide (Z.of_nat (length data2) ≠ Z.of_nat (length data2))
               = false) by (apply bool_decide_eq_false_2; intros H; now apply H).
  assert (Hfirst :
            run = (warnings ++ run_matching.1, run_matching.2)
            /\ Forall (fun ev => is_warning ev = false) run_matching.1
            /\ Forall (fun ev => is_warning ev = true) warnings
            /\ WriteFile (save_dir +:+ "/" +:+ config +:+ "_error.jsonl") data1
               ∈ run.1
            /\ WriteFile (save_dir +:+ "/" +:+ config +:+ "_correct.jsonl")
                 data2 ∈ run.1).
  { subst run run_matching matching. unfold report_config. cbn [fst snd].
    fold data1 data2. rewrite E1, E2. fold warnings.
    destruct (mapM get_match data1) as [m1|err1];
      [destruct (mapM get_match data2) as [m2|err2]|]; cbn [fst snd app].
    all: subst warnings.
    all: split; [rewrite <- ?app_assoc; reflexivity|].
    all: split; [repeat constructor|].
    all: split; [repeat case_bool_decide; repeat constructor|].
    all: split; rewrite ?elem_of_app, ?elem_of_cons; tauto. }
  destruct Hfirst as (H1 & H2 & H3 & H4 & H5).
  split; [exact H1|]. split; [exact H2|]. split; [exact H3|].
  split; [exact H4|]. split; [exact H5|]. split.
  - subst warnings matching. destruct num as [n1 n2]. cbn [fst snd].
    destruct (decide (Z.of_nat (length data1) = n1)) as [D1|N1].
    + rewrite (bool_decide_eq_false_2 (Z.of_nat (length data1) ≠ n1))
        by (intros H; exact (H D1)).
      destruct (decide (Z.of_nat (length data2) = n2)) as [D2|N2].
      * rewrite (bool_decide_eq_false_2 (Z.of_nat (length data2) ≠ n2))
          by (intros H; exact (H D2)).
        split; [intros _; now rewrite D1, D2 | reflexivity].
      * rewrite (bool_decide_eq_true_2 _ N2). split.
        -- intros H. simpl in H. discriminate H.
        -- intros H. injection H as _ H. now elim N2.
    + rewrite (bool_decide_eq_true_2 _ N1). split.
      * intros H. simpl in H. discriminate H.
      * intros H. injection H as H _. now elim N1.
  - intros Hall.
    assert (M1 : mapM get_match data1 = Ok (omap match_ data1))
      by (apply mapM_get_match_total; now apply Forall_filter_keeps).
    assert (M2 : mapM get_match data2 = Ok (omap match_ data2))
      by (apply mapM_get_match_total; now apply Forall_filter_keeps).
    subst run run_matching matching. unfold report_config. cbn [fst snd].
    fold data1 data2. rewrite E1, E2, M1, M2. fold acc1 acc2. fold f1.
    subst warnings. split; [|reflexivity].
    now rewrite <- !app_assoc.
Qed.

Lemma count_mismatch_only_warns_witness :
  report_config "outputs" "gsm8k" (207, 193)
    [row_error_found; row_correct_passed; row_correct_flagged] []
  = ([PrintErrorMismatch "gsm8k" 1 207; PrintCorrectMismatch "gsm8k" 2 193;
      WriteFile "outputs/gsm8k_error.jsonl" [row_error_found];
      WriteFile "outputs/gsm8k_correct.jsonl"
        [row_correct_passed; row_correct_flagged];
      PrintReport "gsm8k" (float_of_Z 100) (float_of_Z 50)
        (f1_score (float_of_Z 100) (float_of_Z 50))],
     Ok [f1_score (float_of_Z 100) (float_of_Z 50)]).
Proof.
  destruct (count_mismatch_only_warns "outputs" "gsm8k" (207, 193)
              [row_error_found; row_correct_passed; row_correct_flagged] [])
    as (_ & _ & _ & _ & _ & _ & Hreport).
  destruct Hreport as [Hrun _].
  - repeat constructor; simpl; eauto.
  - rewrite Hrun. reflexivity.
Defined.


(** ** Sharding *)

Lemma ceil_div_rows (n w r : nat) :
  (r < w)%nat -> ceil_div (n * w - r) w = n.
Proof.
  intros Hr. unfold ceil_div.
  destruct n as [|n].
  - simpl. apply Nat.div_small. lia.
  - replace (S n * w - r + w - 1)%nat with (S n * w + (w - 1 - r))%nat by nia.
    rewrite Nat.div_add_l by lia. rewrite Nat.div_small by lia. lia.
Qed.

Lemma ceil_div_exact (q w : nat) : (1 <= w)%nat -> ceil_div (q * w) w = q.
Proof.
  intros Hw. unfold ceil_div.
  replace (q * w + w - 1)%nat with (q * w + (w - 1))%nat by lia.
  rewrite Nat.div_add_l by lia. rewrite Nat.div_small by lia. lia.
Qed.

Lemma ceil_div_covers (n w : nat) : (1 <= w)%nat -> (n <= ceil_div n w * w)%nat.
Proof.
  intros Hw. unfold ceil_div.
  pose proof (Nat.div_mod (n + w - 1) w ltac:(lia)) as Hdm.
  pose proof (Nat.mod_upper_bound (n + w - 1) w ltac:(lia)) as Hub.
  nia.
Qed.

Lemma omap_seq_shift {A} (f : nat -> option A) (n : nat) :
  omap f (seq 1 n) = omap (fun k => f (S k)) (seq 0 n).
Proof.
  rewrite <- seq_shift. induction (seq 0 n) as [|k ks IH]; simpl; [reflexivity|].
  destruct (f (S k)); [f_equal|]; exact IH.
Qed.

Lemma list_omap_pointwise {A B} (f g : A -> option B) (l : list A) :
  (forall x, f x = g x) -> omap f l = omap g l.
Proof.
  intros H. induction l as [|x l IH]; [reflexivity|].
  change (omap f (x :: l))
    with (match f x with Some y => y :: omap f l | None => omap f l end).
  change (omap g (x :: l))
    with (match g x with Some y => y :: omap g l | None => omap g l end).
  now rewrite H, IH.
Qed.

Lemma column_step {A} (l : list A) (r w n : nat) :
  omap (fun k => l !! (r + k * w)%nat) (seq 0 (S n))
  = option_list (l !! r)
    ++ omap (fun k => drop w l !! (r + k * w)%nat) (seq 0 n).
Proof.
  change (seq 0 (S n)) with (0%nat :: seq 1 n).
  change (omap ?f (?x :: ?l)) with
    (match f x with Some y => y :: omap f l | None => omap f l end).
  rewrite omap_seq_shift.
  replace (r + 0 * w)%nat with r by lia.
  assert (E : omap (fun k => l !! (r + S k * w)%nat) (seq 0 n)
              = omap (fun k => drop w l !! (r + k * w)%nat) (seq 0 n)).
  { apply list_omap_pointwise. intros k. rewrite lookup_drop.
    f_equal. lia. }
  rewrite E. destruct (l !! r); reflexivity.
Qed.

Lemma first_row {A} (l : list A) (w : nat) :
  concat (map (fun r => option_list (l !! r)) (seq 0 w)) = take w l.
Proof.
  revert w. induction l as [|x l IH]; intros w.
  - rewrite take_nil. induction (seq 0 w); simpl; auto.
  - destruct w as [|w]; [reflexivity|].
    cbn [seq map concat]. rewrite <- seq_shift, map_map. simpl.
    f_equal. apply IH.
Qed.

Lemma concat_map_app_perm {A B} (f g : B -> list A) (rs : list B) :
  concat (map (fun r => f r ++ g r) rs)
  ≡ₚ concat (map f rs) ++ concat (map g rs).
Proof.
  induction rs as [|r rs IH]; simpl; [reflexivity|].
  rewrite IH. rewrite <- !app_assoc. apply Permutation_app_head.
  rewrite !app_assoc. apply Permutation_app_tail. apply Permutation_app_comm.
Qed.

(** Taking every [w]-th element from each of the [w] offsets rearranges
    a list of [n] rows of [w] elements. *)
Lemma columns_permutation {A} (w n : nat) :
  forall l : list A,
    length l = (n * w)%nat ->
    concat (map (fun r => omap (fun k => l !! (r + k * w)%nat) (seq 0 n))
              (seq 0 w))
    ≡ₚ l.
Proof.
  induction n as [|n IH]; intros l Hlen.
  - destruct l; [|discriminate Hlen]. simpl.
    induction (seq 0 w); simpl; auto.
  - erewrite map_ext; [|intros r; apply column_step].
    rewrite concat_map_app_perm, first_row.
    rewrite (IH (drop w l)) by (rewrite length_drop; lia).
    now rewrite take_drop.
Qed.

Lemma py_slice_columns {A} (l : list A) (n w r : nat) :
  length l = (n * w)%nat -> (r < w)%nat ->
  py_slice r (n * w) w l = omap (fun k => l !! (r + k * w)%nat) (seq 0 n).
Proof.
  intros Hlen Hr. unfold py_slice.
  now rewrite Hlen, Nat.min_id, ceil_div_rows.
Qed.

Lemma length_concat_replicate {A} (c : nat) (l : list A) :
  length (concat (replicate c l)) = (c * length l)%nat.
Proof.
  induction c as [|c IH]; simpl; [reflexivity|].
  now rewrite length_app, IH.
Qed.

Lemma padded_indices_length (n total_size : nat) :
  (n <= total_size)%nat -> (n = 0%nat -> total_size = 0%nat) ->
  length (padded_indices n total_size) = total_size.
Proof.
  intros Hle Hzero. unfold padded_indices. rewrite length_seq.
  destruct (Nat.leb_spec (total_size - n) n) as [Hpad|Hpad].
  - rewrite length_app, length_take, length_seq. lia.
  - rewrite length_app, length_take, length_concat_replicate, !length_seq.
    assert (Hn : (1 <= n)%nat) by lia.
    pose proof (ceil_div_covers (total_size - n) n Hn). lia.
Qed.

Lemma padded_indices_exact (n : nat) : padded_indices n n = seq 0 n.
Proof.
  unfold padded_indices. rewrite length_seq, Nat.sub_diag. simpl.
  now rewrite take_0, app_nil_r.
Qed.

(** The shards of all ranks together rearrange the padded index list. *)
Lemma distributed_sampler_covers (n w : nat) :
  (1 <= w)%nat ->
  concat (map (distributed_sampler n w) (seq 0 w))
  ≡ₚ padded_indices n (ceil_div n w * w).
Proof.
  intros Hw.
  set (total := (ceil_div n w * w)%nat).
  assert (Hlen : length (padded_indices n total) = total).
  { apply padded_indices_length.
    - now apply ceil_div_covers.
    - intros ->. subst total. unfold ceil_div. simpl.
      rewrite Nat.div_small by lia. reflexivity. }
  etransitivity; [|apply (columns_permutation w (ceil_div n w) _ Hlen)].
  apply Permutation_refl'. f_equal. apply map_ext_in. intros r Hr.
  apply in_seq in Hr. unfold distributed_sampler. fold total.
  apply py_slice_columns; [exact Hlen | lia].
Qed.

Lemma distributed_sampler_partition (n w : nat) :
  (1 <= w)%nat -> Nat.divide w n ->
  concat (map (distributed_sampler n w) (seq 0 w)) ≡ₚ seq 0 n.
Proof.
  intros Hw [q ->]. rewrite distributed_sampler_covers by exact Hw.
  now rewrite ceil_div_exact, padded_indices_exact.
Qed.

Lemma omap_concat {A B} (f : A -> option B) (ls : list (list A)) :
  omap f (concat ls) = concat (map (omap f) ls).
Proof.
  induction ls as [|l ls IH]; simpl; [reflexivity|].
  now rewrite omap_app, IH.
Qed.

Lemma omap_lookup_seq {A B} (f : A -> B) (l : list A) :
  omap (fun i => f <$> l !! i) (seq 0 (length l)) = map f l.
Proof.
  induction l as [|x l IH]; [reflexivity|].
  simpl length. change (seq 0 (S (length l))) with (0%nat :: seq 1 (length l)).
  change (omap ?g (?y :: ?ys))
    with (match g y with Some z => z :: omap g ys | None => omap g ys end).
  simpl. f_equal. rewrite omap_seq_shift. exact IH.
Qed.

Lemma foldl_app_concat {A} (ls : list (list A)) (acc : list A) :
  foldl (fun result process_data => result ++ process_data) acc ls
  = acc ++ concat ls.
Proof.
  revert acc. induction ls as [|l ls IH]; intros acc; simpl.
  - now rewrite app_nil_r.
  - now rewrite IH, app_assoc.
Qed.

(** The rows all processes hold together, by rank. *)
Lemma world_rows (dataset : list Example) (w : nat) (dtype : string)
    (world : list (list Example)) :
  Forall2 (fun r data => scored_shard dataset (mkAccelerator w r dtype) data)
    (seq 0 w) world ->
  map raw (concat world)
  = omap (fun i => raw <$> dataset !! i)
      (concat (map (fun r => sampler (mkAccelerator w r dtype) (length dataset))
                 (seq 0 w))).
Proof.
  intros H. rewrite omap_concat, map_map.
  induction H as [|r data rs world Hr _ IH]; [reflexivity|].
  simpl. rewrite map_app, IH. f_equal. exact Hr.
Qed.

Lemma concat_outer_permutation {A} (ls ls' : list (list A)) :
  ls ≡ₚ ls' -> concat ls ≡ₚ concat ls'.
Proof.
  induction 1 as [|l ls ls' _ IH|l1 l2 ls|ls1 ls2 ls3 _ IH1 _ IH2]; simpl.
  - reflexivity.
  - now rewrite IH.
  - rewrite !app_assoc. apply Permutation_app_tail, Permutation_app_comm.
  - now rewrite IH1.
Qed.

Lemma sampler_partition (w : nat) (dtype : string) (n : nat) :
  (1 <= w)%nat ->
  w = 1%nat \/ (dtype = "MULTI_GPU" /\ Nat.divide w n) ->
  concat (map (fun r => sampler (mkAccelerator w r dtype) n) (seq 0 w))
  ≡ₚ seq 0 n.
Proof.
  intros Hw Hcase. unfold sampler. simpl.
  destruct (String.eqb dtype "MULTI_GPU") eqn:Hd.
  - apply distributed_sampler_partition; [exact Hw|].
    destruct Hcase as [->|[_ H]]; [apply Nat.divide_1_l | exact H].
  - destruct Hcase as [->|[-> _]].
    + simpl. now rewrite app_nil_r.
    + rewrite String.eqb_refl in Hd. discriminate Hd.
Qed.

(** ** The loop of one process *)

Lemma foldM_fetch_spec (dataset : list Example) (idxs : list nat) :
  forall (s s1 : gmap positive Example) (b0 b1 : list positive),
    foldM (fetch dataset) (s, b0) idxs = Ok (s1, b1) ->
    s ⊆ s1
    /\ exists new : list positive,
         b1 = b0 ++ new
         /\ Forall2 (fun l i => exists e, dataset !! i = Some e
                                  /\ s1 !! l = Some e) new idxs.
Proof.
  induction idxs as [|i idxs IH]; intros s s1 b0 b1 H; simpl in H.
  - injection H as <- <-. split; [reflexivity|]. exists [].
    split; [now rewrite app_nil_r | constructor].
  - apply bind_ok_inv in H as ([s2 b2] & Hf & H).
    unfold fetch, getitem in Hf. simpl in Hf.
    destruct (dataset !! i) as [e|] eqn:He; [|discriminate Hf].
    simpl in Hf. injection Hf as <- <-.
    pose proof (is_fresh (dom s)) as Hfresh.
    apply not_elem_of_dom_1 in Hfresh.
    destruct (IH _ _ _ _ H) as (Hsub & new & -> & Hall).
    split.
    + etransitivity; [|exact Hsub]. now apply insert_subseteq.
    + exists (fresh (dom s) :: new). split; [now rewrite <- app_assoc|].
      constructor; [|exact Hall]. exists e. split; [exact He|].
      eapply lookup_weaken; [|exact Hsub]. apply lookup_insert_eq.
Qed.

Lemma batches_fuel_concat (batch_size : nat) :
  (1 <= batch_size)%nat ->
  forall (fuel : nat) (indices : list nat),
    (length indices <= fuel)%nat ->
    concat (batches_fuel fuel batch_size indices) = indices.
Proof.
  intros Hbs. induction fuel as [|fuel IH]; intros indices Hlen.
  - destruct indices; [reflexivity | simpl in Hlen; lia].
  - destruct indices as [|i indices]; [reflexivity|].
    cbn [batches_fuel concat]. rewrite IH.
    + apply take_drop.
    + rewrite length_drop. simpl in *. lia.
Qed.

Lemma batches_concat (indices : list nat) : concat (batches bs indices) = indices.
Proof. apply batches_fuel_concat; [unfold bs; lia | reflexivity]. Qed.

Lemma same_row_raw (e' e : Example) : same_row e' e -> raw e' = raw e.
Proof. intros (H1 & H2 & H3). unfold raw. now rewrite H1, H2, H3. Qed.

Lemma scored_rows (dataset data : list Example) (indices : list nat) :
  Forall2 (fun d i => exists e, dataset !! i = Some e /\ same_row d e)
    data indices ->
  map raw data = omap (fun i => raw <$> dataset !! i) indices.
Proof.
  induction 1 as [|d i data indices (e & He & Hsame) _ IH]; [reflexivity|].
  change (omap ?g (?y :: ?ys))
    with (match g y with Some z => z :: omap g ys | None => omap g ys end).
  cbv beta. rewrite He. simpl. now rewrite IH, (same_row_raw _ _ Hsame).
Qed.

Section WorkerFacts.
Variable tokenizer : string -> list Z.
Variable pad_token_id : Z.
Variable separator : string.
Variable classify : list (list Z) -> nat -> nat -> Z.

Lemma worker_step_spec (dataset : list Example)
    (s s' : gmap positive Example) (res res' : list positive)
    (idxs : list nat) :
  worker_step tokenizer pad_token_id separator classify dataset (s, res) idxs
  = Ok (s', res') ->
  (forall l e, s !! l = Some e -> s' !! l = Some e)
  /\ exists nb : list positive,
       res' = res ++ nb
       /\ Forall2 (fun l' i => exists e e', dataset !! i = Some e
                                 /\ s' !! l' = Some e' /\ same_row e' e)
            nb idxs.
Proof.
  unfold worker_step. simpl. intros H.
  apply bind_ok_inv in H as ([s1 batch_] & Hload & H). simpl in H.
  apply foldM_fetch_spec in Hload as (Hsub & new & Hnew & Hrows).
  simpl in Hnew. subst new.
  apply process_batch_spec in H as (nb & -> & Hframe & Hall).
  split.
  - intros l e He. apply Hframe. eapply lookup_weaken; eassumption.
  - exists nb. split; [reflexivity|].
    apply Forall2_same_length_lookup. split.
    + rewrite <- (Forall2_length _ _ _ Hall). eapply Forall2_length. exact Hrows.
    + intros k x' i Hx' Hi.
      destruct (Forall2_lookup_r _ _ _ _ _ Hrows Hi) as (x & Hx & e & He & Hs1).
      destruct (Forall2_lookup_lr _ _ _ _ _ _ Hall Hx Hx') as (_ & Hj).
      destruct (Hj e Hs1) as (e' & He' & Hsame & _).
      exists e, e'. split; [exact He|]. split; [exact He' | exact Hsame].
Qed.

Lemma foldM_worker_spec (dataset : list Example)
    (batch_list : list (list nat)) :
  forall (s s' : gmap positive Example) (res res' : list positive)
         (done : list nat),
    foldM (worker_step tokenizer pad_token_id separator classify dataset)
      (s, res) batch_list = Ok (s', res') ->
    Forall2 (fun l i => exists e e', dataset !! i = Some e
                          /\ s !! l = Some e' /\ same_row e' e) res done ->
    Forall2 (fun l i => exists e e', dataset !! i = Some e
                          /\ s' !! l = Some e' /\ same_row e' e)
      res' (done ++ concat batch_list).
Proof.
  induction batch_list as [|idxs batch_list IH];
    intros s s' res res' done H Hinv; simpl in H.
  - injection H as <- <-. simpl. now rewrite app_nil_r.
  - apply bind_ok_inv in H as ([s1 res1] & Hstep & H).
    apply worker_step_spec in Hstep as (Hframe & nb & -> & Hnew).
    simpl. rewrite app_assoc. apply (IH _ _ _ _ _ H).
    apply Forall2_app; [|exact Hnew].
    eapply Forall2_impl; [exact Hinv|].
    intros l i (e & e' & Hi & Hl & Hsame). exists e, e'.
    split; [exact Hi|]. split; [now apply Hframe | exact Hsame].
Qed.

(** What a process that completes its loop hands to the gather. *)
Lemma run_worker_scored (dataset : list Example) (accelerator : Accelerator)
    (data : list Example) :
  run_worker tokenizer pad_token_id separator classify dataset accelerator
  = Ok data ->
  scored_shard dataset accelerator data.
Proof.
  unfold run_worker, scored_shard. intros H.
  apply bind_ok_inv in H as ([s res] & Hloop & H). simpl in H.
  apply (foldM_worker_spec _ _ _ _ _ _ [] ) in Hloop; [|constructor].
  simpl in Hloop. rewrite batches_concat in Hloop.
  apply mapM_ok_inv in H. apply scored_rows.
  apply Forall2_same_length_lookup. split.
  - rewrite <- (Forall2_length _ _ _ H). eapply Forall2_length. exact Hloop.
  - intros k d i Hd Hi.
    destruct (Forall2_lookup_r _ _ _ _ _ H Hd) as (l & Hl & Hderef).
    destruct (Forall2_lookup_lr _ _ _ _ _ _ Hloop Hl Hi)
      as (e & e' & He & He' & Hsame).
    unfold deref in Hderef. rewrite He' in Hderef. injection Hderef as <-.
    exists e. split; assumption.
Qed.
End WorkerFacts.

(** C5, as the code has it.  When the number of processes divides the size
    of the dataset under the distributed sampler, or there is one process,
    and every process completes its loop, the main process gathers exactly
    one row per example of the dataset: the merged rows are a rearrangement
    of the dataset's rows, whatever the order in which the processes'
    lists are concatenated; the other processes receive [None]. *)
Theorem gather_objects_complete (tokenizer : string -> list Z)
    (pad_token_id : Z) (separator : string)
    (classify : list (list Z) -> nat -> nat -> Z)
    (dataset : list Example) (w : nat) (dtype : string)
    (world : list (list Example)) :
  (1 <= w)%nat ->
  w = 1%nat \/ (dtype = "MULTI_GPU" /\ Nat.divide w (length dataset)) ->
  Forall2 (fun r data =>
             run_worker tokenizer pad_token_id separator classify dataset
               (mkAccelerator w r dtype) = Ok data)
    (seq 0 w) world ->
  exists data merged : list Example,
    world !! 0%nat = Some data
    /\ gather_objects world data (mkAccelerator w 0 dtype) = Some merged
    /\ length merged = length dataset
    /\ map raw merged ≡ₚ map raw dataset
    /\ (forall world', world' ≡ₚ world ->
          map raw (concat world') ≡ₚ map raw dataset)
    /\ (forall r data_r, (0 < r)%nat -> (1 < w)%nat ->
          gather_objects world data_r (mkAccelerator w r dtype) = None).
Proof.
  intros Hw Hcase Hrun.
  assert (Hworld : Forall2
            (fun r data => scored_shard dataset (mkAccelerator w r dtype) data)
            (seq 0 w) world).
  { eapply Forall2_impl; [exact Hrun|]. intros r data H.
    eapply run_worker_scored. exact H. }
  clear Hrun.
  assert (Hrows : map raw (concat world) ≡ₚ map raw dataset).
  { rewrite (world_rows _ _ _ _ Hworld).
    rewrite (sampler_partition w dtype (length dataset) Hw Hcase).
    now rewrite omap_lookup_seq. }
  destruct w as [|w]; [lia|].
  destruct world as [|data world]; [inversion Hworld|].
  exists data.
  assert (Hmerged : gather_objects (data :: world) data
                      (mkAccelerator (S w) 0 dtype)
                    = Some (concat (data :: world))).
  { unfold gather_objects, is_main_process. simpl num_processes.
    destruct w as [|w].
    - apply Forall2_length in Hworld. simpl in Hworld.
      destruct world; [|discriminate Hworld]. simpl. now rewrite app_nil_r.
    - simpl. now rewrite foldl_app_concat. }
  exists (concat (data :: world)). split; [reflexivity|].
  split; [exact Hmerged|]. split.
  { rewrite <- (length_map raw dataset), <- (Permutation_length Hrows).
    now rewrite length_map. }
  split; [exact Hrows|]. split.
  - intros world' Hperm. rewrite <- Hrows.
    apply Permutation_map. now apply concat_outer_permutation.
  - intros r data_r Hr Hw1. unfold gather_objects, is_main_process. simpl.
    destruct w as [|w]; [lia|]. simpl.
    destruct r as [|r]; [lia | reflexivity].
Qed.

Lemma gather_objects_complete_witness :
  (1 <= 2)%nat
  /\ Nat.divide 2 (length four_rows)
  /\ Forall2 (fun r data =>
                run_worker char_tokenizer 0 newline parity_classify four_rows
                  (mkAccelerator 2 r "MULTI_GPU") = Ok data)
        (seq 0 2) (world_of four_rows 2 "MULTI_GPU")
  /\ exists data merged : list Example,
        gather_objects (world_of four_rows 2 "MULTI_GPU") data
          (mkAccelerator 2 0 "MULTI_GPU") = Some merged
        /\ length merged = 4%nat
        /\ map raw merged ≡ₚ four_rows.
Proof.
  assert (Hw : (1 <= 2)%nat) by (repeat constructor).
  assert (Hdiv : Nat.divide 2 (length four_rows)) by (exists 2%nat; reflexivity).
  assert (Hrun : Forall2
            (fun r data =>
               run_worker char_tokenizer 0 newline parity_classify four_rows
                 (mkAccelerator 2 r "MULTI_GPU") = Ok data)
            (seq 0 2) (world_of four_rows 2 "MULTI_GPU")).
  { repeat constructor; vm_compute; reflexivity. }
  split; [exact Hw|]. split; [exact Hdiv|]. split; [exact Hrun|].
  destruct (gather_objects_complete char_tokenizer 0 newline parity_classify
              four_rows 2 "MULTI_GPU" (world_of four_rows 2 "MULTI_GPU") Hw
              (or_intror (conj eq_refl Hdiv)) Hrun)
    as (data & merged & _ & Hg & Hlen & Hperm & _).
  exists data, merged. split; [exact Hg|]. split; [exact Hlen | exact Hperm].
Defined.

(** C5, where exactly-once fails: three examples on two processes.  The
    distributed sampler pads the index list to four entries, rank 0 scores
    the examples 0 and 2 and rank 1 the examples 1 and 0, both processes
    complete, and the gather returns four rows in which the first example
    appears twice. *)
Lemma gather_objects_duplicates_padding :
  map (fun r => sampler (mkAccelerator 2 r "MULTI_GPU") (length three_rows))
    [0%nat; 1%nat]
  = [[0%nat; 2%nat]; [1%nat; 0%nat]]
  /\ Forall2 (fun r data =>
                run_worker char_tokenizer 0 newline parity_classify three_rows
                  (mkAccelerator 2 r "MULTI_GPU") = Ok data)
        (seq 0 2) (world_of three_rows 2 "MULTI_GPU")
  /\ exists data merged : list Example,
        world_of three_rows 2 "MULTI_GPU" !! 0%nat = Some data
        /\ gather_objects (world_of three_rows 2 "MULTI_GPU") data
             (mkAccelerator 2 0 "MULTI_GPU") = Some merged
        /\ map problem merged = ["a"; "c"; "b"; "a"]
        /\ length merged = 4%nat
        /\ length merged <> length three_rows
        /\ ~ (map raw merged ≡ₚ map raw three_rows).
Proof.
  split; [reflexivity|]. split.
  { repeat constructor; vm_compute; reflexivity. }
  eexists _, _. split; [vm_compute; reflexivity|].
  split; [vm_compute; reflexivity|].
  split; [reflexivity|]. split; [reflexivity|]. split; [discriminate|].
  intros H. apply Permutation_length in H. discriminate H.
Qed.

(** Under the distributed sampler in general, the gathered rows are the
    rows of the padded index list: [ceil(N / W) * W] of them. *)
Lemma gathered_rows_padded (dataset : list Example) (w : nat)
    (world : list (list Example)) :
  (1 <= w)%nat ->
  Forall2 (fun r data =>
             scored_shard dataset (mkAccelerator w r "MULTI_GPU") data)
    (seq 0 w) world ->
  map raw (concat world)
  ≡ₚ omap (fun i => raw <$> dataset !! i)
       (padded_indices (length dataset) (ceil_div (length dataset) w * w)).
Proof.
  intros Hw Hworld. rewrite (world_rows _ _ _ _ Hworld).
  apply omap_Permutation. unfold sampler. simpl.
  now apply distributed_sampler_covers.
Qed.

(** * Further properties of the script *)

(** ** More on the step judge *)

Lemma nonzero_from_app i mask1 mask2 :
  nonzero_from i (mask1 ++ mask2)
  = nonzero_from i mask1
    ++ nonzero_from (i + Z.of_nat (length mask1)) mask2.
Proof.
  revert i. induction mask1 as [|b mask1 IH]; intros i; simpl.
  - now rewrite Z.add_0_r.
  - rewrite IH.
    replace (i + 1 + Z.of_nat (length mask1))
      with (i + Z.pos (Pos.of_succ_nat (length mask1))) by lia.
    now destruct b.
Qed.

Lemma nonzero_from_shift i mask :
  nonzero_from i mask = map (fun k => i + k) (nonzero_from 0 mask).
Proof.
  revert i. induction mask as [|b mask IH]; intros i; [reflexivity|].
  simpl. rewrite (IH (i + 1)), (IH (0 + 1)).
  assert (E : map (fun k => i + 1 + k) (nonzero_from 0 mask)
              = map (fun k => i + k)
                  (map (fun k => 0 + 1 + k) (nonzero_from 0 mask))).
  { rewrite map_map. apply map_ext. intros k. lia. }
  rewrite E. destruct b; simpl; [|reflexivity].
  now rewrite Z.add_0_r.
Qed.

(** X1. The scan of a concatenation: a zero in the first part decides the
    result whatever follows; otherwise the result is the result on the
    second part moved by the length of the first, and -1 when neither part
    has a zero. *)
Theorem find_first_zero_app (tensor1 tensor2 : list Z) :
  find_first_zero (tensor1 ++ tensor2)
  = if decide (find_first_zero tensor1 = -1)
    then if decide (find_first_zero tensor2 = -1)
         then -1
         else Z.of_nat (length tensor1) + find_first_zero tensor2
    else find_first_zero tensor1.
Proof.
  unfold find_first_zero, nonzero, eq_zero.
  rewrite map_app, nonzero_from_app, length_map. simpl.
  pose proof (nonzero_from_head 0 (map (fun x => x =? 0) tensor1)) as H1.
  pose proof (nonzero_from_head 0 (map (fun x => x =? 0) tensor2)) as H2.
  rewrite (nonzero_from_shift (Z.of_nat (length tensor1))).
  destruct (nonzero_from 0 (map (fun x => x =? 0) tensor1)) as [|z1 zs1].
  - simpl.
    destruct (nonzero_from 0 (map (fun x => x =? 0) tensor2)) as [|z2 zs2].
    + reflexivity.
    + simpl. destruct H2 as (k & -> & _).
      repeat case_decide; (reflexivity || lia).
  - simpl. destruct H1 as (k & -> & _).
    repeat case_decide; (reflexivity || lia).
Qed.

(** ** More on the packer and the encoder *)

(** X2. The three outcomes of [collate_fn]: [ValueError] exactly on the
    empty batch (the maximum of no lengths), [RuntimeError] exactly on a
    non-empty batch with a row of one token, and a packed batch in every
    other case. *)
Theorem collate_fn_outcome (tokenizer : string -> list Z) (pad_token_id : Z)
    (separator : string) (batch : list Example) :
  (batch = []
   /\ collate_fn tokenizer pad_token_id batch separator = Raise ValueError)
  \/ (batch <> []
      /\ Exists (fun e => length (encode tokenizer separator e).1 = 1%nat)
           batch
      /\ collate_fn tokenizer pad_token_id batch separator
         = Raise RuntimeError)
  \/ (batch <> []
      /\ Forall (fun e => length (encode tokenizer separator e).1 <> 1%nat)
           batch
      /\ is_ok (collate_fn tokenizer pad_token_id batch separator)).
Proof.
  destruct batch as [|e0 batch]; [left; split; reflexivity|]. right.
  destruct (decide (Exists (fun e =>
              length (encode tokenizer separator e).1 = 1%nat) (e0 :: batch)))
    as [Hex|Hnex].
  - left. split; [discriminate|]. split; [exact Hex|].
    unfold collate_fn. cbn [map py_max bind].
    rewrite mapM_pad_rows_raise; [reflexivity|].
    change (Exists (fun r : list Z => length r = 1%nat)
              (map fst (map (encode tokenizer separator) (e0 :: batch)))).
    rewrite map_map. apply Exists_fmap. exact Hex.
  - right. split; [discriminate|].
    assert (Hall : Forall (fun e =>
              length (encode tokenizer separator e).1 <> 1%nat) (e0 :: batch)).
    { apply Forall_forall. intros e He Hlen. apply Hnex.
      apply Exists_exists. exists e. split; assumption. }
    split; [exact Hall|]. apply collate_fn_ok; [discriminate | exact Hall].
Qed.

(** X3. A non-empty batch without one-token rows is packed into a
    rectangle: a row per example, every row as long as the longest token
    row of the batch, each row being the tokens of its example followed by
    pad tokens only, while labels and score positions are those of the
    examples, in order. *)
Theorem collate_fn_pads_to_longest (tokenizer : string -> list Z)
    (pad_token_id : Z) (separator : string) (batch : list Example) :
  batch <> [] ->
  Forall (fun e => length (encode tokenizer separator e).1 <> 1%nat) batch ->
  exists (b : Batch) (max_len : nat),
    collate_fn tokenizer pad_token_id batch separator = Ok b
    /\ max_len ∈ map (fun e => length (encode tokenizer separator e).1) batch
    /\ Forall (fun e => (length (encode tokenizer separator e).1 <= max_len)%nat)
         batch
    /\ length (input_ids b) = length batch
    /\ Forall (fun row => length row = max_len) (input_ids b)
    /\ (forall i e, batch !! i = Some e ->
          input_ids b !! i
          = Some ((encode tokenizer separator e).1
                  ++ replicate (max_len
                                - length (encode tokenizer separator e).1)
                       pad_token_id))
    /\ labels b = map label batch
    /\ score_ids b = map (fun e => (encode tokenizer separator e).2) batch.
Proof.
  intros Hne Hrows.
  destruct (is_ok_inv _ (collate_fn_ok tokenizer pad_token_id separator batch
                           Hne Hrows)) as (b & Hb).
  destruct (collate_fn_inv _ _ _ _ _ Hb)
    as (max_len & Hin & Hall & Hids & Hlabels & Hscore).
  exists b, max_len. split; [exact Hb|]. split; [exact Hin|]. split.
  { eapply Forall_impl; [exact Hall|]. now intros e [He _]. }
  split; [now rewrite Hids, length_map|]. split.
  { rewrite Hids, Forall_fmap. eapply Forall_impl; [exact Hall|].
    intros e [He _]. simpl in *. rewrite length_app, length_replicate. lia. }
  split; [|split; assumption].
  intros i e Hi. now rewrite Hids, list_lookup_fmap, Hi.
Qed.

Lemma collate_fn_pads_to_longest_witness :
  exists b : Batch,
    collate_fn char_tokenizer 0 [example_two_steps; example_no_steps] newline
    = Ok b
    /\ length (input_ids b) = 2%nat
    /\ labels b = [1; -1].
Proof.
  destruct (collate_fn_pads_to_longest char_tokenizer 0 newline
              [example_two_steps; example_no_steps])
    as (b & max_len & Hb & _ & _ & Hlen & _ & _ & Hlabels & _).
  - discriminate.
  - repeat constructor; discriminate.
  - exists b. split; [exact Hb|]. split; [exact Hlen | exact Hlabels].
Defined.

(** X4. Packing does not depend on the other examples of the batch: an
    example that sits in two packed batches gets the same label and the
    same score positions in both, and each of its two rows starts with its
    own tokens and continues with pad tokens only. *)
Theorem collate_fn_batch_independent (tokenizer : string -> list Z)
    (pad_token_id : Z) (separator : string) (batch1 batch2 : list Example)
    (b1 b2 : Batch) (i1 i2 : nat) (e : Example) :
  collate_fn tokenizer pad_token_id batch1 separator = Ok b1 ->
  collate_fn tokenizer pad_token_id batch2 separator = Ok b2 ->
  batch1 !! i1 = Some e ->
  batch2 !! i2 = Some e ->
  score_ids b1 !! i1 = score_ids b2 !! i2
  /\ labels b1 !! i1 = labels b2 !! i2
  /\ exists (row1 row2 : list Z) (n : nat),
       n = length (encode tokenizer separator e).1
       /\ input_ids b1 !! i1 = Some row1
       /\ input_ids b2 !! i2 = Some row2
       /\ take n row1 = (encode tokenizer separator e).1
       /\ take n row2 = (encode tokenizer separator e).1
       /\ Forall (fun t => t = pad_token_id) (drop n row1)
       /\ Forall (fun t => t = pad_token_id) (drop n row2).
Proof.
  intros H1 H2 Hi1 Hi2.
  apply collate_fn_inv in H1 as (m1 & _ & _ & Hids1 & Hl1 & Hs1).
  apply collate_fn_inv in H2 as (m2 & _ & _ & Hids2 & Hl2 & Hs2).
  rewrite Hs1, Hs2, Hl1, Hl2, Hids1, Hids2, !list_lookup_fmap, Hi1, Hi2.
  split; [reflexivity|]. split; [reflexivity|]. simpl.
  eexists _, _, _. split; [reflexivity|].
  split; [reflexivity|]. split; [reflexivity|].
  rewrite !take_app_length, !drop_app_length.
  split; [reflexivity|]. split; [reflexivity|].
  split; apply Forall_replicate; reflexivity.
Qed.

Lemma collate_fn_batch_independent_witness :
  exists b1 b2 : Batch,
    collate_fn char_tokenizer 0 [example_two_steps; example_no_steps] newline
    = Ok b1
    /\ collate_fn char_tokenizer 0 [example_two_steps] newline = Ok b2
    /\ score_ids b1 !! 0%nat = score_ids b2 !! 0%nat.
Proof.
  eexists _, _. split; [reflexivity|]. split; [reflexivity|].
  exact (proj1 (collate_fn_batch_independent char_tokenizer 0 newline
                  [example_two_steps; example_no_steps] [example_two_steps]
                  _ _ 0%nat 0%nat example_two_steps
                  eq_refl eq_refl eq_refl eq_refl)).
Defined.

Lemma step_ends_app base lens1 lens2 :
  step_ends base (lens1 ++ lens2)
  = step_ends base lens1 ++ step_ends (base + sum_list lens1) lens2.
Proof.
  revert base. induction lens1 as [|n lens1 IH]; intros base; simpl.
  - now rewrite Nat.add_0_r.
  - rewrite IH. do 3 f_equal. lia.
Qed.

Lemma step_ends_last base lens :
  last (step_ends base lens)
  = match lens with
    | [] => None
    | _ => Some (Z.of_nat (base + sum_list lens) - 1)
    end.
Proof.
  revert base. induction lens as [|n lens IH]; intros base; [reflexivity|].
  simpl step_ends. destruct lens as [|m lens].
  - simpl. do 3 f_equal. lia.
  - change (last (?x :: step_ends ?b (m :: lens)))
      with (last (step_ends b (m :: lens))).
    rewrite IH. do 3 f_equal. simpl. lia.
Qed.

(** X5. Where the score positions lie: every score position is at least
    the index of the last prompt token and below the length of the row,
    and when the example has steps the last score position is the index of
    the last token of the row. *)
Theorem encode_positions_range_and_last (tokenizer : string -> list Z)
    (separator : string) (e : Example) :
  let prompt := tokenizer (problem e +:+ separator) in
  let row := (encode tokenizer separator e).1 in
  let positions := (encode tokenizer separator e).2 in
  Forall (fun p => Z.of_nat (length prompt) - 1 <= p < Z.of_nat (length row))
    positions
  /\ last positions
     = match steps e with
       | [] => None
       | _ => Some (Z.of_nat (length row) - 1)
       end.
Proof.
  intros prompt row positions. subst row positions.
  rewrite encode_unfold. simpl. fold prompt.
  rewrite length_app, length_concat_sum, map_map.
  set (lens := map _ (steps e)). split.
  - pose proof (step_ends_lower_bound (length prompt) lens) as Hlo.
    pose proof (step_ends_upper_bound (length prompt) lens) as Hhi.
    rewrite Forall_forall in Hlo, Hhi. apply Forall_forall.
    intros p Hp. specialize (Hlo p Hp). specialize (Hhi p Hp). simpl in *. lia.
  - rewrite step_ends_last. subst lens. now destruct (steps e).
Qed.

(** X6. Later steps do not move earlier score positions: appending steps
    to an example appends their tokens to its row and their score positions
    to its score positions, so the row and the score positions of the
    shorter example are prefixes of those of the longer one, and every
    added position lies beyond the row of the shorter example or at its
    end. *)
Theorem encode_steps_prefix_stable (tokenizer : string -> list Z)
    (separator : string) (e : Example) (more : list string) :
  let longer :=
    mkExample (problem e) (steps e ++ more) (label e) (prediction e)
      (match_ e) in
  let row := (encode tokenizer separator e).1 in
  let positions := (encode tokenizer separator e).2 in
  (encode tokenizer separator longer).1
  = row ++ concat (map (fun j => tokenizer (j +:+ newline)) more)
  /\ take (length positions) (encode tokenizer separator longer).2 = positions
  /\ length (encode tokenizer separator longer).2
     = (length positions + length more)%nat
  /\ Forall (fun p => Z.of_nat (length row) - 1 <= p)
       (drop (length positions) (encode tokenizer separator longer).2).
Proof.
  intros longer row positions. subst longer row positions.
  rewrite !encode_unfold. simpl.
  rewrite !map_app, concat_app, step_ends_app.
  split; [now rewrite app_assoc|]. split; [apply take_app_length|].
  split; [now rewrite length_app, !step_ends_length, !length_map|].
  rewrite drop_app_length.
  rewrite length_app, length_concat_sum, map_map.
  apply step_ends_lower_bound.
Qed.

(** ** More on the scoring loop *)

Lemma mapM_deref_weaken (s s1 : gmap positive Example) (l : list positive)
    (rows : list Example) :
  s ⊆ s1 -> mapM (deref s) l = Ok rows -> mapM (deref s1) l = Ok rows.
Proof.
  intros Hsub. revert rows.
  induction l as [|x l IH]; intros rows H; simpl in *; [exact H|].
  apply bind_ok_inv in H as (e & He & H).
  apply bind_ok_inv in H as (es & Hes & H). injection H as <-.
  unfold deref in He. destruct (s !! x) as [e0|] eqn:Hs; [|discriminate].
  injection He as ->. unfold deref at 1.
  rewrite (lookup_weaken _ _ _ _ Hs Hsub). simpl.
  now rewrite (IH _ Hes).
Qed.

Lemma judged_scored (score_id : list Z) (e' e : Example) :
  same_row e' e -> judged score_id (label e) e' ->
  exists p : Z,
    e' = scored e p /\ step_index_or_sentinel p (length score_id).
Proof.
  intros (H1 & H2 & H3) (p & Hp & Hrange & Hm). exists p.
  split; [|exact Hrange]. destruct e'. simpl in *. unfold scored.
  now subst.
Qed.

(** When the entries of [new_batch] are distinct objects, the pass for
    index [j] is the only one that writes the [j]-th object. *)
Lemma score_loop_exact (classify : list (list Z) -> nat -> nat -> Z)
    (ids : list (list Z)) (labels : list Z) (new_batch : list positive) :
  NoDup new_batch ->
  forall (rest : list (list Z)) (i : nat) (s s' : gmap positive Example),
    score_loop classify ids labels new_batch s i rest = Ok s' ->
    forall (j : nat) (l : positive),
      new_batch !! j = Some l ->
      ((j < i)%nat -> s' !! l = s !! l)
      /\ ((i <= j < i + length rest)%nat ->
          exists (sid : list Z) (lab : Z) (pred : list Z) (e : Example),
            rest !! (j - i)%nat = Some sid /\ labels !! j = Some lab
            /\ argmax_at classify ids j sid = Ok pred /\ s !! l = Some e
            /\ s' !! l
               = Some (set_match (find_first_zero pred =? lab)
                         (set_prediction (find_first_zero pred) e))).
Proof.
  intros Hnd. induction rest as [|score_id rest IH]; intros i s s' H j l Hj;
    simpl in H.
  - injection H as <-. split; [reflexivity | simpl; lia].
  - apply bind_ok_inv in H as (s2 & Hstep & H).
    apply score_example_inv in Hstep
      as (lab & pred & li & e & Hlab & Hpred & Hli & He & ->).
    destruct (IH _ _ _ H j l Hj) as [IHlt IHge]. split.
    + intros Hlt. rewrite IHlt by lia. apply lookup_insert_ne.
      intros ->. pose proof (NoDup_lookup _ _ _ _ Hnd Hli Hj). lia.
    + intros Hrange. destruct (decide (j = i)) as [->|Hne].
      * rewrite Hli in Hj. injection Hj as <-.
        rewrite IHlt by lia. rewrite lookup_insert_eq.
        exists score_id, lab, pred, e. rewrite Nat.sub_diag.
        split; [reflexivity|]. split; [exact Hlab|]. split; [exact Hpred|].
        split; [exact He | reflexivity].
      * destruct IHge as (sid & lab' & pred' & e' & Hsid & Hlab' & Hpred'
                          & He' & Hs'); [simpl in Hrange; lia|].
        exists sid, lab', pred', e'.
        replace (j - i)%nat with (S (j - S i)) by lia.
        split; [exact Hsid|]. split; [exact Hlab'|]. split; [exact Hpred'|].
        split; [|exact Hs'].
        rewrite lookup_insert_ne in He'; [exact He'|].
        intros ->. pose proof (NoDup_lookup _ _ _ _ Hnd Hli Hj). lia.
Qed.

(** X7. What the scoring loop stores.  For a batch of distinct live rows
    that is scored without an exception, the [i]-th row appended to
    [res_data] holds the keys of the [i]-th example, as prediction the
    index of the first score position of that example whose class in row
    [i] of the packed batch is 0 (-1 when there is none), and as match the
    comparison of that prediction with the label. *)
Theorem process_batch_stores_first_zero (tokenizer : string -> list Z)
    (pad_token_id : Z) (separator : string)
    (classify : list (list Z) -> nat -> nat -> Z)
    (s s' : gmap positive Example) (res_data res_data' batch_ : list positive)
    (rows : list Example) :
  NoDup batch_ ->
  mapM (deref s) batch_ = Ok rows ->
  process_batch tokenizer pad_token_id separator classify s res_data batch_
  = Ok (s', res_data') ->
  exists b : Batch,
    collate_fn tokenizer pad_token_id rows separator = Ok b
    /\ forall (i : nat) (e : Example),
         rows !! i = Some e ->
         exists (x' : positive) (pred : list Z),
           res_data' !! (length res_data + i)%nat = Some x'
           /\ argmax_at classify (input_ids b) i
                (encode tokenizer separator e).2 = Ok pred
           /\ s' !! x' = Some (scored e (find_first_zero pred)).
Proof.
  intros Hnd Hlive H. unfold process_batch in H.
  apply bind_ok_inv in H as ([s1 nb] & Hcopy & H). simpl in H.
  apply deepcopy_spec in Hcopy as (Hsub & Hnew & Halias).
  rewrite (mapM_deref_weaken _ _ _ _ Hsub Hlive) in H. simpl in H.
  apply bind_ok_inv in H as (b & Hb & H).
  apply bind_ok_inv in H as (s2 & Hloop & H). injection H as <- <-.
  exists b. split; [exact Hb|].
  apply collate_fn_inv in Hb as (max_len & _ & _ & _ & Hlabels & Hscore).
  assert (Hnd' : NoDup nb).
  { apply NoDup_alt. intros i j x' Hi Hj.
    pose proof (Halias _ _ _ Hi Hj) as Hij.
    destruct (Forall2_lookup_r _ _ _ _ _ Hnew Hi) as (x & Hx & _).
    rewrite Hx in Hij. symmetry in Hij.
    exact (NoDup_lookup _ _ _ _ Hnd Hx Hij). }
  pose proof (deref_rows_lookup _ _ _ Hlive) as Hrow.
  assert (Hlen : length batch_ = length rows).
  { apply mapM_ok_inv in Hlive. eapply Forall2_length. exact Hlive. }
  intros i e Hi.
  destruct (lookup_lt_is_Some_2 batch_ i) as [x Hx].
  { rewrite Hlen. eapply lookup_lt_Some. exact Hi. }
  destruct (Forall2_lookup_l _ _ _ _ _ Hnew Hx) as (x' & Hx' & _ & e1 & He1 & He1').
  destruct (Hrow _ _ Hx) as (e2 & He2 & Hi2).
  rewrite Hi in Hi2. injection Hi2 as <-.
  rewrite (lookup_weaken _ _ _ _ He2 Hsub) in He1. injection He1 as <-.
  destruct (score_loop_exact classify _ _ _ Hnd' _ _ _ _ Hloop i x' Hx')
    as [_ Hat].
  destruct Hat as (sid & lab & pred & e0 & Hsid & Hlab & Hpred & He0 & Hs2).
  { rewrite Hscore, length_map. split; [lia|]. simpl.
    eapply lookup_lt_Some. exact Hi. }
  rewrite Nat.sub_0_r, Hscore, list_lookup_fmap, Hi in Hsid.
  injection Hsid as <-.
  rewrite Hlabels, list_lookup_fmap, Hi in Hlab. injection Hlab as <-.
  rewrite He1' in He0. injection He0 as <-.
  exists x', pred. split.
  - rewrite lookup_app_r by lia.
    now replace (length res_data + i - length res_data)%nat with i by lia.
  - split; [exact Hpred | exact Hs2].
Qed.

Lemma process_batch_stores_first_zero_witness :
  exists (s' : gmap positive Example) (res_data' : list positive)
         (b : Batch) (x' : positive),
    process_batch char_tokenizer 0 newline parity_classify store_two []
      [1%positive; 2%positive] = Ok (s', res_data')
    /\ collate_fn char_tokenizer 0 [example_two_steps; example_no_steps]
         newline = Ok b
    /\ res_data' !! 0%nat = Some x'
    /\ s' !! x' = Some (scored example_two_steps 0).
Proof.
  destruct (process_batch char_tokenizer 0 newline parity_classify store_two []
              [1%positive; 2%positive]) as [[s' res_data']|err] eqn:H.
  - assert (Hnd : NoDup [1%positive; 2%positive]).
    { apply NoDup_cons. split; [|apply NoDup_singleton].
      intros Hin. apply list_elem_of_singleton in Hin. discriminate Hin. }
    destruct (process_batch_stores_first_zero char_tokenizer 0 newline
                parity_classify store_two s' [] res_data'
                [1%positive; 2%positive]
                [example_two_steps; example_no_steps] Hnd eq_refl H)
      as (b & Hb & Hall).
    destruct (Hall 0%nat example_two_steps eq_refl)
      as (x' & pred & Hx' & Hpred & Hs').
    exists s', res_data', b, x'. split; [reflexivity|].
    split; [exact Hb|]. split; [exact Hx'|].
    rewrite Hs'. do 2 f_equal.
    vm_compute in Hb. injection Hb as <-.
    vm_compute in Hpred. injection Hpred as <-. reflexivity.
  - vm_compute in H. discriminate H.
Defined.

(** X8. A batch is scored without an exception, and grows [res_data] by one
    new row per example, when it is not empty, its references are live and
    every example encodes to at least two tokens; each new row is the
    example with a prediction that is -1 or the index of one of its steps,
    and the match of that prediction with the label. *)
Theorem process_batch_total (tokenizer : string -> list Z) (pad_token_id : Z)
    (separator : string) (classify : list (list Z) -> nat -> nat -> Z)
    (s : gmap positive Example) (res_data batch_ : list positive) :
  batch_ <> [] ->
  Forall (fun x => exists e, s !! x = Some e
                     /\ (2 <= length (encode tokenizer separator e).1)%nat)
    batch_ ->
  exists (s' : gmap positive Example) (new_batch : list positive),
    process_batch tokenizer pad_token_id separator classify s res_data batch_
    = Ok (s', res_data ++ new_batch)
    /\ Forall2
         (fun x x' =>
            (x' ∉ dom s)
            /\ exists (e : Example) (p : Z),
                 s !! x = Some e /\ s' !! x' = Some (scored e p)
                 /\ step_index_or_sentinel p (length (steps e)))
         batch_ new_batch.
Proof.
  intros Hne Hall.
  destruct (is_ok_inv _ (process_batch_ok tokenizer pad_token_id separator
                           classify s res_data batch_ Hne Hall))
    as ([s' res'] & H).
  destruct (process_batch_spec _ _ _ _ _ _ _ _ _ H) as (nb & -> & _ & Hnew).
  exists s', nb. split; [exact H|].
  apply Forall2_same_length_lookup.
  split; [eapply Forall2_length; exact Hnew|].
  intros i x x' Hx Hx'.
  destruct (Forall2_lookup_lr _ _ _ _ _ _ Hnew Hx Hx') as (Hfresh & Hj).
  split; [exact Hfresh|].
  rewrite Forall_forall in Hall.
  destruct (Hall x) as (e & He & _); [eapply list_elem_of_lookup_2; exact Hx|].
  destruct (Hj e He) as (e' & He' & Hsame & Hjudged).
  destruct (judged_scored _ _ _ Hsame Hjudged) as (p & -> & Hp).
  exists e, p. split; [exact He|]. split; [exact He'|].
  now rewrite <- (encode_positions_length tokenizer separator e).
Qed.

Lemma process_batch_total_witness :
  exists (s' : gmap positive Example) (new_batch : list positive),
    process_batch char_tokenizer 0 newline parity_classify store_two []
      [1%positive; 2%positive] = Ok (s', [] ++ new_batch)
    /\ length new_batch = 2%nat.
Proof.
  destruct (process_batch_total char_tokenizer 0 newline parity_classify
              store_two [] [1%positive; 2%positive])
    as (s' & nb & H & Hnew).
  - discriminate.
  - repeat constructor.
    + exists example_two_steps. split; [reflexivity | vm_compute; lia].
    + exists example_no_steps. split; [reflexivity | vm_compute; lia].
  - exists s', nb. split; [exact H|].
    symmetry. exact (Forall2_length _ _ _ Hnew).
Defined.

(** ** The dataloader's batches *)

Lemma batches_fuel_lookup (batch_size : nat) :
  (1 <= batch_size)%nat ->
  forall (fuel : nat) (indices : list nat) (k : nat) (b : list nat),
    (length indices <= fuel)%nat ->
    batches_fuel fuel batch_size indices !! k = Some b ->
    b = take batch_size (drop (k * batch_size) indices) /\ b <> [].
Proof.
  intros Hbs. induction fuel as [|fuel IH]; intros indices k b Hlen H.
  - simpl in H. rewrite lookup_nil in H. discriminate H.
  - destruct indices as [|i indices];
      [simpl in H; rewrite lookup_nil in H; discriminate H|].
    cbn [batches_fuel] in H. destruct k as [|k].
    + injection H as <-. split; [reflexivity|].
      destruct batch_size; [lia | discriminate].
    + change ((?x :: ?l) !! S k) with (l !! k) in H.
      apply IH in H as [-> Hne]; [|rewrite length_drop; simpl in *; lia].
      split; [|exact Hne]. rewrite drop_drop. f_equal; f_equal; lia.
Qed.

Lemma batches_fuel_length (batch_size : nat) :
  (1 <= batch_size)%nat ->
  forall (fuel : nat) (indices : list nat),
    (length indices <= fuel)%nat ->
    length (batches_fuel fuel batch_size indices)
    = ceil_div (length indices) batch_size.
Proof.
  intros Hbs.
  assert (Hzero : ceil_div 0 batch_size = 0%nat).
  { unfold ceil_div. apply Nat.div_small. lia. }
  induction fuel as [|fuel IH]; intros indices Hlen.
  - destruct indices; [symmetry; exact Hzero | simpl in Hlen; lia].
  - destruct indices as [|i indices]; [symmetry; exact Hzero|].
    cbn [batches_fuel length]. rewrite IH by (rewrite length_drop; simpl in *; lia).
    rewrite length_drop. cbn [length]. set (n := length indices).
    unfold ceil_div.
    replace (S n + batch_size - 1)%nat with (n + 1 * batch_size)%nat by lia.
    rewrite Nat.div_add by lia.
    destruct (Nat.le_gt_cases (S n) batch_size) as [Hle|Hgt].
    + replace (S n - batch_size)%nat with 0%nat by lia.
      rewrite !Nat.div_small by lia. reflexivity.
    + replace (S n - batch_size + batch_size - 1)%nat with n by lia. lia.
Qed.

(** ** The index lists of the sampler *)

Lemma concat_replicate_lookup {A} (l : list A) (c j : nat) :
  (j < c * length l)%nat ->
  concat (replicate c l) !! j = l !! (j mod length l)%nat.
Proof.
  revert j. induction c as [|c IH]; intros j Hj; [simpl in Hj; lia|].
  simpl. destruct (Nat.lt_ge_cases j (length l)) as [Hlt|Hge].
  - rewrite lookup_app_l by exact Hlt. now rewrite Nat.mod_small.
  - rewrite lookup_app_r by exact Hge. rewrite IH by (simpl in Hj; lia).
    f_equal.
    replace j with ((j - length l) + 1 * length l)%nat at 2 by lia.
    now rewrite Nat.Div0.mod_add.
Qed.

(** The padded index list repeats the indices of the dataset cyclically. *)
Lemma padded_indices_lookup (n total_size j : nat) :
  (1 <= n)%nat -> (n <= total_size)%nat -> (j < total_size)%nat ->
  padded_indices n total_size !! j = Some (j mod n)%nat.
Proof.
  intros Hn Hle Hj. unfold padded_indices. rewrite length_seq.
  assert (Hseq : forall k, (k < n)%nat -> seq 0 n !! k = Some k).
  { intros k Hk. now rewrite lookup_seq_lt. }
  destruct (Nat.lt_ge_cases j n) as [Hlt|Hge].
  - assert (E : forall tl, (seq 0 n ++ tl) !! j = Some (j mod n)%nat).
    { intros tl. rewrite lookup_app_l by (rewrite length_seq; exact Hlt).
      rewrite Nat.mod_small by exact Hlt. now apply Hseq. }
    destruct (total_size - n <=? n)%nat; apply E.
  - destruct (Nat.leb_spec (total_size - n) n) as [Hpad|Hpad];
      rewrite lookup_app_r by (rewrite length_seq; exact Hge);
      rewrite length_seq, lookup_take_lt by lia.
    + rewrite Hseq by lia. f_equal.
      replace j with ((j - n) + 1 * n)%nat at 2 by lia.
      rewrite Nat.Div0.mod_add. symmetry. apply Nat.mod_small. lia.
    + rewrite concat_replicate_lookup, length_seq.
      * rewrite Hseq by (apply Nat.mod_upper_bound; lia). f_equal.
        replace j with ((j - n) + 1 * n)%nat at 2 by lia.
        now rewrite Nat.Div0.mod_add.
      * rewrite length_seq.
        pose proof (ceil_div_covers (total_size - n) n Hn). lia.
Qed.

Lemma omap_map_in {A B} (f : A -> option B) (g : A -> B) (l : list A) :
  (forall x, x ∈ l -> f x = Some (g x)) -> omap f l = map g l.
Proof.
  induction l as [|x l IH]; intros H; [reflexivity|].
  change (omap f (x :: l))
    with (match f x with Some y => y :: omap f l | None => omap f l end).
  rewrite (H x) by left. simpl. f_equal. apply IH.
  intros y Hy. apply H. now right.
Qed.

Lemma distributed_sampler_map (n w r : nat) :
  (1 <= n)%nat -> (r < w)%nat ->
  distributed_sampler n w r
  = map (fun k => ((r + k * w) mod n)%nat) (seq 0 (ceil_div n w)).
Proof.
  intros Hn Hr. unfold distributed_sampler.
  set (total := (ceil_div n w * w)%nat).
  assert (Hcov : (n <= total)%nat) by (apply ceil_div_covers; lia).
  assert (Hlen : length (padded_indices n total) = total).
  { apply padded_indices_length; [exact Hcov | lia]. }
  subst total. rewrite py_slice_columns by assumption.
  apply omap_map_in. intros k Hk. apply elem_of_seq in Hk.
  apply padded_indices_lookup; [exact Hn | exact Hcov | nia].
Qed.

Lemma sampler_in_range (accelerator : Accelerator) (n : nat) :
  Forall (fun i => (i < n)%nat) (sampler accelerator n).
Proof.
  apply Forall_forall. intros i Hi. unfold sampler in Hi.
  destruct (String.eqb _ _).
  - unfold distributed_sampler, py_slice in Hi.
    apply list_elem_of_omap in Hi as (k & _ & Hk).
    apply list_elem_of_lookup_2 in Hk. unfold padded_indices in Hk.
    assert (Hseq : forall tl, Forall (fun i => (i < n)%nat) tl ->
              i ∈ seq 0 n ++ tl -> (i < n)%nat).
    { intros tl Htl Hin. apply elem_of_app in Hin as [Hin|Hin].
      - apply elem_of_seq in Hin. lia.
      - rewrite Forall_forall in Htl. now apply Htl. }
    assert (Hall : Forall (fun i => (i < n)%nat) (seq 0 n)).
    { apply Forall_forall. intros j Hj. apply elem_of_seq in Hj. lia. }
    destruct (_ <=? _)%nat; eapply Hseq; try exact Hk.
    + now apply Forall_take.
    + apply Forall_take, Forall_concat, Forall_replicate. exact Hall.
  - apply elem_of_seq in Hi. lia.
Qed.

(** X9. The dataloader cuts the sampled indices into consecutive batches:
    the batches concatenate to the indices in order, there are
    [ceil(len(indices) / batch_size)] of them, the [k]-th holds the (at
    most) [batch_size] indices from position [k * batch_size] on, and no
    batch is empty, so the packer never sees an empty batch. *)
Theorem batches_shape (batch_size : nat) (indices : list nat) :
  (1 <= batch_size)%nat ->
  concat (batches batch_size indices) = indices
  /\ length (batches batch_size indices)
     = ceil_div (length indices) batch_size
  /\ forall (k : nat) (b : list nat),
       batches batch_size indices !! k = Some b ->
       b = take batch_size (drop (k * batch_size) indices)
       /\ b <> [] /\ (length b <= batch_size)%nat.
Proof.
  intros Hbs. unfold batches.
  split; [now apply batches_fuel_concat|].
  split; [now apply batches_fuel_length|].
  intros k b Hk.
  apply (batches_fuel_lookup batch_size Hbs) in Hk as [-> Hne];
    [|reflexivity].
  split; [reflexivity|]. split; [exact Hne|].
  rewrite length_take. lia.
Qed.

Lemma batches_shape_witness :
  (1 <= bs)%nat
  /\ concat (batches bs (seq 0 50)) = seq 0 50
  /\ length (batches bs (seq 0 50)) = 3%nat.
Proof.
  assert (Hbs : (1 <= bs)%nat) by (unfold bs; lia).
  split; [exact Hbs|].
  destruct (batches_shape bs (seq 0 50) Hbs) as (Hcat & Hlen & _).
  split; [exact Hcat|]. rewrite Hlen. reflexivity.
Defined.

(** X10. The distributed sampler deals the indices round-robin and wraps
    around: for a dataset of [n >= 1] rows and [w] processes, rank [r]
    gets the indices [(r + k * w) mod n] for [k = 0 .. ceil(n / w) - 1],
    so every rank gets the same number [ceil(n / w)] of indices. *)
Theorem distributed_sampler_round_robin (n w r : nat) :
  (1 <= n)%nat -> (r < w)%nat ->
  distributed_sampler n w r
  = map (fun k => ((r + k * w) mod n)%nat) (seq 0 (ceil_div n w))
  /\ length (distributed_sampler n w r) = ceil_div n w.
Proof.
  intros Hn Hr. rewrite distributed_sampler_map by assumption.
  split; [reflexivity|]. now rewrite length_map, length_seq.
Qed.

Lemma distributed_sampler_round_robin_witness :
  distributed_sampler 3 2 1 = [1%nat; 0%nat]
  /\ length (distributed_sampler 3 2 1) = 2%nat.
Proof.
  destruct (distributed_sampler_round_robin 3 2 1) as [Hidx Hlen];
    [lia | lia |].
  split; [rewrite Hidx; reflexivity | rewrite Hlen; reflexivity].
Defined.

(** X11. No example is left out by the sampling, whatever the number of
    processes and the distributed type: the index of every row of the
    dataset is among the indices of the process of rank [i mod w], and
    every index a process samples is an index of the dataset. *)
Theorem sampler_loses_no_example (w : nat) (dtype : string) (n i : nat) :
  (1 <= w)%nat -> (i < n)%nat ->
  i ∈ sampler (mkAccelerator w (i mod w) dtype) n
  /\ forall r : nat,
       Forall (fun j => (j < n)%nat) (sampler (mkAccelerator w r dtype) n).
Proof.
  intros Hw Hi. split; [|intros r; apply sampler_in_range].
  unfold sampler. simpl. destruct (String.eqb dtype "MULTI_GPU").
  - rewrite distributed_sampler_map
      by (try lia; apply Nat.mod_upper_bound; lia).
    apply (list_elem_of_lookup_2 _ (i / w)%nat).
    assert (Hk : (i / w < ceil_div n w)%nat).
    { unfold ceil_div.
      assert (H1 : ((i + 1 * w) / w <= (n + w - 1) / w)%nat)
        by (apply Nat.Div0.div_le_mono; lia).
      rewrite Nat.div_add in H1 by lia. lia. }
    rewrite list_lookup_fmap, lookup_seq_lt by exact Hk. simpl. f_equal.
    pose proof (Nat.div_mod_eq i w) as Hdm.
    replace (i mod w + i / w * w)%nat with i by lia.
    now apply Nat.mod_small.
  - apply elem_of_seq. lia.
Qed.

Lemma sampler_loses_no_example_witness :
  (2%nat ∈ sampler (mkAccelerator 2 0 "MULTI_GPU") 3)
  /\ sampler (mkAccelerator 2 0 "MULTI_GPU") 3 = [0%nat; 2%nat].
Proof.
  destruct (sampler_loses_no_example 2 "MULTI_GPU" 3 2) as [Hin _];
    [lia | lia |].
  split; [exact Hin | reflexivity].
Defined.

(** ** The loop of one process, end to end *)

Lemma foldM_fetch_ok (dataset : list Example) (idxs : list nat) :
  Forall (fun i => (i < length dataset)%nat) idxs ->
  forall (s : gmap positive Example) (b0 : list positive),
    is_ok (foldM (fetch dataset) (s, b0) idxs).
Proof.
  induction 1 as [|i idxs Hi _ IH]; intros s b0; simpl; [exact I|].
  unfold fetch at 1, getitem. simpl.
  destruct (lookup_lt_is_Some_2 dataset i Hi) as [e ->]. simpl. apply IH.
Qed.

Lemma map_raw_concat (world : list (list Example)) (rows : list Example) :
  Forall (fun data => map raw data = rows) world ->
  map raw (concat world) = concat (replicate (length world) rows).
Proof.
  induction 1 as [|data world Hd _ IH]; [reflexivity|].
  simpl. now rewrite map_app, Hd, IH.
Qed.

Section WorkerRuns.
Variable tokenizer : string -> list Z.
Variable pad_token_id : Z.
Variable separator : string.
Variable classify : list (list Z) -> nat -> nat -> Z.
Variable dataset : list Example.

Let judged_row (s : gmap positive Example) (l : positive) (i : nat) : Prop :=
  exists (e : Example) (p : Z),
    dataset !! i = Some e /\ s !! l = Some (scored e p)
    /\ step_index_or_sentinel p (length (steps e)).

Lemma worker_step_judged (s s' : gmap positive Example)
    (res res' : list positive) (idxs : list nat) :
  worker_step tokenizer pad_token_id separator classify dataset (s, res) idxs
  = Ok (s', res') ->
  (forall l e, s !! l = Some e -> s' !! l = Some e)
  /\ exists nb : list positive,
       res' = res ++ nb /\ Forall2 (judged_row s') nb idxs.
Proof.
  unfold worker_step. simpl. intros H.
  apply bind_ok_inv in H as ([s1 batch_] & Hload & H). simpl in H.
  apply foldM_fetch_spec in Hload as (Hsub & new & Hnew & Hrows).
  simpl in Hnew. subst new.
  apply process_batch_spec in H as (nb & -> & Hframe & Hall).
  split.
  - intros l e He. apply Hframe. eapply lookup_weaken; eassumption.
  - exists nb. split; [reflexivity|].
    apply Forall2_same_length_lookup. split.
    + rewrite <- (Forall2_length _ _ _ Hall). eapply Forall2_length. exact Hrows.
    + intros k x' i Hx' Hi.
      destruct (Forall2_lookup_r _ _ _ _ _ Hrows Hi) as (x & Hx & e & He & Hs1).
      destruct (Forall2_lookup_lr _ _ _ _ _ _ Hall Hx Hx') as (_ & Hj).
      destruct (Hj e Hs1) as (e' & He' & Hsame & Hjudged).
      destruct (judged_scored _ _ _ Hsame Hjudged) as (p & -> & Hp).
      exists e, p. split; [exact He|]. split; [exact He'|].
      now rewrite <- (encode_positions_length tokenizer separator e).
Qed.

Lemma foldM_worker_judged (batch_list : list (list nat)) :
  forall (s s' : gmap positive Example) (res res' : list positive)
         (done : list nat),
    foldM (worker_step tokenizer pad_token_id separator classify dataset)
      (s, res) batch_list = Ok (s', res') ->
    Forall2 (judged_row s) res done ->
    Forall2 (judged_row s') res' (done ++ concat batch_list).
Proof.
  induction batch_list as [|idxs batch_list IH];
    intros s s' res res' done H Hinv; simpl in H.
  - injection H as <- <-. simpl. now rewrite app_nil_r.
  - apply bind_ok_inv in H as ([s1 res1] & Hstep & H).
    apply worker_step_judged in Hstep as (Hframe & nb & -> & Hnew).
    simpl. rewrite app_assoc. apply (IH _ _ _ _ _ H).
    apply Forall2_app; [|exact Hnew].
    eapply Forall2_impl; [exact Hinv|].
    intros l i (e & p & Hi & Hl & Hp). exists e, p.
    split; [exact Hi|]. split; [now apply Hframe | exact Hp].
Qed.

Lemma worker_step_ok (s : gmap positive Example) (res : list positive)
    (idxs : list nat) :
  Forall (fun e => (2 <= length (encode tokenizer separator e).1)%nat)
    dataset ->
  idxs <> [] ->
  Forall (fun i => (i < length dataset)%nat) idxs ->
  is_ok (worker_step tokenizer pad_token_id separator classify dataset
           (s, res) idxs).
Proof.
  intros Hlong Hne Hidx. unfold worker_step. simpl.
  destruct (is_ok_inv _ (foldM_fetch_ok dataset idxs Hidx s []))
    as ([s1 batch_] & Hload).
  rewrite Hload. simpl.
  apply foldM_fetch_spec in Hload as (_ & new & Hnew & Hrows).
  simpl in Hnew. subst new. apply process_batch_ok.
  - intros ->. apply Forall2_length in Hrows. destruct idxs; [now elim Hne|].
    discriminate Hrows.
  - apply Forall_forall. intros x Hx.
    apply list_elem_of_lookup in Hx as (k & Hk).
    destruct (Forall2_lookup_l _ _ _ _ _ Hrows Hk) as (i & _ & e & He & Hs1).
    exists e. split; [exact Hs1|].
    rewrite Forall_forall in Hlong. apply Hlong.
    eapply list_elem_of_lookup_2. exact He.
Qed.

Lemma foldM_worker_ok (batch_list : list (list nat)) :
  Forall (fun e => (2 <= length (encode tokenizer separator e).1)%nat)
    dataset ->
  Forall (fun idxs => idxs <> []
                      /\ Forall (fun i => (i < length dataset)%nat) idxs)
    batch_list ->
  forall (s : gmap positive Example) (res : list positive),
    is_ok (foldM (worker_step tokenizer pad_token_id separator classify
                    dataset) (s, res) batch_list).
Proof.
  intros Hlong. induction 1 as [|idxs batch_list [Hne Hidx] _ IH];
    intros s res; simpl; [exact I|].
  destruct (is_ok_inv _ (worker_step_ok s res idxs Hlong Hne Hidx))
    as ([s1 res1] & ->).
  simpl. apply IH.
Qed.

Lemma process_batch_ok_rows (s s' : gmap positive Example)
    (res res' batch_ : list positive) :
  process_batch tokenizer pad_token_id separator classify s res batch_
  = Ok (s', res') ->
  Forall (fun x => forall e, s !! x = Some e ->
                     length (encode tokenizer separator e).1 <> 1%nat)
    batch_.
Proof.
  unfold process_batch. intros H.
  apply bind_ok_inv in H as ([s1 nb] & Hcopy & H). simpl in H.
  apply bind_ok_inv in H as (rows & Hrows & H).
  apply bind_ok_inv in H as (b & Hb & _).
  apply deepcopy_spec in Hcopy as (Hsub & _ & _).
  apply collate_fn_inv in Hb as (max_len & _ & Hall & _).
  pose proof (deref_rows_lookup _ _ _ Hrows) as Hrow.
  apply Forall_forall. intros x Hx e He.
  apply list_elem_of_lookup in Hx as (k & Hk).
  destruct (Hrow _ _ Hk) as (e1 & He1 & Hk1).
  rewrite (lookup_weaken _ _ _ _ He Hsub) in He1. injection He1 as <-.
  rewrite Forall_forall in Hall.
  destruct (Hall e) as [_ Hlen]; [eapply list_elem_of_lookup_2; exact Hk1|].
  exact Hlen.
Qed.

Lemma foldM_worker_ok_rows (batch_list : list (list nat)) :
  forall (s s' : gmap positive Example) (res res' : list positive),
    foldM (worker_step tokenizer pad_token_id separator classify dataset)
      (s, res) batch_list = Ok (s', res') ->
    Forall (fun i => forall e, dataset !! i = Some e ->
                       length (encode tokenizer separator e).1 <> 1%nat)
      (concat batch_list).
Proof.
  induction batch_list as [|idxs batch_list IH]; intros s s' res res' H;
    simpl in H; [constructor|].
  apply bind_ok_inv in H as ([s1 res1] & Hstep & H).
  simpl. apply Forall_app. split; [|eapply IH; exact H].
  unfold worker_step in Hstep. simpl in Hstep.
  apply bind_ok_inv in Hstep as ([s0 batch_] & Hload & Hstep).
  simpl in Hstep.
  apply foldM_fetch_spec in Hload as (_ & new & Hnew & Hrows).
  simpl in Hnew. subst new.
  apply process_batch_ok_rows in Hstep. rewrite Forall_forall in Hstep.
  apply Forall_forall. intros i Hi e He.
  apply list_elem_of_lookup in Hi as (k & Hk).
  destruct (Forall2_lookup_r _ _ _ _ _ Hrows Hk) as (x & Hx & e1 & He1 & Hs0).
  rewrite He in He1. injection He1 as <-.
  apply (Hstep x); [eapply list_elem_of_lookup_2; exact Hx | exact Hs0].
Qed.
End WorkerRuns.

(** The rows a process hands to the gather when every example encodes to
    at least two tokens. *)
Lemma run_worker_rows (tokenizer : string -> list Z) (pad_token_id : Z)
    (separator : string) (classify : list (list Z) -> nat -> nat -> Z)
    (dataset : list Example) (accelerator : Accelerator) :
  Forall (fun e => (2 <= length (encode tokenizer separator e).1)%nat)
    dataset ->
  exists data : list Example,
    run_worker tokenizer pad_token_id separator classify dataset accelerator
    = Ok data
    /\ Forall2
         (fun d i =>
            exists (e : Example) (p : Z),
              dataset !! i = Some e /\ d = scored e p
              /\ step_index_or_sentinel p (length (steps e)))
         data (sampler accelerator (length dataset)).
Proof.
  intros Hlong. unfold run_worker.
  set (indices := sampler accelerator (length dataset)).
  assert (Hbatches : Forall
            (fun idxs => idxs <> []
                         /\ Forall (fun i => (i < length dataset)%nat) idxs)
            (batches bs indices)).
  { apply Forall_forall. intros idxs Hin.
    apply list_elem_of_lookup in Hin as (k & Hk).
    apply (batches_fuel_lookup bs) in Hk as [-> Hne];
      [|unfold bs; lia | reflexivity].
    split; [exact Hne|].
    apply Forall_take, Forall_drop, sampler_in_range. }
  destruct (is_ok_inv _ (foldM_worker_ok tokenizer pad_token_id separator
                           classify dataset _ Hlong Hbatches ∅ []))
    as ([s res] & Hloop).
  rewrite Hloop. simpl.
  apply (foldM_worker_judged _ _ _ _ _ _ _ _ _ _ []) in Hloop; [|constructor].
  simpl in Hloop. rewrite batches_concat in Hloop.
  assert (Hderef : is_ok (mapM (deref s) res)).
  { apply mapM_is_ok. apply Forall_forall. intros l Hl.
    apply list_elem_of_lookup in Hl as (k & Hk).
    destruct (Forall2_lookup_l _ _ _ _ _ Hloop Hk) as (i & _ & e & p & _ & Hs & _).
    unfold deref. now rewrite Hs. }
  destruct (is_ok_inv _ Hderef) as (data & Hdata).
  exists data. split; [exact Hdata|].
  apply mapM_ok_inv in Hdata.
  apply Forall2_same_length_lookup. split.
  - rewrite <- (Forall2_length _ _ _ Hdata). eapply Forall2_length. exact Hloop.
  - intros k d i Hd Hi.
    destruct (Forall2_lookup_r _ _ _ _ _ Hdata Hd) as (l & Hl & Hderef').
    destruct (Forall2_lookup_lr _ _ _ _ _ _ Hloop Hl Hi)
      as (e & p & He & Hs & Hp).
    unfold deref in Hderef'. rewrite Hs in Hderef'. injection Hderef' as <-.
    exists e, p. split; [exact He|]. split; [reflexivity | exact Hp].
Qed.

(** X12. The loop of one process, end to end.  When every example of the
    dataset encodes to at least two tokens, the process completes its loop
    without an exception, whatever the model answers, and hands to the
    gather one row per sampled index, in the order of the sampler; each
    row is the example of that index with a prediction that is -1 or the
    index of one of its steps, and the match of that prediction with its
    label. *)
Theorem run_worker_total (tokenizer : string -> list Z) (pad_token_id : Z)
    (separator : string) (classify : list (list Z) -> nat -> nat -> Z)
    (dataset : list Example) (accelerator : Accelerator) :
  Forall (fun e => (2 <= length (encode tokenizer separator e).1)%nat)
    dataset ->
  exists data : list Example,
    run_worker tokenizer pad_token_id separator classify dataset accelerator
    = Ok data
    /\ Forall2
         (fun d i =>
            exists (e : Example) (p : Z),
              dataset !! i = Some e /\ d = scored e p
              /\ step_index_or_sentinel p (length (steps e)))
         data (sampler accelerator (length dataset)).
Proof. apply run_worker_rows. Qed.

Lemma run_worker_total_witness :
  exists data : list Example,
    run_worker char_tokenizer 0 newline parity_classify four_rows
      (mkAccelerator 2 1 "MULTI_GPU") = Ok data
    /\ length data = 2%nat.
Proof.
  destruct (run_worker_total char_tokenizer 0 newline parity_classify four_rows
              (mkAccelerator 2 1 "MULTI_GPU")) as (data & Hrun & Hrows).
  - repeat constructor; vm_compute; lia.
  - exists data. split; [exact Hrun|].
    rewrite (Forall2_length _ _ _ Hrows). reflexivity.
Defined.

(** X13. One example that encodes to a single token stops the whole
    process: when the sampler of a process yields the index of such an
    example, the loop of that process ends with an exception and the
    process hands nothing to the gather. *)
Theorem run_worker_one_token_row_raises (tokenizer : string -> list Z)
    (pad_token_id : Z) (separator : string)
    (classify : list (list Z) -> nat -> nat -> Z)
    (dataset : list Example) (accelerator : Accelerator)
    (i : nat) (e : Example) :
  i ∈ sampler accelerator (length dataset) ->
  dataset !! i = Some e ->
  length (encode tokenizer separator e).1 = 1%nat ->
  exists err : exn,
    run_worker tokenizer pad_token_id separator classify dataset accelerator
    = Raise err.
Proof.
  intros Hin He Hone.
  destruct (run_worker tokenizer pad_token_id separator classify dataset
              accelerator) as [data|err] eqn:H; [|now exists err].
  exfalso. unfold run_worker in H.
  apply bind_ok_inv in H as ([s res] & Hloop & _).
  apply foldM_worker_ok_rows in Hloop. rewrite batches_concat in Hloop.
  rewrite Forall_forall in Hloop. exact (Hloop i Hin e He Hone).
Qed.

Lemma run_worker_one_token_row_raises_witness :
  exists err : exn,
    run_worker merge_tokenizer 0 newline parity_classify
      [example_two_steps; example_full_stop] (mkAccelerator 1 0 "NO")
    = Raise err.
Proof.
  apply (run_worker_one_token_row_raises merge_tokenizer 0 newline
           parity_classify [example_two_steps; example_full_stop]
           (mkAccelerator 1 0 "NO") 1 example_full_stop).
  - apply (list_elem_of_lookup_2 _ 1%nat). reflexivity.
  - reflexivity.
  - reflexivity.
Defined.

(** X14. Several processes without the distributed sampler.  When there
    are at least two processes and the distributed type is not
    ["MULTI_GPU"], no sampler is installed, every process scores the whole
    dataset, and the main process gathers [w] copies of the dataset's
    rows, rank after rank. *)
Theorem gather_objects_without_sampler (tokenizer : string -> list Z)
    (pad_token_id : Z) (separator : string)
    (classify : list (list Z) -> nat -> nat -> Z)
    (dataset : list Example) (w : nat) (dtype : string)
    (world : list (list Example)) :
  (2 <= w)%nat ->
  dtype <> "MULTI_GPU" ->
  Forall2 (fun r data =>
             run_worker tokenizer pad_token_id separator classify dataset
               (mkAccelerator w r dtype) = Ok data)
    (seq 0 w) world ->
  exists data merged : list Example,
    world !! 0%nat = Some data
    /\ gather_objects world data (mkAccelerator w 0 dtype) = Some merged
    /\ map raw merged = concat (replicate w (map raw dataset))
    /\ length merged = (w * length dataset)%nat.
Proof.
  intros Hw Hd Hrun.
  assert (Hlen : length world = w).
  { rewrite <- (Forall2_length _ _ _ Hrun). apply length_seq. }
  assert (Hall : Forall (fun data => map raw data = map raw dataset) world).
  { apply Forall_forall. intros data Hin.
    apply list_elem_of_lookup in Hin as (k & Hk).
    destruct (Forall2_lookup_r _ _ _ _ _ Hrun Hk) as (r & _ & Hr).
    apply run_worker_scored in Hr. unfold scored_shard, sampler in Hr.
    simpl in Hr. apply String.eqb_neq in Hd. rewrite Hd in Hr.
    now rewrite omap_lookup_seq in Hr. }
  destruct world as [|data world]; [simpl in Hlen; lia|].
  exists data, (concat (data :: world)). split; [reflexivity|].
  assert (Hraw : map raw (concat (data :: world))
                 = concat (replicate w (map raw dataset))).
  { rewrite <- Hlen. now apply map_raw_concat. }
  split; [|split; [exact Hraw|]].
  - unfold gather_objects, is_main_process. simpl num_processes.
    destruct (Nat.eqb_spec w 1) as [->|_]; [lia|]. simpl.
    now rewrite foldl_app_concat.
  - rewrite <- (length_map raw), Hraw, length_concat_replicate.
    now rewrite length_map.
Qed.

Lemma gather_objects_without_sampler_witness :
  exists data merged : list Example,
    gather_objects (world_of four_rows 2 "MULTI_CPU") data
      (mkAccelerator 2 0 "MULTI_CPU") = Some merged
    /\ length merged = 8%nat.
Proof.
  destruct (gather_objects_without_sampler char_tokenizer 0 newline
              parity_classify four_rows 2 "MULTI_CPU"
              (world_of four_rows 2 "MULTI_CPU"))
    as (data & merged & _ & Hg & _ & Hlen).
  - lia.
  - discriminate.
  - repeat constructor; vm_compute; reflexivity.
  - exists data, merged. split; [exact Hg | exact Hlen].
Defined.

(** ** More on the metrics block *)

Lemma filter_label_partition (l : list Example) :
  filter (fun e => label e ≠ -1) l ++ filter (fun e => label e = -1) l ≡ₚ l.
Proof.
  induction l as [|e l IH]; [reflexivity|].
  rewrite !filter_cons.
  destruct (decide (label e ≠ -1)) as [Hne|Heq];
    destruct (decide (label e = -1)) as [H1|H1]; try contradiction.
  - simpl. now rewrite IH.
  - rewrite <- Permutation_middle. now rewrite IH.
Qed.

Lemma filter_none {A} (P : A -> Prop) `{forall x, Decision (P x)}
    (l : list A) :
  Forall (fun x => ~ P x) l -> filter P l = [].
Proof.
  induction 1 as [|x l Hx _ IH]; [reflexivity|].
  now rewrite filter_cons_False.
Qed.

Lemma mapM_get_match_cases (l : list Example) :
  (Forall (fun e => is_Some (match_ e)) l
   /\ mapM get_match l = Ok (omap match_ l))
  \/ (Exists (fun e => match_ e = None) l
      /\ mapM get_match l = Raise KeyError).
Proof.
  induction l as [|e l IH]; [left; split; [constructor | reflexivity]|].
  change (omap match_ (e :: l))
    with (match match_ e with
          | Some y => y :: omap match_ l
          | None => omap match_ l
          end).
  simpl. unfold get_match at 1 3. destruct (match_ e) as [b|] eqn:Hm.
  - simpl. destruct IH as [[Hall ->]|[Hex ->]]; simpl.
    + left. split; [|reflexivity]. constructor; [now rewrite Hm | exact Hall].
    + right. split; [|reflexivity]. apply Exists_cons_tl. exact Hex.
  - right. split; [|reflexivity]. apply Exists_cons_hd. exact Hm.
Qed.

Lemma mapM_get_match_Permutation (l l' : list Example) :
  l ≡ₚ l' ->
  (exists m m' : list bool,
      mapM get_match l = Ok m /\ mapM get_match l' = Ok m' /\ m ≡ₚ m')
  \/ (mapM get_match l = Raise KeyError
      /\ mapM get_match l' = Raise KeyError).
Proof.
  intros Hperm.
  assert (Hclash : forall k k' : list Example, k ≡ₚ k' ->
            Forall (fun e => is_Some (match_ e)) k ->
            Exists (fun e => match_ e = None) k' -> False).
  { intros k k' Hk Hall Hex. apply Exists_exists in Hex as (e & Hin & Hnone).
    rewrite Forall_forall in Hall. destruct (Hall e) as [b Hb].
    - now rewrite Hk.
    - rewrite Hnone in Hb. discriminate Hb. }
  destruct (mapM_get_match_cases l) as [[Hall ->]|[Hex ->]];
    destruct (mapM_get_match_cases l') as [[Hall' ->]|[Hex' ->]].
  - left. eexists _, _. split; [reflexivity|]. split; [reflexivity|].
    now apply omap_Permutation.
  - exfalso. exact (Hclash _ _ Hperm Hall Hex').
  - exfalso. symmetry in Hperm. exact (Hclash _ _ Hperm Hall' Hex).
  - now right.
Qed.

Lemma accuracy_Permutation (m m' : list bool) :
  m ≡ₚ m' -> accuracy m = accuracy m'.
Proof.
  intros H. unfold accuracy, np_mean.
  assert (E : length (filter (fun b => b = true) m)
              = length (filter (fun b => b = true) m')).
  { apply Permutation_length. now apply filter_Permutation. }
  now rewrite E, (Permutation_length H).
Qed.

Lemma alike_refl (l : list event) : Forall2 alike l l.
Proof.
  apply Forall_Forall2_diag, Forall_forall. intros ev _.
  destruct ev; simpl; try reflexivity. now split.
Qed.

Lemma accuracy_nil : accuracy [] = S754_nan.
Proof. reflexivity. Qed.

Lemma fadd_nan_r (x : spec_float) : fadd x S754_nan = S754_nan.
Proof. now destruct x. Qed.

Lemma fmul_nan_r (x : spec_float) : fmul x S754_nan = S754_nan.
Proof. now destruct x. Qed.

Lemma fdiv_nan_l (y : spec_float) : fdiv S754_nan y = S754_nan.
Proof. now destruct y. Qed.

Lemma f1_score_nan_l (x : spec_float) : f1_score S754_nan x = S754_nan.
Proof.
  unfold f1_score. rewrite fmul_nan_r.
  change (fmul S754_nan x) with S754_nan. apply fdiv_nan_l.
Qed.

Lemma f1_score_nan_r (x : spec_float) : f1_score x S754_nan = S754_nan.
Proof. unfold f1_score. rewrite fmul_nan_r. apply fdiv_nan_l. Qed.

(** What the block computes when every gathered row carries a match. *)
Lemma report_config_result (save_dir config : string) (num : Z * Z)
    (gathered_data : list Example) (all_f1_scores : list spec_float) :
  Forall (fun e => is_Some (match_ e)) gathered_data ->
  (report_config save_dir config num gathered_data all_f1_scores).2
  = Ok (all_f1_scores
        ++ [f1_score
              (accuracy (omap match_
                           (filter (fun e => label e ≠ -1) gathered_data)))
              (accuracy (omap match_
                           (filter (fun e => label e = -1) gathered_data)))]).
Proof.
  intros Hall. unfold report_config.
  assert (Hsub : forall (P : Example -> Prop) `{forall x, Decision (P x)},
            mapM get_match (filter P gathered_data)
            = Ok (omap match_ (filter P gathered_data))).
  { intros P HP.
    destruct (mapM_get_match_cases (filter P gathered_data))
      as [[_ E]|[Hex _]]; [exact E|].
    exfalso. apply Exists_exists in Hex as (e & Hin & Hnone).
    apply list_elem_of_filter in Hin as [_ Hin].
    rewrite Forall_forall in Hall. destruct (Hall e Hin) as [b Hb].
    rewrite Hnone in Hb. discriminate Hb. }
  now rewrite !Hsub.
Qed.

Lemma report_config_one_sided (save_dir config : string) (num : Z * Z)
    (gathered_data : list Example) (all_f1_scores : list spec_float) :
  Forall (fun e => label e = -1) gathered_data
  \/ Forall (fun e => label e ≠ -1) gathered_data ->
  Forall (fun e => is_Some (match_ e)) gathered_data ->
  (report_config save_dir config num gathered_data all_f1_scores).2
  = Ok (all_f1_scores ++ [S754_nan]).
Proof.
  intros Hside Hall. rewrite report_config_result by exact Hall.
  destruct Hside as [Hside|Hside].
  - rewrite (filter_none (fun e => label e ≠ -1)).
    + change (omap match_ []) with (@nil bool).
      now rewrite accuracy_nil, f1_score_nan_l.
    + eapply Forall_impl; [exact Hside|]. intros e He Hne. now apply Hne.
  - rewrite (filter_none (fun e => label e = -1)) by exact Hside.
    change (omap match_ []) with (@nil bool).
    now rewrite accuracy_nil, f1_score_nan_r.
Qed.

(** X15. The two result files split the gathered rows by label.  Whatever
    the block does afterwards, its events are the count warnings, then the
    writing of the error file and of the correct file, then at most the
    report; every gathered row is written to exactly one of the two files,
    rows with a label other than -1 to the error file and rows with the
    label -1 to the correct file, each file keeping the order of the
    gathered rows. *)
Theorem report_config_files_split_rows (save_dir config : string)
    (num : Z * Z) (gathered_data : list Example)
    (all_f1_scores : list spec_float) :
  exists (warnings : list event) (data1 data2 : list Example)
         (report : list event),
    (report_config save_dir config num gathered_data all_f1_scores).1
    = warnings
      ++ [WriteFile (save_dir +:+ "/" +:+ config +:+ "_error.jsonl") data1;
          WriteFile (save_dir +:+ "/" +:+ config +:+ "_correct.jsonl") data2]
      ++ report
    /\ Forall (fun ev => is_warning ev = true) warnings
    /\ (length report <= 1)%nat
    /\ data1 ++ data2 ≡ₚ gathered_data
    /\ Forall (fun e => label e ≠ -1) data1
    /\ Forall (fun e => label e = -1) data2
    /\ data1 `sublist_of` gathered_data
    /\ data2 `sublist_of` gathered_data.
Proof.
  set (data1 := filter (fun e => label e ≠ -1) gathered_data).
  set (data2 := filter (fun e => label e = -1) gathered_data).
  set (warnings :=
         (if bool_decide (Z.of_nat (length data1) ≠ num.1)
          then [PrintErrorMismatch config (length data1) num.1] else [])
         ++ (if bool_decide (Z.of_nat (length data2) ≠ num.2)
             then [PrintCorrectMismatch config (length data2) num.2]
             else [])).
  assert (Hev : exists report : list event,
            (report_config save_dir config num gathered_data all_f1_scores).1
            = warnings
              ++ [WriteFile (save_dir +:+ "/" +:+ config +:+ "_error.jsonl")
                    data1;
                  WriteFile (save_dir +:+ "/" +:+ config +:+ "_correct.jsonl")
                    data2]
              ++ report
            /\ (length report <= 1)%nat).
  { unfold report_config. fold data1 data2.
    destruct (mapM get_match data1) as [m1|err1];
      [destruct (mapM get_match data2) as [m2|err2]|]; cbn [fst].
    - eexists [_]. split; [|simpl; lia]. subst warnings.
      rewrite <- !app_assoc. reflexivity.
    - exists []. split; [|simpl; lia]. subst warnings.
      rewrite <- !app_assoc. reflexivity.
    - exists []. split; [|simpl; lia]. subst warnings.
      rewrite <- !app_assoc. reflexivity. }
  destruct Hev as (report & Hev & Hlen).
  exists warnings, data1, data2, report.
  split; [exact Hev|]. split.
  { subst warnings. repeat case_bool_decide; repeat constructor. }
  split; [exact Hlen|]. split; [apply filter_label_partition|].
  split; [|split; [|split; apply sublist_filter]].
  - apply Forall_forall. intros e He.
    now apply list_elem_of_filter in He as [He _].
  - apply Forall_forall. intros e He.
    now apply list_elem_of_filter in He as [He _].
Qed.

(** X16. The reported numbers do not depend on the order of the gathered
    rows: for two lists of gathered rows that are rearrangements of each
    other, the block ends with the same [all_f1_scores] or the same
    exception, and emits the same events one by one, up to the order of
    the lines within each written file. *)
Theorem report_config_order_independent (save_dir config : string)
    (num : Z * Z) (gathered_data gathered_data' : list Example)
    (all_f1_scores : list spec_float) :
  gathered_data ≡ₚ gathered_data' ->
  (report_config save_dir config num gathered_data all_f1_scores).2
  = (report_config save_dir config num gathered_data' all_f1_scores).2
  /\ Forall2 alike
       (report_config save_dir config num gathered_data all_f1_scores).1
       (report_config save_dir config num gathered_data' all_f1_scores).1.
Proof.
  intros Hperm. unfold report_config.
  assert (P1 : filter (fun e => label e ≠ -1) gathered_data
               ≡ₚ filter (fun e => label e ≠ -1) gathered_data')
    by now apply filter_Permutation.
  assert (P2 : filter (fun e => label e = -1) gathered_data
               ≡ₚ filter (fun e => label e = -1) gathered_data')
    by now apply filter_Permutation.
  set (data1 := filter (fun e => label e ≠ -1) gathered_data) in *.
  set (data2 := filter (fun e => label e = -1) gathered_data) in *.
  set (data1' := filter (fun e => label e ≠ -1) gathered_data') in *.
  set (data2' := filter (fun e => label e = -1) gathered_data') in *.
  rewrite <- (Permutation_length P1), <- (Permutation_length P2).
  assert (Hfiles : forall p1 p2 : string,
            Forall2 alike [WriteFile p1 data1; WriteFile p2 data2]
              [WriteFile p1 data1'; WriteFile p2 data2']).
  { intros p1 p2. constructor; [now split|]. constructor; [now split|].
    constructor. }
  destruct (mapM_get_match_Permutation _ _ P1)
    as [(m1 & m1' & -> & -> & Hm1)|[-> ->]];
    [destruct (mapM_get_match_Permutation _ _ P2)
       as [(m2 & m2' & -> & -> & Hm2)|[-> ->]]|]; cbn [fst snd].
  - rewrite (accuracy_Permutation _ _ Hm1), (accuracy_Permutation _ _ Hm2).
    split; [reflexivity|].
    apply Forall2_app; [|apply alike_refl].
    apply Forall2_app; [apply alike_refl|].
    apply Forall2_app; [apply alike_refl | apply Hfiles].
  - split; [reflexivity|].
    apply Forall2_app; [apply alike_refl|].
    apply Forall2_app; [apply alike_refl | apply Hfiles].
  - split; [reflexivity|].
    apply Forall2_app; [apply alike_refl|].
    apply Forall2_app; [apply alike_refl | apply Hfiles].
Qed.

Lemma report_config_order_independent_witness :
  (report_config "outputs" "gsm8k" (1, 1)
     [row_error_missed; row_correct_flagged] []).2
  = (report_config "outputs" "gsm8k" (1, 1)
       [row_correct_flagged; row_error_missed] []).2.
Proof.
  apply (report_config_order_independent "outputs" "gsm8k" (1, 1)
           [row_error_missed; row_correct_flagged]
           [row_correct_flagged; row_error_missed] []).
  apply perm_swap.
Defined.

(** X17. A configuration without erroneous rows, or without correct rows,
    has no F1 value: when all gathered rows have the label -1, or none has,
    and each carries a match, the accuracy of the empty side is NaN (the
    mean of no value) and NaN is what the block appends to
    [all_f1_scores]. *)
Theorem report_config_one_sided_is_nan (save_dir config : string)
    (num : Z * Z) (gathered_data : list Example)
    (all_f1_scores : list spec_float) :
  Forall (fun e => label e = -1) gathered_data
  \/ Forall (fun e => label e ≠ -1) gathered_data ->
  Forall (fun e => is_Some (match_ e)) gathered_data ->
  accuracy [] = S754_nan
  /\ (report_config save_dir config num gathered_data all_f1_scores).2
     = Ok (all_f1_scores ++ [S754_nan]).
Proof.
  intros Hside Hall. split; [apply accuracy_nil|].
  now apply report_config_one_sided.
Qed.

Lemma report_config_one_sided_is_nan_witness :
  (report_config "outputs" "gsm8k" (0, 1) [row_correct_flagged] []).2
  = Ok [S754_nan].
Proof.
  apply (report_config_one_sided_is_nan "outputs" "gsm8k" (0, 1)
           [row_correct_flagged] []).
  - left. repeat constructor.
  - repeat constructor. simpl. eauto.
Defined.

(** X18. A gathered row without a match stops the block after the files:
    the accuracy computation raises [KeyError], both result files have been
    written by then, the last event is the writing of the correct file and
    no report is printed. *)
Theorem report_config_missing_match_raises (save_dir config : string)
    (num : Z * Z) (gathered_data : list Example)
    (all_f1_scores : list spec_float) :
  Exists (fun e => match_ e = None) gathered_data ->
  (report_config save_dir config num gathered_data all_f1_scores).2
  = Raise KeyError
  /\ last (report_config save_dir config num gathered_data all_f1_scores).1
     = Some (WriteFile (save_dir +:+ "/" +:+ config +:+ "_correct.jsonl")
               (filter (fun e => label e = -1) gathered_data))
  /\ (WriteFile (save_dir +:+ "/" +:+ config +:+ "_error.jsonl")
        (filter (fun e => label e ≠ -1) gathered_data)
      ∈ (report_config save_dir config num gathered_data all_f1_scores).1).
Proof.
  intros Hex. unfold report_config.
  set (data1 := filter (fun e => label e ≠ -1) gathered_data).
  set (data2 := filter (fun e => label e = -1) gathered_data).
  assert (Hlast : forall (w : list event) (a b : event),
            last (w ++ [a; b]) = Some b /\ a ∈ w ++ [a; b]).
  { intros w a b. split.
    - change [a; b] with ([a] ++ [b]). rewrite app_assoc. apply last_snoc.
    - apply elem_of_app. right. left. }
  assert (Hraise : mapM get_match data1 = Raise KeyError
                   \/ mapM get_match data2 = Raise KeyError).
  { apply Exists_exists in Hex as (e & Hin & Hnone).
    destruct (decide (label e = -1)) as [Heq|Hne].
    - right. destruct (mapM_get_match_cases data2) as [[Hall _]|[_ E]];
        [|exact E].
      exfalso. rewrite Forall_forall in Hall. destruct (Hall e) as [b Hb].
      + apply list_elem_of_filter. now split.
      + rewrite Hnone in Hb. discriminate Hb.
    - left. destruct (mapM_get_match_cases data1) as [[Hall _]|[_ E]];
        [|exact E].
      exfalso. rewrite Forall_forall in Hall. destruct (Hall e) as [b Hb].
      + apply list_elem_of_filter. now split.
      + rewrite Hnone in Hb. discriminate Hb. }
  destruct (mapM_get_match_cases data1) as [[_ E1]|[_ E1]]; rewrite E1.
  - destruct Hraise as [H|H]; [rewrite E1 in H; discriminate H|].
    rewrite H. cbn [fst snd]. split; [reflexivity|].
    rewrite !app_assoc. apply Hlast.
  - cbn [fst snd]. split; [reflexivity|].
    rewrite !app_assoc. apply Hlast.
Qed.

Lemma report_config_missing_match_raises_witness :
  (report_config "outputs" "gsm8k" (1, 1)
     [row_error_missed; example_no_steps] []).2
  = Raise KeyError.
Proof.
  apply (report_config_missing_match_raises "outputs" "gsm8k" (1, 1)
           [row_error_missed; example_no_steps] []).
  apply Exists_cons_tl, Exists_cons_hd. reflexivity.
Defined.

(** ** Padding and the count check *)

Lemma padded_indices_in_range (n total_size : nat) :
  Forall (fun i => (i < n)%nat) (padded_indices n total_size).
Proof.
  assert (Hall : Forall (fun i => (i < n)%nat) (seq 0 n)).
  { apply Forall_forall. intros j Hj. apply elem_of_seq in Hj. lia. }
  unfold padded_indices. destruct (_ <=? _)%nat; apply Forall_app.
  - split; [exact Hall | now apply Forall_take].
  - split; [exact Hall|].
    apply Forall_take, Forall_concat, Forall_replicate. exact Hall.
Qed.

Lemma length_omap_total {A B} (f : A -> option B) (l : list A) :
  Forall (fun x => is_Some (f x)) l -> length (omap f l) = length l.
Proof.
  induction 1 as [|x l [y Hy] _ IH]; [reflexivity|].
  change (omap f (x :: l))
    with (match f x with Some z => z :: omap f l | None => omap f l end).
  rewrite Hy. simpl. now rewrite IH.
Qed.

Lemma filter_label_lengths (l : list Example) :
  Nat.add (length (filter (fun e => label e ≠ -1) l))
    (length (filter (fun e => label e = -1) l))
  = length l.
Proof.
  rewrite <- length_app. apply Permutation_length, filter_label_partition.
Qed.

(** X19. Padding is always noticed by the count check.  Under the
    distributed sampler with a number of processes that does not divide
    the size of the dataset, the main process gathers
    [ceil(N / W) * W > N] rows, so when the expected counts add up to the
    size of the dataset the block prints at least one count warning. *)
Theorem padding_triggers_count_warning (tokenizer : string -> list Z)
    (pad_token_id : Z) (separator : string)
    (classify : list (list Z) -> nat -> nat -> Z)
    (dataset : list Example) (w : nat) (world : list (list Example))
    (save_dir config : string) (num : Z * Z)
    (all_f1_scores : list spec_float) :
  (1 <= w)%nat ->
  ~ Nat.divide w (length dataset) ->
  Forall2 (fun r data =>
             run_worker tokenizer pad_token_id separator classify dataset
               (mkAccelerator w r "MULTI_GPU") = Ok data)
    (seq 0 w) world ->
  num.1 + num.2 = Z.of_nat (length dataset) ->
  exists data merged : list Example,
    world !! 0%nat = Some data
    /\ gather_objects world data (mkAccelerator w 0 "MULTI_GPU") = Some merged
    /\ length merged = (ceil_div (length dataset) w * w)%nat
    /\ (length dataset < length merged)%nat
    /\ Exists (fun ev => is_warning ev = true)
         (report_config save_dir config num merged all_f1_scores).1.
Proof.
  intros Hw Hndiv Hrun Hnum.
  set (n := length dataset) in *.
  set (total := (ceil_div n w * w)%nat).
  assert (Hn : (1 <= n)%nat).
  { destruct n; [|lia]. exfalso. apply Hndiv. apply Nat.divide_0_r. }
  assert (Hw2 : w <> 1%nat).
  { intros ->. apply Hndiv. apply Nat.divide_1_l. }
  assert (Hcov : (n < total)%nat).
  { pose proof (ceil_div_covers n w Hw) as Hle. fold total in Hle.
    destruct (decide (n = total)) as [E|]; [|lia].
    exfalso. apply Hndiv. exists (ceil_div n w). exact E. }
  assert (Hworld : Forall2
            (fun r data =>
               scored_shard dataset (mkAccelerator w r "MULTI_GPU") data)
            (seq 0 w) world).
  { eapply Forall2_impl; [exact Hrun|]. intros r data H.
    eapply run_worker_scored. exact H. }
  assert (Hlen : length (concat world) = total).
  { rewrite <- (length_map raw).
    rewrite (Permutation_length (gathered_rows_padded _ _ _ Hw Hworld)).
    fold n total. rewrite length_omap_total.
    - apply padded_indices_length; lia.
    - eapply Forall_impl; [apply padded_indices_in_range|].
      intros i Hi. simpl in Hi.
      destruct (lookup_lt_is_Some_2 dataset i Hi) as [e ->]. simpl. eauto. }
  assert (Hlw : length world = w).
  { rewrite <- (Forall2_length _ _ _ Hrun). apply length_seq. }
  destruct world as [|data world]; [simpl in Hlw; lia|].
  exists data, (concat (data :: world)). split; [reflexivity|]. split.
  { unfold gather_objects, is_main_process. simpl num_processes.
    destruct (Nat.eqb_spec w 1) as [E|_]; [contradiction|]. simpl.
    now rewrite foldl_app_concat. }
  split; [exact Hlen|]. split; [rewrite Hlen; exact Hcov|].
  pose proof (filter_label_lengths (concat (data :: world))) as Hsum.
  unfold report_config.
  set (data1 := filter (fun e => label e ≠ -1) (concat (data :: world))) in *.
  set (data2 := filter (fun e => label e = -1) (concat (data :: world))) in *.
  set (files := [WriteFile _ data1; WriteFile _ data2]).
  assert (Hwarn : Exists (fun ev => is_warning ev = true)
            ((if bool_decide (Z.of_nat (length data1) ≠ num.1)
              then [PrintErrorMismatch config (length data1) num.1] else [])
             ++ (if bool_decide (Z.of_nat (length data2) ≠ num.2)
                 then [PrintCorrectMismatch config (length data2) num.2]
                 else [])
             ++ files)).
  { destruct (decide (Z.of_nat (length data1) = num.1)) as [E1|N1].
    - assert (N2 : Z.of_nat (length data2) ≠ num.2) by lia.
      apply Exists_app. right.
      rewrite (bool_decide_eq_true_2 _ N2). now apply Exists_cons_hd.
    - rewrite (bool_decide_eq_true_2 _ N1). now apply Exists_cons_hd. }
  destruct (mapM get_match data1) as [m1|err1];
    [destruct (mapM get_match data2) as [m2|err2]|]; cbn [fst];
    try exact Hwarn.
  apply Exists_app. left. exact Hwarn.
Qed.

Lemma padding_triggers_count_warning_witness :
  exists data merged : list Example,
    gather_objects (world_of three_rows 2 "MULTI_GPU") data
      (mkAccelerator 2 0 "MULTI_GPU") = Some merged
    /\ length merged = 4%nat
    /\ Exists (fun ev => is_warning ev = true)
         (report_config "outputs" "gsm8k" (2, 1) merged []).1.
Proof.
  destruct (padding_triggers_count_warning char_tokenizer 0 newline
              parity_classify three_rows 2 (world_of three_rows 2 "MULTI_GPU")
              "outputs" "gsm8k" (2, 1) [])
    as (data & merged & _ & Hg & Hlen & _ & Hwarn).
  - lia.
  - intros [q Hq]. change (length three_rows) with 3%nat in Hq. lia.
  - repeat constructor; vm_compute; reflexivity.
  - reflexivity.
  - exists data, merged. split; [exact Hg|]. split; [exact Hlen | exact Hwarn].
Defined.

(** ** The loop over the configurations *)

Lemma fadd_nan_l (x : spec_float) : fadd S754_nan x = S754_nan.
Proof. now destruct x. Qed.

Lemma foldl_fadd_nan (l : list spec_float) :
  foldl fadd S754_nan l = S754_nan.
Proof.
  induction l as [|x l IH]; [reflexivity|].
  change (foldl fadd (fadd S754_nan x) l = S754_nan).
  now rewrite fadd_nan_l.
Qed.

Lemma np_mean_floats_nan (l : list spec_float) :
  S754_nan ∈ l -> np_mean_floats l = S754_nan.
Proof.
  intros Hin. unfold np_mean_floats.
  assert (E : forall acc, foldl fadd acc l = S754_nan).
  { induction l as [|x l IH]; intros acc; [inversion Hin|].
    change (foldl fadd (fadd acc x) l = S754_nan).
    apply elem_of_cons in Hin as [<-|Hin].
    - now rewrite fadd_nan_r, foldl_fadd_nan.
    - now apply IH. }
  rewrite E. apply fdiv_nan_l.
Qed.

Lemma report_configs_app (save_dir : string)
    (gathered : string -> result (list Example))
    (todo1 todo2 : list (string * (Z * Z))) :
  forall all_f1_scores : list spec_float,
    report_configs save_dir gathered (todo1 ++ todo2) all_f1_scores
    = match (report_configs save_dir gathered todo1 all_f1_scores).2 with
      | Ok all_f1_scores' =>
          ((report_configs save_dir gathered todo1 all_f1_scores).1
           ++ (report_configs save_dir gathered todo2 all_f1_scores').1,
           (report_configs save_dir gathered todo2 all_f1_scores').2)
      | Raise e =>
          ((report_configs save_dir gathered todo1 all_f1_scores).1, Raise e)
      end.
Proof.
  induction todo1 as [|[config num] todo1 IH]; intros all_f1_scores.
  - cbn [app report_configs fst snd].
    now destruct (report_configs save_dir gathered todo2 all_f1_scores).
  - cbn [app report_configs].
    destruct (gathered config) as [gathered_data|err]; [|reflexivity].
    cbv zeta.
    destruct (report_config save_dir config num gathered_data all_f1_scores).2
      as [all_f1_scores'|err]; [|reflexivity].
    rewrite IH. cbn [fst snd].
    destruct (report_configs save_dir gathered todo1 all_f1_scores').2;
      cbn [fst snd]; [|reflexivity].
    now rewrite app_assoc.
Qed.

Lemma report_configs_all_ok (save_dir : string)
    (gathered : string -> result (list Example))
    (todo : list (string * (Z * Z))) :
  Forall (fun cn => exists rows, gathered cn.1 = Ok rows
                      /\ Forall (fun e => is_Some (match_ e)) rows) todo ->
  forall all_f1_scores : list spec_float,
    exists f1s : list spec_float,
      (report_configs save_dir gathered todo all_f1_scores).2
      = Ok (all_f1_scores ++ f1s)
      /\ Forall2
           (fun cn f1 =>
              exists rows, gathered cn.1 = Ok rows
                /\ forall scores,
                     (report_config save_dir cn.1 cn.2 rows scores).2
                     = Ok (scores ++ [f1]))
           todo f1s.
Proof.
  induction 1 as [|[config num] todo (rows & Hg & Hall) _ IH];
    intros all_f1_scores.
  - exists []. split; [now rewrite app_nil_r | constructor].
  - simpl in Hg. cbn [report_configs]. rewrite Hg. cbv zeta.
    rewrite (report_config_result save_dir config num rows all_f1_scores Hall).
    set (f1 := f1_score _ _).
    destruct (IH (all_f1_scores ++ [f1])) as (f1s & E & Hrest).
    exists (f1 :: f1s). cbn [fst snd]. split.
    + rewrite E. now rewrite <- app_assoc.
    + constructor; [|exact Hrest]. exists rows. split; [exact Hg|].
      intros scores. simpl.
      now rewrite (report_config_result save_dir config num rows scores Hall).
Qed.

(** X20. One configuration without an F1 value spoils the average.  When
    every configuration is gathered with a match on every row, and the
    rows of some configuration all have the label -1 or all have another
    label, the run raises nothing and the average F1 of the last line is
    NaN. *)
Theorem main_report_nan_average (save_dir : string)
    (gathered : string -> result (list Example))
    (todo : list (string * (Z * Z))) :
  Forall (fun cn => exists rows, gathered cn.1 = Ok rows
                      /\ Forall (fun e => is_Some (match_ e)) rows) todo ->
  Exists (fun cn => exists rows, gathered cn.1 = Ok rows
                      /\ (Forall (fun e => label e = -1) rows
                          \/ Forall (fun e => label e ≠ -1) rows)) todo ->
  (main_report save_dir gathered todo).2 = Ok S754_nan.
Proof.
  intros Hall Hex.
  destruct (report_configs_all_ok save_dir gathered todo Hall [])
    as (f1s & E & Hf1s).
  unfold main_report. cbv zeta. rewrite E. cbn [snd app]. f_equal.
  apply np_mean_floats_nan.
  apply Exists_exists in Hex as (cn & Hin & rows & Hg & Hside).
  apply list_elem_of_lookup in Hin as (k & Hk).
  destruct (Forall2_lookup_l _ _ _ _ _ Hf1s Hk) as (f1 & Hf1 & rows' & Hg' & Hr).
  rewrite Hg in Hg'. injection Hg' as <-.
  rewrite Forall_forall in Hall.
  destruct (Hall cn) as (rows'' & Hg'' & Hm);
    [eapply list_elem_of_lookup_2; exact Hk|].
  rewrite Hg in Hg''. injection Hg'' as <-.
  pose proof (report_config_one_sided save_dir cn.1 cn.2 rows [] Hside Hm)
    as Hnan.
  rewrite (Hr []) in Hnan. injection Hnan as ->.
  eapply list_elem_of_lookup_2. exact Hf1.
Qed.

Lemma main_report_nan_average_witness :
  (main_report "outputs" (fun _ => Ok [row_correct_flagged]) configs).2
  = Ok S754_nan.
Proof.
  apply (main_report_nan_average "outputs"
           (fun _ => Ok [row_correct_flagged]) configs).
  - repeat constructor; exists [row_correct_flagged];
      (split; [reflexivity|]); repeat constructor; simpl; eauto.
  - apply Exists_cons_hd. exists [row_correct_flagged].
    split; [reflexivity|]. left. repeat constructor.
Defined.

(** X21. An exception ends the run.  When the configurations before one
    complete and that one raises, while it is scored and gathered or in its
    metrics block, the run ends with that exception: the configurations
    after it are never evaluated, whatever they are, no average is
    printed, and the events of the earlier configurations come first. *)
Theorem main_report_stops_at_exception (save_dir : string)
    (gathered : string -> result (list Example))
    (before after : list (string * (Z * Z))) (config : string) (num : Z * Z)
    (all_f1_scores : list spec_float) (err : exn) :
  (report_configs save_dir gathered before []).2 = Ok all_f1_scores ->
  gathered config = Raise err
  \/ (exists rows, gathered config = Ok rows
        /\ (report_config save_dir config num rows all_f1_scores).2
           = Raise err) ->
  main_report save_dir gathered (before ++ (config, num) :: after)
  = main_report save_dir gathered (before ++ [(config, num)])
  /\ (main_report save_dir gathered (before ++ (config, num) :: after)).2
     = Raise err
  /\ (report_configs save_dir gathered before []).1
     `prefix_of`
     (main_report save_dir gathered (before ++ (config, num) :: after)).1.
Proof.
  intros Hbefore Hfail.
  assert (Hhead : forall rest,
            exists out,
              report_configs save_dir gathered ((config, num) :: rest)
                all_f1_scores = (out, Raise err)
              /\ report_configs save_dir gathered [(config, num)]
                   all_f1_scores = (out, Raise err)).
  { intros rest. cbn [report_configs].
    destruct Hfail as [->|(rows & -> & Hblock)].
    - now exists [].
    - cbv zeta. rewrite Hblock. eexists. split; reflexivity. }
  destruct (Hhead after) as (out & Hcons & Hone).
  unfold main_report. cbv zeta.
  rewrite !report_configs_app, Hbefore, Hcons, Hone. cbn [fst snd].
  split; [reflexivity|]. split; [reflexivity|].
  now exists out.
Qed.

Lemma main_report_stops_at_exception_witness :
  (main_report "outputs"
     (fun config => if String.eqb config "math" then Raise RuntimeError
                    else Ok [row_error_missed; row_correct_flagged])
     configs).2
  = Raise RuntimeError.
Proof.
  apply (main_report_stops_at_exception "outputs"
           (fun config => if String.eqb config "math" then Raise RuntimeError
                          else Ok [row_error_missed; row_correct_flagged])
           [("gsm8k", (207, 193))]
           [("olympiadbench", (661, 339)); ("omnimath", (759, 241))]
           "math" (594, 406) [S754_nan] RuntimeError).
  - reflexivity.
  - left. reflexivity.
Defined.

(** ** A run on one process *)

Lemma distributed_sampler_single (n : nat) :
  distributed_sampler n 1 0 = seq 0 n.
Proof.
  destruct n as [|n]; [reflexivity|].
  rewrite distributed_sampler_map by lia.
  assert (E : ceil_div (S n) 1 = S n).
  { unfold ceil_div. replace (S n + 1 - 1)%nat with (S n) by lia.
    apply Nat.div_1_r. }
  rewrite E. transitivity (map id (seq 0 (S n))); [|apply map_id].
  apply map_ext_in. intros k Hk. apply in_seq in Hk. unfold id.
  replace (0 + k * 1)%nat with k by lia. apply Nat.mod_small. lia.
Qed.

Lemma sampler_single (dtype : string) (n : nat) :
  sampler (mkAccelerator 1 0 dtype) n = seq 0 n.
Proof.
  unfold sampler. simpl.
  destruct (String.eqb dtype "MULTI_GPU");
    [apply distributed_sampler_single | reflexivity].
Qed.

Lemma filter_label_same (l l' : list Example) :
  map label l = map label l' ->
  length (filter (fun e => label e ≠ -1) l)
  = length (filter (fun e => label e ≠ -1) l')
  /\ length (filter (fun e => label e = -1) l)
     = length (filter (fun e => label e = -1) l').
Proof.
  revert l'. induction l as [|e l IH]; intros [|e' l'] H; simpl in H;
    try discriminate H; [now split|].
  injection H as Hhd Htl. destruct (IH _ Htl) as [IH1 IH2].
  rewrite !filter_cons, Hhd.
  split; destruct (decide _); simpl; congruence.
Qed.

(** X22. A run on one process.  With a single process and a dataset whose
    examples all encode to at least two tokens, the process scores every
    example once, in the order of the dataset, the gather returns its rows
    as they are, the metrics block ends without an exception, and it
    prints no count warning exactly when the expected counts are the
    numbers of erroneous and of correct examples of the dataset. *)
Theorem single_process_run (tokenizer : string -> list Z) (pad_token_id : Z)
    (separator : string) (classify : list (list Z) -> nat -> nat -> Z)
    (dataset : list Example) (dtype : string) (world : list (list Example))
    (save_dir config : string) (num : Z * Z)
    (all_f1_scores : list spec_float) :
  Forall (fun e => (2 <= length (encode tokenizer separator e).1)%nat)
    dataset ->
  exists data : list Example,
    run_worker tokenizer pad_token_id separator classify dataset
      (mkAccelerator 1 0 dtype) = Ok data
    /\ gather_objects world data (mkAccelerator 1 0 dtype) = Some data
    /\ map raw data = map raw dataset
    /\ is_ok (report_config save_dir config num data all_f1_scores).2
    /\ (Forall (fun ev => is_warning ev = false)
          (report_config save_dir config num data all_f1_scores).1
        <-> num
            = (Z.of_nat (length (filter (fun e => label e ≠ -1) dataset)),
               Z.of_nat (length (filter (fun e => label e = -1) dataset)))).
Proof.
  intros Hlong.
  destruct (run_worker_rows tokenizer pad_token_id separator classify dataset
              (mkAccelerator 1 0 dtype) Hlong) as (data & Hrun & Hrows).
  exists data. split; [exact Hrun|]. split; [reflexivity|].
  assert (Hraw : map raw data = map raw dataset).
  { pose proof (run_worker_scored _ _ _ _ _ _ _ Hrun) as Hs.
    unfold scored_shard in Hs.
    now rewrite sampler_single, omap_lookup_seq in Hs. }
  split; [exact Hraw|].
  assert (Hmatch : Forall (fun e => is_Some (match_ e)) data).
  { apply Forall_forall. intros d Hd.
    apply list_elem_of_lookup in Hd as (k & Hk).
    destruct (Forall2_lookup_l _ _ _ _ _ Hrows Hk)
      as (i & _ & e & p & _ & -> & _).
    simpl. eauto. }
  split.
  { now rewrite (report_config_result _ _ _ _ _ Hmatch). }
  assert (Hlabel : map label data = map label dataset).
  { transitivity (map label (map raw data)); [now rewrite map_map|].
    rewrite Hraw. now rewrite map_map. }
  destruct (filter_label_same _ _ Hlabel) as [<- <-].
  unfold report_config.
  set (data1 := filter (fun e => label e ≠ -1) data).
  set (data2 := filter (fun e => label e = -1) data).
  assert (Hsub : forall (P : Example -> Prop) `{forall x, Decision (P x)},
            mapM get_match (filter P data)
            = Ok (omap match_ (filter P data))).
  { intros P HP.
    destruct (mapM_get_match_cases (filter P data)) as [[_ E]|[Hex _]];
      [exact E|].
    exfalso. apply Exists_exists in Hex as (e & Hin & Hnone).
    apply list_elem_of_filter in Hin as [_ Hin].
    rewrite Forall_forall in Hmatch. destruct (Hmatch e Hin) as [b Hb].
    rewrite Hnone in Hb. discriminate Hb. }
  subst data1 data2. rewrite !Hsub. cbn [fst].
  set (data1 := filter (fun e => label e ≠ -1) data).
  set (data2 := filter (fun e => label e = -1) data).
  destruct num as [num1 num2]. cbn [fst snd]. split.
  - intros Hquiet. rewrite !Forall_app in Hquiet.
    destruct Hquiet as [[Hw1 [Hw2 _]] _].
    assert (E1 : Z.of_nat (length data1) = num1).
    { destruct (decide (Z.of_nat (length data1) = num1)) as [E|N]; [exact E|].
      rewrite (bool_decide_eq_true_2 _ N) in Hw1.
      apply Forall_cons in Hw1 as [Hw1 _]. discriminate Hw1. }
    assert (E2 : Z.of_nat (length data2) = num2).
    { destruct (decide (Z.of_nat (length data2) = num2)) as [E|N]; [exact E|].
      rewrite (bool_decide_eq_true_2 _ N) in Hw2.
      apply Forall_cons in Hw2 as [Hw2 _]. discriminate Hw2. }
    now rewrite E1, E2.
  - intros Hnum. injection Hnum as <- <-.
    rewrite !bool_decide_eq_false_2 by (intros H; now apply H).
    repeat constructor.
Qed.

Lemma single_process_run_witness :
  exists data : list Example,
    run_worker char_tokenizer 0 newline parity_classify four_rows
      (mkAccelerator 1 0 "NO") = Ok data
    /\ map raw data = four_rows
    /\ Forall (fun ev => is_warning ev = false)
         (report_config "outputs" "gsm8k" (2, 2) data []).1.
Proof.
  destruct (single_process_run char_tokenizer 0 newline parity_classify
              four_rows "NO" [] "outputs" "gsm8k" (2, 2) [])
    as (data & Hrun & _ & Hraw & _ & Hquiet).
  - repeat constructor; vm_compute; lia.
  - exists data. split; [exact Hrun|]. split; [exact Hraw|].
    apply Hquiet. reflexivity.
Defined.
